(** * Deadlock tool front end: graph derivation, hover neighbourhood,
      snapshot capture and snapshot comparison

    A shallow embedding of the algorithmic core of
    the graph rendering source (class [GraphVisualization]) and
    [static/js/app.js] (class [DeadlockApp]), followed by the properties
    that the specification states about them.

    Modelling conventions.
    - A JavaScript string is a Rocq [string]; each character stands for one
      code unit below 256.
    - A JavaScript number that holds an integer is a [Z]; [NaN], which
      [parseInt] can produce, is kept apart ([jsnum]).  The embedding is
      exact on the safe-integer range of the double format.
    - A plain object is an association list in property-creation order;
      [own_entries] gives the enumeration order of [Object.entries].
    - A [Set] is a duplicate-free list in insertion order.
    - [forEach] loops are folds that pass the mutated arrays along. *)

From stdpp Require Import base list strings pretty sorting.
From Stdlib Require Import ZArith Ascii.

Local Open Scope Z_scope.

(** ** JavaScript values and built-ins used by the sources *)

Module Js.

(** Numbers that occur in the sources: integers and [NaN]. *)
Inductive jsnum :=
| Num (z : Z)
| NaN.

Global Instance jsnum_eq_dec : EqDecision jsnum.
Proof. solve_decision. Defined.

(** [a === b] on numbers: [NaN] is different from everything. *)
Definition strict_eq (a b : jsnum) : bool :=
  match a, b with
  | Num x, Num y => bool_decide (x = y)
  | _, _ => false
  end.

(** [a !== b] on numbers. *)
Definition strict_neq (a b : jsnum) : bool := negb (strict_eq a b).

(** [String(n)], as used by template literals and property keys: the
    decimal form, which is what the code gives for a safe integer. *)
Definition num_to_string (n : jsnum) : string :=
  match n with
  | Num z => pretty z
  | NaN => "NaN"
  end.

(** A value that may be [undefined] (a missing array element). *)
Definition str_to_string (s : option string) : string :=
  match s with
  | Some s => s
  | None => "undefined"
  end.

(** [a === b] where either side may be [undefined]. *)
Definition strict_eq_str (a b : option string) : bool := bool_decide (a = b).

(** White space skipped by [parseInt] (code units below 256). *)
Definition is_white_space (c : ascii) : bool :=
  let n := nat_of_ascii c in
  ((9 <=? n)%nat && (n <=? 13)%nat) || (n =? 32)%nat || (n =? 160)%nat.

Fixpoint trim_start (s : string) : string :=
  match s with
  | String c s' => if is_white_space c then trim_start s' else s
  | EmptyString => EmptyString
  end.

(** The value of a character as a digit in the given radix (10 or 16). *)
Definition digit_value (radix : N) (c : ascii) : option N :=
  let n := N_of_ascii c in
  let v :=
    if ((48 <=? n) && (n <=? 57))%N then Some (n - 48)%N
    else if ((97 <=? n) && (n <=? 122))%N then Some (n - 87)%N
    else if ((65 <=? n) && (n <=? 90))%N then Some (n - 55)%N
    else None in
  match v with
  | Some d => if (d <? radix)%N then Some d else None
  | None => None
  end.

(** The longest prefix of [s] made of radix digits, as digit values. *)
Fixpoint digit_prefix (radix : N) (s : string) : list N :=
  match s with
  | String c s' =>
      match digit_value radix c with
      | Some d => d :: digit_prefix radix s'
      | None => []
      end
  | EmptyString => []
  end.

Definition digits_value (radix : N) (ds : list N) : N :=
  foldl (λ acc d, radix * acc + d)%N 0%N ds.

(** [parseInt(s)] with no radix argument.  The result is the integer that
    the digits denote; the code returns the number nearest to it, which is
    that integer when it is a safe integer (below [2^53] in absolute
    value). *)
Definition parseInt (s : string) : jsnum :=
  let s1 := trim_start s in
  let '(negative, s2) :=
    match s1 with
    | String "-" r => (true, r)
    | String "+" r => (false, r)
    | _ => (false, s1)
    end in
  let '(radix, s3) :=
    match s2 with
    | String "0" (String "x" r) => (16%N, r)
    | String "0" (String "X" r) => (16%N, r)
    | _ => (10%N, s2)
    end in
  match digit_prefix radix s3 with
  | [] => NaN
  | ds =>
      let n := Z.of_N (digits_value radix ds) in
      Num (if negative : bool then - n else n)
  end.

(** [s.split(sep)] for a one-character separator: every occurrence of
    the separator cuts; the result has at least one element. *)
Fixpoint split (sep : ascii) (s : string) : list string :=
  match s with
  | EmptyString => [EmptyString]
  | String c s' =>
      if decide (c = sep) then EmptyString :: split sep s'
      else match split sep s' with
           | piece :: pieces => String c piece :: pieces
           | [] => [String c EmptyString]
           end
  end.

(** Plain objects: own properties in creation order. *)
Abbreviation JsObj V := (list (string * V)) (only parsing).

(** [o[k]]; [None] is [undefined]. *)
Fixpoint obj_get {V} (k : string) (o : JsObj V) : option V :=
  match o with
  | [] => None
  | (k', v) :: o' => if decide (k' = k) then Some v else obj_get k o'
  end.

(** [o[k] = v]: an existing property keeps its place, a new one is
    created last. *)
Fixpoint obj_set {V} (k : string) (v : V) (o : JsObj V) : JsObj V :=
  match o with
  | [] => [(k, v)]
  | (k', v') :: o' =>
      if decide (k' = k) then (k, v) :: o' else (k', v') :: obj_set k v o'
  end.

(** A property key is an array index when it is the canonical decimal
    form of an integer below [2^32 - 1]. *)
Definition array_index (k : string) : option N :=
  match digit_prefix 10 k with
  | [] => None
  | ds =>
      let n := digits_value 10 ds in
      if bool_decide (pretty n = k) && (n <? 4294967295)%N
      then Some n else None
  end.

Definition index_le {V} (a b : N * (string * V)) : Prop := (a.1 ≤ b.1)%N.

Global Instance index_le_dec {V} (a b : N * (string * V)) :
  Decision (index_le a b).
Proof. unfold index_le. apply _. Defined.

Definition indexed {V} (kv : string * V) : option (N * (string * V)) :=
  (λ n, (n, kv)) <$> array_index kv.1.

(** [Object.entries(o)]: array-index keys in ascending numeric order,
    then the other keys in creation order. *)
Definition own_entries {V} (o : JsObj V) : list (string * V) :=
  (snd <$> merge_sort index_le (omap indexed o))
  ++ filter (λ kv, array_index kv.1 = None) o.

(** [Object.keys(o)]. *)
Definition own_keys {V} (o : JsObj V) : list string := fst <$> own_entries o.

(** [{...dst, ...src}] onto an object under construction: every own
    property of [src] is written to [dst], the last write wins. *)
Definition spread {V} (src : JsObj V) (dst : JsObj V) : JsObj V :=
  foldl (λ acc kv, obj_set kv.1 kv.2 acc) dst (own_entries src).

(** [Set]: insertion order, no duplicates. *)
Abbreviation JsSet A := (list A) (only parsing).

Definition set_has {A} `{EqDecision A} (x : A) (s : JsSet A) : bool :=
  bool_decide (x ∈ s).

Definition set_add {A} `{EqDecision A} (x : A) (s : JsSet A) : JsSet A :=
  if set_has x s then s else s ++ [x].

(** [new Set(xs)]. *)
Definition set_of_list {A} `{EqDecision A} (xs : list A) : JsSet A :=
  foldl (λ s x, set_add x s) [] xs.

(** [xs.forEach(x => body)]: the body updates the captured state. *)
Definition forEach {A S} (xs : list A) (body : A → S → S) (s : S) : S :=
  foldl (λ s x, body x s) s xs.

(** [arr.push(x)]. *)
Definition push {A} (x : A) (arr : list A) : list A := arr ++ [x].

(** Opaque JSON values carried by pass-through fields. *)
#[warnings="-register-all"]
Inductive jsval :=
| VNull
| VBool (b : bool)
| VNum (n : jsnum)
| VStr (s : string)
| VArr (items : list jsval)
| VObj (fields : list (string * jsval)).

(** [JSON.parse(JSON.stringify(v))] on a value: [NaN] is written as
    [null]; everything else comes back as it was.  (The copy of an object
    has its properties created in enumeration order, which gives it the
    enumeration order of the original; the association list is kept as it
    is.) *)
Fixpoint json_value (v : jsval) : jsval :=
  match v with
  | VNum NaN => VNull
  | VArr items => VArr (json_value <$> items)
  | VObj fields => VObj ((λ '(k, x), (k, json_value x)) <$> fields)
  | _ => v
  end.

Definition json_fields (o : JsObj jsval) : JsObj jsval :=
  (λ '(k, x), (k, json_value x)) <$> o.

(** A number after the round trip: itself, or [null] ([None]) for
    [NaN]. *)
Definition json_number (n : jsnum) : option Z :=
  match n with
  | Num z => Some z
  | NaN => None
  end.

End Js.

Import Js.

(** ** Data model shared by the two classes *)

Module Model.

(** An entry of [snapshot.processes]: the [pid] and the other own
    properties of the entry, which are passed through to the node. *)
Record Process := {
  pid : Z;
  proc_extra : JsObj jsval
}.

(** The own properties of a process entry. *)
Definition process_fields (process : Process) : JsObj jsval :=
  ("pid"%string, VNum (Num (pid process))) :: proc_extra process.

(** A value of [snapshot.resources]. *)
Record Resource := {
  total : Z;
  res_extra : JsObj jsval
}.

Definition resource_fields (resource : Resource) : JsObj jsval :=
  ("total"%string, VNum (Num (total resource))) :: res_extra resource.

Record Snapshot := {
  processes : list Process;
  resources : JsObj Resource;
  allocation : JsObj Z;
  request : JsObj Z
}.

(** A wait-for adjacency: process id (as property key) to the process
    ids it waits for. *)
Abbreviation WFG := (list (string * list jsnum)) (only parsing).

(** The [type] of a link. *)
Inductive LinkType :=
| allocation_link
| request_link
| wait_for_link.

Global Instance LinkType_eq_dec : EqDecision LinkType.
Proof. solve_decision. Defined.

(** A link object; [link_weight] is absent on wait-for links. *)
Record Link := {
  link_source : string;
  link_target : string;
  link_type : LinkType;
  link_weight : option Z;
  link_id : string
}.

(** A node is an object: its fields depend on the pass-through
    properties of the entry it was built from. *)
Abbreviation Node := (list (string * jsval)) (only parsing).

Definition node_id (node : Node) : option jsval := obj_get "id" node.
Definition node_type (node : Node) : option jsval := obj_get "type" node.

Record Graph := {
  nodes : list Node;
  links : list Link
}.

(** The key that the force layout uses to resolve a link end: the node
    whose [id] is that string. *)
Definition resolves_to (nodes : list Node) (end_id : string) (node : Node) : Prop :=
  node ∈ nodes ∧ node_id node = Some (VStr end_id).

End Model.

Import Model.

(** ** [GraphVisualization]: the graph builders and the hover handler *)

Module GraphVisualization.

(** [const [pidStr, rid] = key.split('_')]: the first two pieces; a
    missing piece is [undefined]. *)
Definition split_key (key : string) : option string * option string :=
  let pieces := split "_" key in
  (pieces !! 0%nat, pieces !! 1%nat).

Definition process_node (process : Process) : Node :=
  spread (process_fields process)
    [ ("id", VStr ("P" +:+ pretty (pid process)));
      ("name", VStr ("P" +:+ pretty (pid process)));
      ("type", VStr "process");
      ("pid", VNum (Num (pid process))) ]%string.

Definition resource_node (entry : string * Resource) : Node :=
  let '(rid, resource) := entry in
  spread (resource_fields resource)
    [ ("id", VStr ("R" +:+ rid));
      ("name", VStr ("R" +:+ rid));
      ("type", VStr "resource");
      ("rid", VStr rid);
      ("total", VNum (Num (total resource))) ]%string.

Definition allocation_edge (key : string) (count : Z) : Link :=
  let '(pidStr, rid) := split_key key in
  {| link_source := "P" +:+ str_to_string pidStr;
     link_target := "R" +:+ str_to_string rid;
     link_type := allocation_link;
     link_weight := Some count;
     link_id := "alloc_" +:+ key |}.

Definition request_edge (key : string) (count : Z) : Link :=
  let '(pidStr, rid) := split_key key in
  {| link_source := "R" +:+ str_to_string rid;
     link_target := "P" +:+ str_to_string pidStr;
     link_type := request_link;
     link_weight := Some count;
     link_id := "req_" +:+ key |}.

Definition buildRAGGraph (snapshot : Snapshot) : Graph :=
  let nodes := [] in
  let links := [] in
  (* Add process nodes *)
  let nodes :=
    forEach (processes snapshot)
      (λ process nodes, push (process_node process) nodes) nodes in
  (* Add resource nodes *)
  let nodes :=
    forEach (own_entries (resources snapshot))
      (λ entry nodes, push (resource_node entry) nodes) nodes in
  (* Add allocation edges *)
  let links :=
    forEach (own_entries (allocation snapshot))
      (λ '(key, count) links,
         if 0 <? count then push (allocation_edge key count) links
         else links) links in
  (* Add request edges *)
  let links :=
    forEach (own_entries (request snapshot))
      (λ '(key, count) links,
         if 0 <? count then push (request_edge key count) links
         else links) links in
  {| nodes := nodes; links := links |}.

Definition wfg_node (cycleNodes : JsSet jsnum) (pid : jsnum) : Node :=
  [ ("id", VStr ("P" +:+ num_to_string pid));
    ("name", VStr ("P" +:+ num_to_string pid));
    ("type", VStr "process");
    ("pid", VNum pid);
    ("inCycle", VBool (set_has pid cycleNodes)) ]%string.

Definition wfg_edge (srcPid : string) (targetPid : jsnum) : Link :=
  {| link_source := "P" +:+ srcPid;
     link_target := "P" +:+ num_to_string targetPid;
     link_type := wait_for_link;
     link_weight := None;
     link_id := "wfg_" +:+ srcPid +:+ "_" +:+ num_to_string targetPid |}.

(** [wfg[pid]] for a key taken from [Object.keys(wfg)]. *)
Definition targets_of (wfg : WFG) (pid : string) : list jsnum :=
  default [] (obj_get pid wfg).

Definition buildWFGGraph (wfg : WFG) (cycles : list (list Z)) : Graph :=
  (* Collect all cycle nodes *)
  let cycleNodes : JsSet jsnum :=
    forEach cycles
      (λ cycle cycleNodes,
         forEach cycle (λ pid cycleNodes, set_add (Num pid) cycleNodes)
           cycleNodes) [] in
  (* Add process nodes *)
  let allPids : JsSet jsnum :=
    forEach (own_keys wfg)
      (λ pid allPids,
         let allPids := set_add (parseInt pid) allPids in
         forEach (targets_of wfg pid)
           (λ targetPid allPids, set_add targetPid allPids) allPids) [] in
  let nodes :=
    forEach allPids (λ pid nodes, push (wfg_node cycleNodes pid) nodes) [] in
  (* Add wait-for edges *)
  let links :=
    forEach (own_entries wfg)
      (λ '(srcPid, targets) links,
         forEach targets
           (λ targetPid links, push (wfg_edge srcPid targetPid) links)
           links) [] in
  {| nodes := nodes; links := links |}.

(** The two collections that the hover handler fills. *)
Record Hover := {
  connectedNodes : JsSet string;
  connectedLinks : list Link
}.

(** The first half of the [mouseover] handler of [renderGraph]: the
    nodes and links that stay at full opacity when the node [d] is hovered;
    [d_id] is [d.id].  By then the force layout has replaced [source] and
    [target] of every link by the node objects they name, so
    [link.source.id] is the [id] of the resolved node, which is the string
    the link was built with.  The second half only sets opacities. *)
Definition mouseover (links : list Link) (d_id : string) : Hover :=
  forEach links
    (λ link st,
       if bool_decide (link_source link = d_id)
          || bool_decide (link_target link = d_id)
       then {| connectedLinks := push link (connectedLinks st);
               connectedNodes :=
                 set_add (link_target link)
                   (set_add (link_source link) (connectedNodes st)) |}
       else st)
    {| connectedNodes := []; connectedLinks := [] |}.

(** The ids of the links that are highlighted. *)
Definition highlighted_links (h : Hover) : list string :=
  link_id <$> connectedLinks h.

End GraphVisualization.

Import GraphVisualization.

(** ** [DeadlockApp]: fallback wait-for derivation, capture, comparison *)

Module DeadlockApp.

(** [const [pidStr, rid] = key.split('_'); const pid = parseInt(pidStr)]. *)
Definition parse_key (key : string) : jsnum * option string :=
  let '(pidStr, rid) := split_key key in
  (parseInt (str_to_string pidStr), rid).

(** The inner loop of [buildWFGFromSnapshot]: the holders that block a
    request of [pid] for [rid]. *)
Definition find_blockers (allocations : JsObj Z) (pid : jsnum)
    (rid : option string) : list jsnum :=
  forEach (own_entries allocations)
    (λ '(allocKey, alloc) blockers,
       let '(allocPid, allocRid) := parse_key allocKey in
       if strict_eq_str allocRid rid && (0 <? alloc) && strict_neq allocPid pid
       then push allocPid blockers
       else blockers) [].

(** [buildWFGFromSnapshot], for a loaded [currentSnapshot] (the method
    returns at once when there is none): the object that it stores in
    [currentWFG]. *)
Definition buildWFGFromSnapshot (currentSnapshot : Snapshot) : WFG :=
  let requests := request currentSnapshot in
  let allocations := allocation currentSnapshot in
  forEach (own_entries requests)
    (λ '(key, need) edges,
       if need <=? 0 then edges
       else
         let '(pid, rid) := parse_key key in
         let blockers := find_blockers allocations pid rid in
         if (0 <? length blockers)%nat then
           let edges :=
             match obj_get (num_to_string pid) edges with
             | None => obj_set (num_to_string pid) [] edges
             | Some _ => edges
             end in
           obj_set (num_to_string pid)
             (targets_of edges (num_to_string pid) ++ blockers) edges
         else edges) [].

(** *** Heap of the host page

    [saveSnapshot] copies object graphs, so references are explicit here.
    A value that came out of [JSON.parse] is a tree that nothing else
    points into; such a tree sits in one cell, and a mutation anywhere
    inside it is a store to that cell.  The cycle list is an array of
    arrays and keeps one cell for the outer array and one per cycle. *)

Abbreviation loc := nat (only parsing).

(** A wait-for adjacency that came out of [JSON.parse]: a target is a
    number or [null]. *)
Abbreviation JsonWFG := (list (string * list (option Z))) (only parsing).

Inductive cell :=
| CSnapshot (snapshot : Snapshot)
| CWfg (wfg : WFG)
| CJsonWfg (wfg : JsonWFG)
| CCycles (cycles : list loc)
| CCycle (cycle : list Z).

Abbreviation heap := (list cell) (only parsing).

(** A fresh cell. *)
Definition alloc (c : cell) (h : heap) : loc * heap := (length h, h ++ [c]).

(** A store to an existing cell. *)
Definition store (l : loc) (c : cell) (h : heap) : heap := <[l := c]> h.

(** [JSON.parse(JSON.stringify(snapshot))]: the pids, totals and counts
    are numbers and come back as they were; in the pass-through fields a
    [NaN] comes back as [null]. *)
Definition json_snapshot (s : Snapshot) : Snapshot :=
  {| processes :=
       (λ p, {| pid := pid p; proc_extra := json_fields (proc_extra p) |})
         <$> processes s;
     resources :=
       (λ e : string * Resource,
          (e.1, {| total := total e.2;
                   res_extra := json_fields (res_extra e.2) |}))
         <$> resources s;
     allocation := allocation s;
     request := request s |}.

(** [JSON.parse(JSON.stringify(wfg))]: a target that is [NaN], as the
    fallback derivation produces for a key whose pid part is not a number,
    comes back as [null]. *)
Definition json_wfg (w : WFG) : JsonWFG :=
  (λ kt : string * list jsnum, (kt.1, json_number <$> kt.2)) <$> w.

(** A parsed adjacency read as an adjacency of numbers; there is none
    when a target is [null]. *)
Definition wfg_of_json (w : JsonWFG) : option WFG :=
  mapM (λ kt : string * list (option Z),
          (λ ts, (kt.1, ts)) <$> mapM (fmap Num) kt.2) w.

(** [JSON.parse(JSON.stringify(x))] on the tree in cell [l]: a new tree
    with the content that the round trip through JSON text leaves. *)
Definition json_clone (l : loc) (h : heap) : option (loc * heap) :=
  match h !! l with
  | Some (CSnapshot s) => Some (alloc (CSnapshot (json_snapshot s)) h)
  | Some (CWfg w) => Some (alloc (CJsonWfg (json_wfg w)) h)
  | Some (CJsonWfg w) => Some (alloc (CJsonWfg w) h)
  | _ => None
  end.

(** [[...arr]] on the array of cycles in cell [l]: a new outer array
    with the same elements, which are references. *)
Definition spread_array (l : loc) (h : heap) : option (loc * heap) :=
  match h !! l with
  | Some (CCycles cs) => Some (alloc (CCycles cs) h)
  | _ => None
  end.

Record SavedSnapshot := {
  saved_id : Z;
  name : string;
  timestamp : string;
  data : loc;
  cycles : loc;
  wfg : option loc
}.

(** The fields of [DeadlockApp] that the capture reads and writes;
    [None] is [null]. *)
Record App := {
  currentSnapshot : option loc;
  currentWFG : option loc;
  currentCycles : option loc;
  savedSnapshots : list SavedSnapshot
}.

(** [saveSnapshot()]; [now] is [Date.now()] and [iso] is
    [new Date().toISOString()].  The toast and the refresh of the two
    drop-down lists are left out.  The result is [None] only on a heap in
    which a field points to a cell of the wrong kind. *)
Definition saveSnapshot (now : Z) (iso : string) (app : App) (h : heap)
    : option (App * heap) :=
  match currentSnapshot app with
  | None => Some (app, h)
  | Some snapshot_loc =>
      let timestamp := iso in
      let name :=
        "Snapshot " +:+ pretty (Z.of_nat (length (savedSnapshots app)) + 1) in
      '(data, h) ← json_clone snapshot_loc h;
      '(cycles, h) ←
        match currentCycles app with
        | Some cycles_loc => spread_array cycles_loc h
        | None => Some (alloc (CCycles []) h)
        end;
      '(wfg, h) ←
        match currentWFG app with
        | Some wfg_loc => prod_map Some id <$> json_clone wfg_loc h
        | None => Some (None, h)
        end;
      let savedSnapshot :=
        {| saved_id := now; name := name; timestamp := timestamp;
           data := data; cycles := cycles; wfg := wfg |} in
      Some ({| currentSnapshot := currentSnapshot app;
               currentWFG := currentWFG app;
               currentCycles := currentCycles app;
               savedSnapshots := push savedSnapshot (savedSnapshots app) |}, h)
  end.

(** What a saved snapshot denotes in a heap: the values reached through
    its references. *)
Record SavedView := {
  view_data : Snapshot;
  view_cycles : list (list Z);
  view_wfg : option WFG
}.

Definition read_snapshot (l : loc) (h : heap) : option Snapshot :=
  match h !! l with Some (CSnapshot s) => Some s | _ => None end.

Definition read_wfg (l : loc) (h : heap) : option WFG :=
  match h !! l with
  | Some (CWfg w) => Some w
  | Some (CJsonWfg w) => wfg_of_json w
  | _ => None
  end.

Definition read_cycle (h : heap) (l : loc) : option (list Z) :=
  match h !! l with Some (CCycle c) => Some c | _ => None end.

Definition read_cycles (l : loc) (h : heap) : option (list (list Z)) :=
  match h !! l with
  | Some (CCycles cs) => mapM (read_cycle h) cs
  | _ => None
  end.

Definition read_saved (s : SavedSnapshot) (h : heap) : option SavedView :=
  d ← read_snapshot (data s) h;
  cs ← read_cycles (cycles s) h;
  w ← match wfg s with
      | Some l => Some <$> read_wfg l h
      | None => Some None
      end;
  Some {| view_data := d; view_cycles := cs; view_wfg := w |}.

(** *** Comparison of two saved snapshots *)

(** The [type] of a difference entry (its style class). *)
Inductive DiffType :=
| added
| removed
| changed.

Global Instance DiffType_eq_dec : EqDecision DiffType.
Proof. solve_decision. Defined.

Record Difference := {
  diff_type : DiffType;
  icon : string;
  text : string
}.

(** [displayDifferences(snapshotA, snapshotB)]: the [differences] array
    that the method renders. *)
Definition displayDifferences (snapshotA snapshotB : SavedView)
    : list Difference :=
  let differences := [] in
  (* Compare processes *)
  let processesA := set_of_list (pid <$> processes (view_data snapshotA)) in
  let processesB := set_of_list (pid <$> processes (view_data snapshotB)) in
  let differences :=
    forEach processesB
      (λ pid differences,
         if negb (set_has pid processesA) then
           push {| diff_type := added;
                   icon := "fas fa-plus-circle";
                   text := "Process P" +:+ pretty pid +:+ " was added" |}
             differences
         else differences) differences in
  let differences :=
    forEach processesA
      (λ pid differences,
         if negb (set_has pid processesB) then
           push {| diff_type := removed;
                   icon := "fas fa-minus-circle";
                   text := "Process P" +:+ pretty pid +:+ " was removed" |}
             differences
         else differences) differences in
  (* Compare cycles *)
  let cyclesA := Z.of_nat (length (view_cycles snapshotA)) in
  let cyclesB := Z.of_nat (length (view_cycles snapshotB)) in
  let differences :=
    if negb (bool_decide (cyclesA = cyclesB)) then
      let change := cyclesB - cyclesA in
      push {| diff_type := if 0 <? change then removed else added;
              icon := if 0 <? change then "fas fa-exclamation-triangle"
                      else "fas fa-check-circle";
              text := "Deadlock cycles changed from " +:+ pretty cyclesA
                      +:+ " to " +:+ pretty cyclesB +:+ " ("
                      +:+ (if 0 <? change then "+" else "")
                      +:+ pretty change +:+ ")" |}
        differences
    else differences in
  (* Compare allocations *)
  let allocA := Z.of_nat (length (own_keys (allocation (view_data snapshotA)))) in
  let allocB := Z.of_nat (length (own_keys (allocation (view_data snapshotB)))) in
  let differences :=
    if negb (bool_decide (allocA = allocB)) then
      push {| diff_type := changed;
              icon := "fas fa-exchange-alt";
              text := "Resource allocations changed from " +:+ pretty allocA
                      +:+ " to " +:+ pretty allocB |}
        differences
    else differences in
  (* Compare requests *)
  let reqA := Z.of_nat (length (own_keys (request (view_data snapshotA)))) in
  let reqB := Z.of_nat (length (own_keys (request (view_data snapshotB)))) in
  let differences :=
    if negb (bool_decide (reqA = reqB)) then
      push {| diff_type := changed;
              icon := "fas fa-exchange-alt";
              text := "Resource requests changed from " +:+ pretty reqA
                      +:+ " to " +:+ pretty reqB |}
        differences
    else differences in
  differences.

End DeadlockApp.

Import DeadlockApp.

(** ** Vocabulary of the stated properties *)

Module Props.

(** An object has each key once. *)
Definition wf_obj {V} (o : JsObj V) : Prop := NoDup o.*1.

(** The part of [s] before the first separator (all of [s] when there is
    none). *)
Fixpoint first_segment (sep : ascii) (s : string) : string :=
  match s with
  | EmptyString => EmptyString
  | String c s' =>
      if decide (c = sep) then EmptyString
      else String c (first_segment sep s')
  end.

(** [sep] occurs in [s]. *)
Fixpoint contains (sep : ascii) (s : string) : bool :=
  match s with
  | EmptyString => false
  | String c s' => bool_decide (c = sep) || contains sep s'
  end.

(** *** The key scheme, in the words of the specification *)

(** The integers that a number holds exactly
    ([Number.isSafeInteger]). *)
Definition safe_integer (z : Z) : Prop := - 2 ^ 53 < z < 2 ^ 53.

(** The composite key of process [pid] and resource [rid]: the decimal
    form of the pid, an underscore, the resource id.  The pid ends at the
    first underscore; the resource id is all that follows it. *)
Definition composite_key (pid : Z) (rid : string) : string :=
  pretty pid +:+ "_" +:+ rid.

(** [key] is the composite key of [pid] and [rid], and the pid is a safe
    integer. *)
Definition key_format (key : string) (pid : Z) (rid : string) : Prop :=
  safe_integer pid ∧ key = composite_key pid rid.

(** The resource id holds no underscore. *)
Definition plain (rid : string) : Prop := contains "_" rid = false.

(** Every request key with a positive count is a composite key. *)
Definition requests_in_format (s : Snapshot) : Prop :=
  ∀ key need, (key, need) ∈ request s → 0 < need →
    ∃ pid rid, key_format key pid rid.

(** Every allocation and request key with a positive count is the
    composite key of a resource id without underscore. *)
Definition plainly_keyed (s : Snapshot) : Prop :=
  ∀ key count,
    (key, count) ∈ allocation s ∨ (key, count) ∈ request s → 0 < count →
    ∃ pid rid, key_format key pid rid ∧ plain rid.

(** [key] is the composite key of a listed process and of a listed
    resource whose id holds no underscore. *)
Definition key_refers (s : Snapshot) (key : string) : Prop :=
  ∃ p rid r,
    p ∈ processes s ∧ (rid, r) ∈ resources s
    ∧ key_format key (pid p) rid ∧ plain rid.

(** Every key with a positive count refers to a listed process and a
    listed resource. *)
Definition referentially_closed (s : Snapshot) : Prop :=
  ∀ key count,
    (key, count) ∈ allocation s ∨ (key, count) ∈ request s →
    0 < count → key_refers s key.

(** The key of an adjacency is the decimal form of a safe integer, as
    the keys of a detection result are. *)
Definition decimal_key (k : string) : Prop :=
  ∃ z, safe_integer z ∧ k = pretty z.

(** The blocking rule of the specification: [pid] requests, with a
    positive count, a resource of which another process [holder] holds a
    positive count. *)
Definition blocker (s : Snapshot) (pid holder : Z) : Prop :=
  ∃ rid need alloc,
    (composite_key pid rid, need) ∈ request s ∧ 0 < need
    ∧ (composite_key holder rid, alloc) ∈ allocation s ∧ 0 < alloc
    ∧ holder ≠ pid.

(** *** What the code reads from a key *)

(** A key that is the decimal form (or [NaN]) of the number it parses
    to. *)
Definition canonical_key (k : string) : Prop := num_to_string (parseInt k) = k.

(** Every link end names a node of the graph. *)
Definition links_resolve (g : Graph) : Prop :=
  ∀ l, l ∈ links g →
    (∃ n, resolves_to (nodes g) (link_source l) n)
    ∧ (∃ n, resolves_to (nodes g) (link_target l) n).

(** No two nodes of the graph share an [id]. *)
Definition unique_node_ids (g : Graph) : Prop := NoDup (node_id <$> nodes g).

(** No process or resource entry has a pass-through property [field]. *)
Definition no_passthrough (field : string) (s : Snapshot) : Prop :=
  (∀ p, p ∈ processes s → obj_get field (proc_extra p) = None)
  ∧ (∀ rid r, (rid, r) ∈ resources s → obj_get field (res_extra r) = None).

(** The two pieces that the builders cut from the key are the decimal
    form of the pid of a listed process and the id of a listed resource. *)
Definition pieces_listed (s : Snapshot) (key : string) : Prop :=
  ∃ p rid r,
    p ∈ processes s ∧ (rid, r) ∈ resources s
    ∧ split_key key = (Some (pretty (pid p)), Some rid).

Definition pieces_closed (s : Snapshot) : Prop :=
  ∀ key count,
    (key, count) ∈ allocation s ∨ (key, count) ∈ request s →
    0 < count → pieces_listed s key.

(** The wait-for adjacency holds an edge from [src] to [target]. *)
Definition waits_for (w : WFG) (src target : jsnum) : Prop :=
  ∃ targets, obj_get (num_to_string src) w = Some targets ∧ target ∈ targets.

(** What the two loops of [buildWFGFromSnapshot] test, with both keys
    read by [parse_key]: a request with a positive count whose key parses
    to [src] and some second piece, and an allocation with a positive count
    whose key parses to [holder] and the same second piece, [holder]
    strictly different from [src]. *)
Definition found_blocker (s : Snapshot) (src holder : jsnum) : Prop :=
  ∃ key need rid allocKey alloc,
    (key, need) ∈ request s ∧ 0 < need ∧ parse_key key = (src, rid)
    ∧ (allocKey, alloc) ∈ allocation s ∧ 0 < alloc
    ∧ parse_key allocKey = (holder, rid)
    ∧ strict_neq holder src = true.

(** The blockers that the requests [reqs] contribute under property key
    [k], in request order. *)
Definition blockers_under (allocations : JsObj Z) (k : string)
    (reqs : list (string * Z)) : list jsnum :=
  reqs ≫= λ '(key, need),
    if need <=? 0 then []
    else
      let '(pid, rid) := parse_key key in
      if decide (num_to_string pid = k) then find_blockers allocations pid rid
      else [].

(** A link touches the node [d_id]. *)
Definition incident (d_id : string) (l : Link) : Prop :=
  link_source l = d_id ∨ link_target l = d_id.

Global Instance incident_dec d_id l : Decision (incident d_id l).
Proof. unfold incident. apply _. Defined.

(** *** Sections of a comparison, in the words of the specification *)

Definition pids_of (v : SavedView) : list Z := pid <$> processes (view_data v).

Definition added_entry (pid : Z) : Difference :=
  {| diff_type := added; icon := "fas fa-plus-circle";
     text := "Process P" +:+ pretty pid +:+ " was added" |}.

Definition removed_entry (pid : Z) : Difference :=
  {| diff_type := removed; icon := "fas fa-minus-circle";
     text := "Process P" +:+ pretty pid +:+ " was removed" |}.

(** One [added] entry for every pid of B's process set that A's lacks. *)
Definition process_additions (a b : SavedView) : list Difference :=
  added_entry <$> filter (λ pid, pid ∉ pids_of a) (set_of_list (pids_of b)).

(** One [removed] entry for every pid of A's process set that B's lacks. *)
Definition process_removals (a b : SavedView) : list Difference :=
  removed_entry <$> filter (λ pid, pid ∉ pids_of b) (set_of_list (pids_of a)).

Definition cycle_count (v : SavedView) : Z := Z.of_nat (length (view_cycles v)).

Definition allocation_count (v : SavedView) : Z :=
  Z.of_nat (length (allocation (view_data v))).

Definition request_count (v : SavedView) : Z :=
  Z.of_nat (length (request (view_data v))).

(** The entry for a change of the cycle count from [old] to [new], as
    the code classifies it. *)
Definition cycle_entry (old new : Z) : Difference :=
  let delta := new - old in
  {| diff_type := if 0 <? delta then removed else added;
     icon := if 0 <? delta then "fas fa-exclamation-triangle"
             else "fas fa-check-circle";
     text := "Deadlock cycles changed from " +:+ pretty old +:+ " to "
             +:+ pretty new +:+ " (" +:+ (if 0 <? delta then "+" else "")
             +:+ pretty delta +:+ ")" |}.

Definition cycle_change (a b : SavedView) : list Difference :=
  if decide (cycle_count a = cycle_count b) then []
  else [cycle_entry (cycle_count a) (cycle_count b)].

Definition count_entry (what : string) (old new : Z) : Difference :=
  {| diff_type := changed; icon := "fas fa-exchange-alt";
     text := "Resource " +:+ what +:+ " changed from " +:+ pretty old
             +:+ " to " +:+ pretty new |}.

Definition allocation_change (a b : SavedView) : list Difference :=
  if decide (allocation_count a = allocation_count b) then []
  else [count_entry "allocations" (allocation_count a) (allocation_count b)].

Definition request_change (a b : SavedView) : list Difference :=
  if decide (request_count a = request_count b) then []
  else [count_entry "requests" (request_count a) (request_count b)].

(** The entry that reports the cycle count, told by its icon. *)
Definition is_cycle_entry (d : Difference) : Prop :=
  icon d = "fas fa-exclamation-triangle"%string
  ∨ icon d = "fas fa-check-circle"%string.

Global Instance is_cycle_entry_dec d : Decision (is_cycle_entry d).
Proof. unfold is_cycle_entry. apply _. Defined.

(** *** The live state

    The cells that a later update of the live state can store to: the
    current snapshot, the current wait-for graph, the outer array of the
    current cycles and each of its cycle arrays. *)
Definition live (app : App) (h : heap) (l : loc) : Prop :=
  currentSnapshot app = Some l
  ∨ currentWFG app = Some l
  ∨ currentCycles app = Some l
  ∨ ∃ cl cs, currentCycles app = Some cl ∧ h !! cl = Some (CCycles cs)
             ∧ l ∈ cs.

End Props.

Import Props.

(** ** Sample inputs *)

Module Samples.

Definition proc (n : Z) : Process := {| pid := n; proc_extra := [] |}.

Definition res (n : Z) : Resource := {| total := n; res_extra := [] |}.

Definition view (pids : list Z) (cycles : list (list Z)) : SavedView :=
  {| view_data := {| processes := proc <$> pids; resources := [];
                     allocation := []; request := [] |};
     view_cycles := cycles;
     view_wfg := None |}.

(** A deadlocked pair and the state after the deadlock is gone. *)
Definition deadlocked : SavedView := view [1; 2] [[1; 2]].
Definition recovered : SavedView := view [1; 2] [].

(** Process sets [1, 2] and [2, 3]. *)
Definition view_12 : SavedView := view [1; 2] [].
Definition view_23 : SavedView := view [2; 3] [].

(** The chain [P1 -alloc-> R1 -req-> P2], with a process 3 that no
    edge touches. *)
Definition chain_snapshot : Snapshot :=
  {| processes := [proc 1; proc 2; proc 3];
     resources := [("1"%string, res 1)];
     allocation := [("1_1"%string, 1)];
     request := [("2_1"%string, 1)] |}.

Definition chain : Graph := buildRAGGraph chain_snapshot.

(** Process 1 requests resource A, which process 2 holds. *)
Definition blocking_snapshot : Snapshot :=
  {| processes := [proc 1; proc 2];
     resources := [("A"%string, res 1)];
     allocation := [("2_A"%string, 1)];
     request := [("1_A"%string, 1)] |}.

(** Process 1 requests resource A, which it holds itself. *)
Definition self_block_snapshot : Snapshot :=
  {| processes := [proc 1];
     resources := [("A"%string, res 2)];
     allocation := [("1_A"%string, 1)];
     request := [("1_A"%string, 1)] |}.

(** An allocation key with no separator. *)
Definition unseparated_snapshot : Snapshot :=
  {| processes := [proc 1];
     resources := [("A"%string, res 1)];
     allocation := [("1A"%string, 1)];
     request := [] |}.

(** A request key and an allocation key with no separator. *)
Definition unseparated_pair : Snapshot :=
  {| processes := [proc 1; proc 2];
     resources := [("A"%string, res 1); ("B"%string, res 1)];
     allocation := [("2B"%string, 1)];
     request := [("1A"%string, 1)] |}.

(** Resource ids that contain the separator. *)
Definition underscored_snapshot : Snapshot :=
  {| processes := [proc 1; proc 2];
     resources := [("A_B"%string, res 1); ("A_C"%string, res 1)];
     allocation := [("2_A_C"%string, 1)];
     request := [("1_A_B"%string, 1)] |}.

(** An allocation whose process and resource are not listed. *)
Definition dangling_snapshot : Snapshot :=
  {| processes := []; resources := [];
     allocation := [("1_A"%string, 1)]; request := [] |}.

(** The same pid listed twice. *)
Definition twin_snapshot : Snapshot :=
  {| processes := [proc 1; proc 1]; resources := [];
     allocation := []; request := [] |}.

(** An adjacency whose key is not in decimal form. *)
Definition padded_wfg : WFG := [("01"%string, [Num 2])].

(** The adjacency [{"1": [2], "2": [1]}] with the cycle [[1, 2]]. *)
Definition cyclic_wfg : WFG := [("1"%string, [Num 2]); ("2"%string, [Num 1])].

(** A process entry that carries its own [type] property. *)
Definition mislabelled_snapshot : Snapshot :=
  {| processes :=
       [ {| pid := 1;
            proc_extra := [("type"%string, VStr "resource")] |} ];
     resources := [("A"%string, res 1)];
     allocation := [("1_A"%string, 1)];
     request := [] |}.

(** A live state after a detection run: the snapshot in cell 0, the one
    cycle [[1, 2]] in cell 1, the array of cycles in cell 2 and the
    wait-for graph in cell 3. *)
Definition live_heap : list cell :=
  [CSnapshot blocking_snapshot; CCycle [1; 2]; CCycles [1%nat];
   CWfg cyclic_wfg].

Definition live_app : App :=
  {| currentSnapshot := Some 0%nat;
     currentWFG := Some 3%nat;
     currentCycles := Some 2%nat;
     savedSnapshots := [] |}.

(** A process entry that carries its own [id] property. *)
Definition renamed_snapshot : Snapshot :=
  {| processes :=
       [ {| pid := 1; proc_extra := [("id"%string, VStr "RA")] |} ];
     resources := [];
     allocation := [("2_A"%string, 1)];
     request := [] |}.

(** A listed process whose entry carries its own [id] property, with an
    allocation of a listed resource. *)
Definition aliased_snapshot : Snapshot :=
  {| processes :=
       [ {| pid := 1; proc_extra := [("id"%string, VStr "X")] |} ];
     resources := [("A"%string, res 1)];
     allocation := [("1_A"%string, 1)];
     request := [] |}.

(** Process 1 requests resource A, which process 2 holds; process 2
    requests resource B, which nobody holds. *)
Definition unblocked_holder_snapshot : Snapshot :=
  {| processes := [proc 1; proc 2];
     resources := [("A"%string, res 1); ("B"%string, res 1)];
     allocation := [("2_A"%string, 1)];
     request := [("1_A"%string, 1); ("2_B"%string, 1)] |}.

End Samples.

Import Samples.

(** ** [GraphVisualization]: styling, labels and highlighting *)

Module Rendering.

(** The truth value of a property read used as a condition; [None] is
    [undefined]. *)
Definition truthy (v : option jsval) : bool :=
  match v with
  | None => false
  | Some VNull => false
  | Some (VBool b) => b
  | Some (VNum (Num z)) => negb (z =? 0)
  | Some (VNum NaN) => false
  | Some (VStr s) => negb (bool_decide (s = ""%string))
  | Some (VArr _) => true
  | Some (VObj _) => true
  end.

(** [v === 'literal']. *)
Definition is_string (v : option jsval) (literal : string) : bool :=
  match v with
  | Some (VStr s) => bool_decide (s = literal)
  | _ => false
  end.

Definition getNodeColor (node : Node) : string :=
  if truthy (obj_get "inCycle" node) then "#ef4444"
  else if is_string (obj_get "type" node) "process" then "#2563eb"
  else if is_string (obj_get "type" node) "resource" then "#10b981"
  else "#64748b".

Definition getNodeStrokeColor (node : Node) : string :=
  if truthy (obj_get "inCycle" node) then "#dc2626" else "white".

Definition getNodeRadius (node : Node) : Z :=
  if is_string (obj_get "type" node) "resource" then 25 else 30.

Definition getEdgeColor (type : LinkType) : string :=
  match type with
  | allocation_link => "#1f2937"
  | request_link => "#ef4444"
  | wait_for_link => "#64748b"
  end.




(** The second half of the [mouseover] handler: after everything is
    dimmed, the lines that [link.filter(d => d.id === linkData.id)] sets
    back to full opacity, over all [linkData] of [connectedLinks]. *)
Definition full_opacity_links (links : list Link) (h : Hover) : list Link :=
  filter (λ d, link_id d ∈ highlighted_links h) links.

(** What [renderGraph] does first, after it has emptied the three
    groups: [d3.forceLink(links).id(d => d.id)] looks up both ends of every
    link among the nodes by [id] and throws at an end that is the [id] of
    no node.  Nothing has been drawn by then. *)
Definition has_id (end_id : string) (node : Node) : bool :=
  match node_id node with
  | Some (VStr s) => bool_decide (s = end_id)
  | _ => false
  end.

Definition forceLink (graph : Graph) : bool :=
  forallb
    (λ l, existsb (has_id (link_source l)) (nodes graph)
          && existsb (has_id (link_target l)) (nodes graph))
    (links graph).

(** [renderGraph(graph, graphType)]: what the three groups hold
    afterwards, the graph or, after the exception, nothing ([None]). *)
Definition renderGraph (graph : Graph) : option Graph :=
  if forceLink graph then Some graph else None.

End Rendering.

Import Rendering.

(** ** [DeadlockApp]: the rest of the controller *)

Module Controller.

(** [arr.find(test)]. *)
Fixpoint array_find {A} (test : A → bool) (arr : list A) : option A :=
  match arr with
  | [] => None
  | x :: arr' => if test x then Some x else array_find test arr'
  end.

(** The lookup of [loadComparisonSnapshot(side, snapshotId)]:
    [snapshotId] is the value of the chosen option, a string; an empty
    value returns at once.  [loose_eq id snapshotId] stands for
    [s.id == snapshotId] between a number and a string, a comparison of the
    number with the numeric value of the string. *)
Definition loadComparisonSnapshot (loose_eq : Z → string → bool)
    (savedSnapshots : list SavedSnapshot) (snapshotId : string)
    : option SavedSnapshot :=
  if bool_decide (snapshotId = ""%string) then None
  else array_find (λ s, loose_eq (saved_id s) snapshotId) savedSnapshots.

(** [updateComparisonDropdowns()]: the values of the options of each of
    the two selectors, the placeholder first; [option.value = snapshot.id]
    stores the decimal form of the id. *)
Definition updateComparisonDropdowns (savedSnapshots : list SavedSnapshot)
    : list string :=
  forEach savedSnapshots
    (λ snapshot options, push (pretty (saved_id snapshot)) options)
    [""%string].

(** [openComparisonMode()]: whether the comparison dialog is shown (with
    fewer than two saved snapshots only a warning is shown). *)
Definition openComparisonMode (savedSnapshots : list SavedSnapshot) : bool :=
  negb (length savedSnapshots <? 2)%nat.

(** The figures that [displayComparisonStats(side, snapshot)] writes. *)
Record Stats := {
  numProcesses : Z;
  numResources : Z;
  numAllocations : Z;
  numRequests : Z;
  hasCycles : bool;
  deadlock_text : string
}.

(** [Object.values(o).reduce((sum, val) => sum + val, 0)]. *)
Definition sum_values (o : JsObj Z) : Z :=
  foldl (λ sum val, sum + val) 0 (snd <$> own_entries o).

Definition displayComparisonStats (snapshot : SavedView) : Stats :=
  let numProcesses := Z.of_nat (length (processes (view_data snapshot))) in
  let numResources :=
    Z.of_nat (length (own_keys (resources (view_data snapshot)))) in
  let numAllocations := sum_values (allocation (view_data snapshot)) in
  let numRequests := sum_values (request (view_data snapshot)) in
  let hasCycles := (0 <? length (view_cycles snapshot))%nat in
  {| numProcesses := numProcesses;
     numResources := numResources;
     numAllocations := numAllocations;
     numRequests := numRequests;
     hasCycles := hasCycles;
     deadlock_text :=
       if hasCycles
       then "Yes (" +:+ pretty (Z.of_nat (length (view_cycles snapshot)))
            +:+ " cycles)"
       else "No" |}.

(** A call that [refreshVisualization] makes on the graph view. *)
Inductive Render :=
| renderRAG (snapshot : Snapshot)
| renderWFG (wfg : WFG) (cycles : list (list Z)).

(** The graph that a call builds and hands to [renderGraph]. *)
Definition rendered (r : Render) : Graph :=
  match r with
  | renderRAG snapshot => buildRAGGraph snapshot
  | renderWFG wfg cycles => buildWFGGraph wfg cycles
  end.

(** The call ends in the exception of [renderGraph]. *)
Definition throws (r : Render) : bool := negb (forceLink (rendered r)).

(** [refreshVisualization()], with the graphics library loaded and the
    container present: [selectedMode] is the value of the checked view-mode
    radio button; the arguments are the values of [currentSnapshot],
    [currentWFG] ([None] is [null]) and [currentCycles] (an array).  The
    result is the new [currentWFG] and the calls made, in order.  The
    method catches nothing: a call that throws is the last one. *)
Definition refreshVisualization (selectedMode : string)
    (currentSnapshot : option Snapshot) (currentWFG : option WFG)
    (currentCycles : list (list Z)) : option WFG * list Render :=
  let '(currentWFG, calls) :=
    if bool_decide (selectedMode = "RAG"%string)
       && bool_decide (is_Some currentSnapshot)
    then (currentWFG,
          match currentSnapshot with
          | Some snapshot => [renderRAG snapshot]
          | None => []
          end)
    else if bool_decide (selectedMode = "WFG"%string) then
      match currentWFG with
      | Some wfg => (currentWFG, [renderWFG wfg currentCycles])
      | None =>
          match currentSnapshot with
          | Some snapshot =>
              (* Build WFG from current snapshot if not available *)
              let wfg := buildWFGFromSnapshot snapshot in
              (Some wfg, [renderWFG wfg currentCycles])
          | None => (currentWFG, [])
          end
      end
    else (currentWFG, []) in
  if existsb throws calls then (currentWFG, calls)
  else
    (* Fallback: if no graph is rendered, show RAG if we have snapshot data *)
    match currentSnapshot with
    | Some snapshot =>
        if bool_decide (selectedMode = "RAG"%string)
        then (currentWFG, push (renderRAG snapshot) calls)
        else (currentWFG, calls)
    | None => (currentWFG, calls)
    end.

(** What the graph view holds after some calls, given what it held
    before ([None]: nothing): every call empties it and then draws its
    graph or throws. *)
Definition screen (before : option Graph) (calls : list Render)
    : option Graph :=
  foldl (λ _ r, renderGraph (rendered r)) before calls.



(** The callbacks that the controller hands to [setInterval]. *)
Inductive Callback :=
| tick_runtime
| tick_memory
| tick_loadSystemSnapshot.

Global Instance Callback_eq_dec : EqDecision Callback.
Proof. solve_decision. Defined.

(** The repeating timers of the page: handle and callback.  Handles are
    positive; [setInterval] returns one not in use. *)
Definition setInterval (cb : Callback) (timers : list (Z * Callback))
    : Z * list (Z * Callback) :=
  let handle := 1 + foldr Z.max 0 (fst <$> timers) in
  (handle, timers ++ [(handle, cb)]).

Definition clearInterval (handle : Z) (timers : list (Z * Callback))
    : list (Z * Callback) :=
  filter (λ t, t.1 ≠ handle) timers.

(** [toggleAutoRefresh(enabled)] on the field [autoRefreshInterval]
    ([None] is [null]) and the timers of the page. *)
Definition toggleAutoRefresh (enabled : bool)
    (autoRefreshInterval : option Z) (timers : list (Z * Callback))
    : option Z * list (Z * Callback) :=
  let '(autoRefreshInterval, timers) :=
    match autoRefreshInterval with
    | Some handle =>
        if negb (handle =? 0) then (None, clearInterval handle timers)
        else (autoRefreshInterval, timers)
    | None => (autoRefreshInterval, timers)
    end in
  if enabled then
    let '(handle, timers) := setInterval tick_loadSystemSnapshot timers in
    (Some handle, timers)
  else (autoRefreshInterval, timers).

End Controller.

Import Controller.

(** ** [DeadlockApp]: the handlers that change what is drawn

    The fields [currentSnapshot], [currentWFG] and [currentCycles] with the
    checked view-mode radio button, and the handlers that write them, each
    on the path where the reply of the server has no [error] and has the
    shape the handler reads. *)

Module Session.

Record Page := {
  viewMode : string;
  page_snapshot : option Snapshot;
  page_wfg : option WFG;
  page_cycles : list (list Z)
}.

(** [this.refreshVisualization()] on the page. *)
Definition refresh (p : Page) : Page * list Render :=
  let '(wfg, calls) :=
    refreshVisualization (viewMode p) (page_snapshot p) (page_wfg p)
      (page_cycles p) in
  ({| viewMode := viewMode p; page_snapshot := page_snapshot p;
      page_wfg := wfg; page_cycles := page_cycles p |}, calls).

Inductive Event :=
| on_loaded (data : Snapshot)
| on_simulated (snapshot : option Snapshot)
| on_predicted
| on_detected (wfg : option WFG) (cycles : list (list Z))
| on_recovered (new_snapshot : option Snapshot)
| on_system_update (snapshot : option Snapshot) (cycles : list (list Z))
| on_mode_changed (value : string).

(** [switchViewMode()], once the radio button with [value] is checked. *)
Definition switchViewMode (value : string) (p : Page) : Page * list Render :=
  refresh {| viewMode := value; page_snapshot := page_snapshot p;
             page_wfg := page_wfg p; page_cycles := page_cycles p |}.

(** The handlers, up to their last write of a field and their last call
    on the graph view; an exception of [refresh] leaves the handler (the
    loaders, [predict], [detect] and [recover] catch it and show a toast),
    after which no field is written.  [on_loaded] is [loadDemoSnapshot],
    [loadSystemSnapshot]
    and [loadRealtimeSnapshot]; [on_simulated] is [loadSimulation];
    [on_predicted], [on_detected] and [on_recovered] are [predict], [detect]
    and [recover], which return at once when no snapshot is there;
    [on_system_update] is the socket handler of [startRealtimeMonitoring];
    [on_mode_changed] is the [change] listener of the view-mode radio
    buttons. *)
Definition step (e : Event) (p : Page) : Page * list Render :=
  match e with
  | on_loaded data =>
      refresh {| viewMode := viewMode p; page_snapshot := Some data;
                 page_wfg := page_wfg p; page_cycles := page_cycles p |}
  | on_simulated snapshot =>
      refresh {| viewMode := viewMode p; page_snapshot := snapshot;
                 page_wfg := page_wfg p; page_cycles := page_cycles p |}
  | on_predicted =>
      match page_snapshot p with
      | None => (p, [])
      | Some _ => refresh p
      end
  | on_detected wfg cycles =>
      match page_snapshot p with
      | None => (p, [])
      | Some _ =>
          let p := {| viewMode := viewMode p;
                      page_snapshot := page_snapshot p;
                      page_wfg := wfg; page_cycles := cycles |} in
          (* Switch to WFG view if not already *)
          if negb (bool_decide (viewMode p = "WFG"%string))
          then switchViewMode "WFG" p
          else (p, [])
      end
  | on_recovered new_snapshot =>
      match page_snapshot p with
      | None => (p, [])
      | Some _ =>
          refresh {| viewMode := viewMode p; page_snapshot := new_snapshot;
                     page_wfg := page_wfg p; page_cycles := page_cycles p |}
      end
  | on_system_update snapshot cycles =>
      refresh {| viewMode := viewMode p; page_snapshot := snapshot;
                 page_wfg := page_wfg p; page_cycles := cycles |}
  | on_mode_changed value => switchViewMode value p
  end.

(** A sequence of handlers, one after the other, with all the calls
    made. *)
Fixpoint run (events : list Event) (p : Page) : Page * list Render :=
  match events with
  | [] => (p, [])
  | e :: events =>
      let '(p, calls) := step e p in
      let '(p', calls') := run events p in
      (p', calls ++ calls')
  end.

End Session.

Import Session.

(** *** Vocabulary of the further properties *)

Module MoreProps.

(** Every field of the live state that is set points to a cell of its
    kind, and so does every element of the array of cycles. *)
Definition live_typed (app : App) (h : list cell) : Prop :=
  (∀ l, currentSnapshot app = Some l → is_Some (read_snapshot l h))
  ∧ (∀ l, currentWFG app = Some l → is_Some (read_wfg l h))
  ∧ (∀ l, currentCycles app = Some l → is_Some (read_cycles l h)).

(** The values of the live state: the snapshot, the cycles ([[]] when
    the field is not set) and the wait-for graph. *)
Definition live_view (app : App) (h : list cell) : option SavedView :=
  sl ← currentSnapshot app;
  d ← read_snapshot sl h;
  cs ← match currentCycles app with
       | Some cl => read_cycles cl h
       | None => Some []
       end;
  w ← match currentWFG app with
      | Some wl => Some <$> read_wfg wl h
      | None => Some None
      end;
  Some {| view_data := d; view_cycles := cs; view_wfg := w |}.

(** The saved snapshots carry the names [Snapshot 1], [Snapshot 2], ...
    in order. *)
Definition numbered (saved : list SavedSnapshot) : Prop :=
  ∀ i sv, saved !! i = Some sv →
    name sv = "Snapshot " +:+ pretty (Z.of_nat i + 1).

(** The number of running timers with the given callback. *)
Definition running (cb : Callback) (timers : list (Z * Callback)) : nat :=
  length (filter (λ t, t.2 = cb) timers).

(** The timers of the page are in order for the auto-refresh field:
    handles are positive and pairwise distinct, and the timers that reload
    the snapshot are the one the field holds, or none when it is [null]. *)
Definition auto_refresh_ok (autoRefreshInterval : option Z)
    (timers : list (Z * Callback)) : Prop :=
  NoDup (fst <$> timers)
  ∧ (∀ t, t ∈ timers → 0 < t.1)
  ∧ filter (λ t, t.2 = tick_loadSystemSnapshot) timers
    = match autoRefreshInterval with
      | Some handle => [(handle, tick_loadSystemSnapshot)]
      | None => []
      end.

(** The timers that [startRuntimeCounter] starts on a fresh page. *)
Definition startRuntimeCounter (timers : list (Z * Callback))
    : list (Z * Callback) :=
  (setInterval tick_memory (setInterval tick_runtime timers).2).2.

(** Every listed pid is a safe integer. *)
Definition safe_pids (s : Snapshot) : Prop :=
  ∀ p, p ∈ processes s → safe_integer (pid p).


(** No handler of the sequence is a reply of the detection. *)
Definition no_detection (events : list Event) : Prop :=
  ∀ wfg cycles, on_detected wfg cycles ∉ events.

(** The wait-for graphs that the calls draw. *)
Definition drawn_wfgs (calls : list Render) : list WFG :=
  omap (λ r, match r with
             | renderWFG wfg _ => Some wfg
             | renderRAG _ => None
             end) calls.

(** The total weight of the links of one type. *)
Definition total_weight (type : LinkType) (links : list Link) : Z :=
  foldr Z.add 0
    (omap link_weight (filter (λ l, link_type l = type) links)).

(** The sample state after one capture at time 1, and after a second
    capture at time 2. *)
Definition once_saved : option (App * list cell) :=
  saveSnapshot 1 "t1" live_app live_heap.

Definition twice_saved : option (App * list cell) :=
  '(app, h) ← once_saved; saveSnapshot 2 "t2" app h.

End MoreProps.

Import MoreProps.
Section number_strings.

Lemma digit_value_pretty_char d :
  (d < 10)%N → digit_value 10 (pretty_N_char d) = Some d.
Proof.
  intros Hd.
  assert (d = 0 ∨ d = 1 ∨ d = 2 ∨ d = 3 ∨ d = 4 ∨ d = 5 ∨ d = 6 ∨ d = 7
          ∨ d = 8 ∨ d = 9)%N as Hcases by lia.
  repeat (destruct Hcases as [-> | Hcases]; [reflexivity |]).
  subst d. reflexivity.
Qed.

Lemma digit_prefix_pretty_go x s :
  (0 < x)%N →
  foldl (λ acc d, 10 * acc + d)%N 0%N (digit_prefix 10 (pretty_N_go x s))
  = foldl (λ acc d, 10 * acc + d)%N x (digit_prefix 10 s).
Proof.
  revert s. induction (N.lt_wf_0 x) as [x _ IH]. intros s Hx.
  rewrite pretty_N_go_step by done.
  assert (x `mod` 10 < 10)%N as Hm by (apply N.mod_lt; lia).
  destruct (decide (x `div` 10 = 0)%N) as [Hz | Hnz].
  - rewrite Hz, pretty_N_go_0. cbn [digit_prefix].
    rewrite digit_value_pretty_char by done. cbn [foldl].
    f_equal. pose proof (N.div_mod x 10). lia.
  - assert (x `div` 10 < x)%N as Hlt by (apply N.div_lt; lia).
    assert (0 < x `div` 10)%N as Hpos by (by apply N.neq_0_lt_0).
    rewrite (IH _ Hlt _ Hpos).
    cbn [digit_prefix]. rewrite digit_value_pretty_char by done.
    cbn [foldl]. f_equal. pose proof (N.div_mod x 10). lia.
Qed.

Lemma pretty_go_head x s :
  (0 < x)%N →
  ∃ d r, (0 < d < 10)%N ∧ pretty_N_go x s = String (pretty_N_char d) r.
Proof.
  revert s. induction (N.lt_wf_0 x) as [x _ IH]. intros s Hx.
  rewrite pretty_N_go_step by done.
  destruct (decide (x `div` 10 = 0)%N) as [Hz | Hnz].
  - rewrite Hz, pretty_N_go_0. exists (x `mod` 10)%N, s. split; [| done].
    pose proof (N.div_mod x 10). pose proof (N.mod_lt x 10). lia.
  - assert (x `div` 10 < x)%N as Hlt by (apply N.div_lt; lia).
    assert (0 < x `div` 10)%N as Hpos by (by apply N.neq_0_lt_0).
    apply (IH _ Hlt _ Hpos).
Qed.

Lemma parseInt_nonzero_digit d r :
  (0 < d < 10)%N →
  parseInt (String (pretty_N_char d) r)
  = Num (Z.of_N (digits_value 10 (digit_prefix 10 (String (pretty_N_char d) r))))
  ∧ parseInt (String "-" (String (pretty_N_char d) r))
  = Num (- Z.of_N (digits_value 10 (digit_prefix 10 (String (pretty_N_char d) r)))).
Proof.
  intros Hd.
  assert (d = 1 ∨ d = 2 ∨ d = 3 ∨ d = 4 ∨ d = 5 ∨ d = 6 ∨ d = 7
          ∨ d = 8 ∨ d = 9)%N as Hcases by lia.
  repeat (destruct Hcases as [-> | Hcases]; [split; reflexivity |]).
  subst d. split; reflexivity.
Qed.

Lemma parseInt_pretty_pos p :
  parseInt (pretty (N.pos p)) = Num (Z.pos p)
  ∧ parseInt ("-" +:+ pretty (N.pos p)) = Num (Z.neg p).
Proof.
  unfold pretty, pretty_N. rewrite decide_False by done.
  destruct (pretty_go_head (N.pos p) "") as (d & r & Hd & Hr); [lia |].
  pose proof (digit_prefix_pretty_go (N.pos p) "" ltac:(lia)) as Hv.
  rewrite Hr in Hv |- *.
  destruct (parseInt_nonzero_digit d r Hd) as [Hplus Hminus].
  unfold digits_value in Hplus, Hminus. rewrite Hv in Hplus, Hminus.
  split; [exact Hplus | exact Hminus].
Qed.

Lemma parseInt_pretty (z : Z) : parseInt (pretty z) = Num z.
Proof.
  destruct z as [| p | p]; [reflexivity | |].
  - apply (parseInt_pretty_pos p).
  - apply (parseInt_pretty_pos p).
Qed.

Lemma parseInt_num_to_string n : parseInt (num_to_string n) = n.
Proof. destruct n; [apply parseInt_pretty | reflexivity]. Qed.

Lemma num_to_string_inj a b : num_to_string a = num_to_string b → a = b.
Proof.
  intros H. rewrite <- (parseInt_num_to_string a), H.
  apply parseInt_num_to_string.
Qed.

(** A one-character prefix of a template literal can be cancelled. *)
Lemma prefix_char_inj (c : ascii) (a b : string) :
  String c "" +:+ a = String c "" +:+ b → a = b.
Proof. intros H. injection H as H. exact H. Qed.

Lemma empty_prefix_inj (a b : string) : "" +:+ a = "" +:+ b → a = b.
Proof. intros H. exact H. Qed.

End number_strings.

(** ** Objects, sets and loops *)

Section objects.
Context {V : Type}.
Implicit Types (o : JsObj V) (k : string) (v : V).

Lemma indexed_partition o :
  (snd <$> omap indexed o) ++ filter (λ kv, array_index kv.1 = None) o ≡ₚ o.
Proof.
  induction o as [| [k v] o IH]; [done |].
  rewrite filter_cons. cbn [omap list_omap]. unfold indexed at 1. cbn [fst].
  destruct (array_index k) as [n |] eqn:Hk; cbn [fmap option_fmap option_map].
  - rewrite decide_False by done. cbn. by rewrite IH.
  - rewrite decide_True by done.
    rewrite <- Permutation_middle. by rewrite IH.
Qed.

Lemma own_entries_perm o : own_entries o ≡ₚ o.
Proof.
  unfold own_entries. rewrite merge_sort_Permutation. apply indexed_partition.
Qed.

Lemma elem_of_own_entries o kv : kv ∈ own_entries o ↔ kv ∈ o.
Proof. by rewrite own_entries_perm. Qed.

Lemma length_own_keys o : length (own_keys o) = length o.
Proof. unfold own_keys. by rewrite length_fmap, own_entries_perm. Qed.

Lemma own_entries_wf o : wf_obj o → wf_obj (own_entries o).
Proof. unfold wf_obj. by rewrite own_entries_perm. Qed.

Lemma own_entries_nil : own_entries ([] : JsObj V) = [].
Proof. reflexivity. Qed.

Lemma obj_get_obj_set o k k' v :
  obj_get k' (obj_set k v o) = if decide (k = k') then Some v else obj_get k' o.
Proof.
  induction o as [| [k0 v0] o IH]; cbn.
  - done.
  - destruct (decide (k0 = k)) as [-> |]; cbn.
    + by destruct (decide (k = k')).
    + rewrite IH. destruct (decide (k0 = k')) as [-> |]; [| done].
      by rewrite decide_False.
Qed.

Lemma obj_get_None o k : obj_get k o = None ↔ k ∉ o.*1.
Proof.
  induction o as [| [k0 v0] o IH]; cbn.
  - split; [intros _; apply not_elem_of_nil | done].
  - rewrite not_elem_of_cons. destruct (decide (k0 = k)) as [-> |].
    + split; [done | intros [? _]; done].
    + rewrite IH. split; [intros ?; split; [done | done] | intros [_ ?]; done].
Qed.

Lemma obj_get_Some_elem o k v : obj_get k o = Some v → (k, v) ∈ o.
Proof.
  induction o as [| [k0 v0] o IH]; cbn; [done |].
  destruct (decide (k0 = k)) as [-> |].
  - intros [= ->]. apply elem_of_cons. by left.
  - intros ?. apply elem_of_cons. right. by apply IH.
Qed.

Lemma elem_obj_get o k v : wf_obj o → (k, v) ∈ o → obj_get k o = Some v.
Proof.
  unfold wf_obj. induction o as [| [k0 v0] o IH]; cbn.
  - intros _ ?%elem_of_nil. done.
  - rewrite NoDup_cons. intros [Hk0 Hnd] [[= -> ->] | Hin]%elem_of_cons.
    + by rewrite decide_True.
    + destruct (decide (k0 = k)) as [-> |]; [| by apply IH].
      destruct Hk0. apply list_elem_of_fmap. by exists (k, v).
Qed.

Lemma obj_set_keys o k v k' :
  k' ∈ (obj_set k v o).*1 ↔ k' = k ∨ k' ∈ o.*1.
Proof.
  induction o as [| [k0 v0] o IH]; cbn.
  - rewrite list_elem_of_singleton. rewrite elem_of_nil. tauto.
  - destruct (decide (k0 = k)) as [-> |]; cbn; rewrite !elem_of_cons.
    + tauto.
    + rewrite IH. tauto.
Qed.

Lemma obj_set_wf o k v : wf_obj o → wf_obj (obj_set k v o).
Proof.
  unfold wf_obj. induction o as [| [k0 v0] o IH]; cbn.
  - intros _. apply NoDup_singleton.
  - rewrite NoDup_cons. intros [Hk0 Hnd].
    destruct (decide (k0 = k)) as [-> |]; cbn; rewrite NoDup_cons.
    + done.
    + split; [| by apply IH]. rewrite obj_set_keys. intros [-> | ?]; done.
Qed.

End objects.

Section loops.
Context {A S : Type}.
Implicit Types (xs : list A) (s : S).

Lemma forEach_nil (body : A → S → S) s : forEach [] body s = s.
Proof. reflexivity. Qed.

Lemma forEach_cons (body : A → S → S) x xs s :
  forEach (x :: xs) body s = forEach xs body (body x s).
Proof. reflexivity. Qed.

Lemma forEach_app (body : A → S → S) xs ys s :
  forEach (xs ++ ys) body s = forEach ys body (forEach xs body s).
Proof. unfold forEach. apply foldl_app. Qed.

Lemma forEach_ext (f g : A → S → S) xs s :
  (∀ x s, f x s = g x s) → forEach xs f s = forEach xs g s.
Proof.
  intros Hfg. revert s. induction xs as [| x xs IH]; intros s; [done |].
  rewrite !forEach_cons, Hfg. apply IH.
Qed.

(** An invariant of the loop state holds at the end. *)
Lemma forEach_invariant (P : S → Prop) (body : A → S → S) xs s :
  P s → (∀ x s, x ∈ xs → P s → P (body x s)) → P (forEach xs body s).
Proof.
  revert s. induction xs as [| x xs IH]; intros s Hs Hstep; [done |].
  rewrite forEach_cons. apply IH.
  - apply Hstep; [apply elem_of_cons; by left | done].
  - intros y s' Hy. apply Hstep. apply elem_of_cons. by right.
Qed.

End loops.

(** A loop that pushes at most one element per round. *)
Lemma forEach_push_omap {A B} (g : A → option B) (xs : list A) (init : list B) :
  forEach xs
    (λ x acc, match g x with Some y => push y acc | None => acc end) init
  = init ++ omap g xs.
Proof.
  revert init. induction xs as [| x xs IH]; intros init.
  - by rewrite forEach_nil, app_nil_r.
  - rewrite forEach_cons, IH. cbn [omap list_omap]. unfold push.
    destruct (g x); [by rewrite <- app_assoc | done].
Qed.

(** A loop that pushes one element per round. *)
Lemma forEach_push_fmap {A B} (g : A → B) (xs : list A) (init : list B) :
  forEach xs (λ x acc, push (g x) acc) init = init ++ (g <$> xs).
Proof.
  revert init. induction xs as [| x xs IH]; intros init.
  - by rewrite forEach_nil, app_nil_r.
  - rewrite forEach_cons, IH. unfold push. by rewrite <- app_assoc.
Qed.

(** A loop whose rounds each push a list of elements. *)
Lemma forEach_push_bind {A B} (g : A → list B) (body : A → list B → list B)
    (xs : list A) (init : list B) :
  (∀ x acc, body x acc = acc ++ g x) →
  forEach xs body init = init ++ (xs ≫= g).
Proof.
  intros Hbody. revert init. induction xs as [| x xs IH]; intros init.
  - by rewrite forEach_nil, app_nil_r.
  - rewrite forEach_cons, IH, Hbody. cbn. by rewrite <- app_assoc.
Qed.

Section sets.
Context {A : Type} `{EqDecision A}.
Implicit Types (x y : A) (s : JsSet A).

Lemma set_has_true x s : set_has x s = true ↔ x ∈ s.
Proof. unfold set_has. apply bool_decide_eq_true. Qed.

Lemma set_has_false x s : set_has x s = false ↔ x ∉ s.
Proof. unfold set_has. apply bool_decide_eq_false. Qed.

Lemma elem_of_set_add x y s : x ∈ set_add y s ↔ x = y ∨ x ∈ s.
Proof.
  unfold set_add. destruct (set_has y s) eqn:Hy.
  - apply set_has_true in Hy. split; [by right | intros [-> | ?]; done].
  - rewrite elem_of_app, list_elem_of_singleton. tauto.
Qed.

Lemma set_add_NoDup y s : NoDup s → NoDup (set_add y s).
Proof.
  intros Hs. unfold set_add. destruct (set_has y s) eqn:Hy; [done |].
  apply set_has_false in Hy. apply NoDup_app. split_and!; [done | | apply NoDup_singleton].
  intros x Hx ->%list_elem_of_singleton. done.
Qed.

Lemma elem_of_forEach_set_add {B} (f : B → A) (xs : list B) s x :
  x ∈ forEach xs (λ b s, set_add (f b) s) s ↔ x ∈ s ∨ ∃ b, b ∈ xs ∧ x = f b.
Proof.
  revert s. induction xs as [| b xs IH]; intros s.
  - rewrite forEach_nil. split; [by left |].
    intros [? | (b & ?%elem_of_nil & _)]; done.
  - rewrite forEach_cons, IH, elem_of_set_add. split.
    + intros [[-> | ?] | (b' & ? & ->)].
      * right. exists b. split; [apply elem_of_cons; by left | done].
      * by left.
      * right. exists b'. split; [apply elem_of_cons; by right | done].
    + intros [? | (b' & [-> | ?]%elem_of_cons & ->)].
      * left. by right.
      * left. by left.
      * right. by exists b'.
Qed.

Lemma forEach_set_add_NoDup {B} (f : B → A) (xs : list B) s :
  NoDup s → NoDup (forEach xs (λ b s, set_add (f b) s) s).
Proof.
  intros Hs. apply (forEach_invariant (λ s, NoDup s)); [done |].
  intros b s' _. apply set_add_NoDup.
Qed.

Lemma elem_of_set_of_list (xs : list A) x : x ∈ set_of_list xs ↔ x ∈ xs.
Proof.
  unfold set_of_list.
  change (x ∈ forEach xs (λ b s, set_add (id b) s) [] ↔ x ∈ xs).
  rewrite elem_of_forEach_set_add. split.
  - intros [?%elem_of_nil | (b & ? & ->)]; done.
  - intros ?. right. by exists x.
Qed.

Lemma set_of_list_NoDup (xs : list A) : NoDup (set_of_list xs).
Proof.
  unfold set_of_list.
  change (NoDup (forEach xs (λ b s, set_add (id b) s) [])).
  apply forEach_set_add_NoDup. apply NoDup_nil_2.
Qed.

End sets.

Lemma filter_none {A} (P : A → Prop) `{!∀ x, Decision (P x)} (xs : list A) :
  (∀ x, x ∈ xs → ¬ P x) → filter P xs = [].
Proof.
  induction xs as [| x xs IH]; intros Hnone; [done |].
  rewrite filter_cons, decide_False.
  - apply IH. intros y Hy. apply Hnone. apply elem_of_cons. by right.
  - apply Hnone. apply elem_of_cons. by left.
Qed.

(** ** The graph builders *)

Section builders.

Lemma obj_get_spread (src dst : JsObj jsval) k :
  k ∉ src.*1 → obj_get k (spread src dst) = obj_get k dst.
Proof.
  unfold spread. intros Hk.
  assert (k ∉ (own_entries src).*1) as Hk'.
  { by rewrite own_entries_perm. }
  clear Hk. revert dst. induction (own_entries src) as [| [k0 v0] l IH]; intros dst.
  - done.
  - cbn in Hk' |- *. apply not_elem_of_cons in Hk' as [Hne Hk'].
    rewrite IH by done. rewrite obj_get_obj_set. by rewrite decide_False.
Qed.

Lemma process_node_field (p : Process) k :
  k ≠ "pid"%string → obj_get k (proc_extra p) = None →
  obj_get k (process_node p)
  = obj_get k [ ("id", VStr ("P" +:+ pretty (pid p)));
                ("name", VStr ("P" +:+ pretty (pid p)));
                ("type", VStr "process");
                ("pid", VNum (Num (pid p))) ]%string.
Proof.
  intros Hk Hx. unfold process_node. apply obj_get_spread.
  unfold process_fields. cbn. apply not_elem_of_cons. split; [done |].
  by apply obj_get_None.
Qed.

Lemma resource_node_field rid (r : Resource) k :
  k ≠ "total"%string → obj_get k (res_extra r) = None →
  obj_get k (resource_node (rid, r))
  = obj_get k [ ("id", VStr ("R" +:+ rid));
                ("name", VStr ("R" +:+ rid));
                ("type", VStr "resource");
                ("rid", VStr rid);
                ("total", VNum (Num (total r))) ]%string.
Proof.
  intros Hk Hx. unfold resource_node. apply obj_get_spread.
  unfold resource_fields. cbn. apply not_elem_of_cons. split; [done |].
  by apply obj_get_None.
Qed.

Lemma rag_nodes s :
  nodes (buildRAGGraph s)
  = (process_node <$> processes s)
    ++ (resource_node <$> own_entries (resources s)).
Proof.
  unfold buildRAGGraph. cbn [nodes].
  by rewrite !forEach_push_fmap.
Qed.

Lemma rag_links s :
  links (buildRAGGraph s)
  = omap (λ kc, if 0 <? kc.2 then Some (allocation_edge kc.1 kc.2) else None)
      (own_entries (allocation s))
    ++ omap (λ kc, if 0 <? kc.2 then Some (request_edge kc.1 kc.2) else None)
      (own_entries (request s)).
Proof.
  unfold buildRAGGraph. cbn [links].
  rewrite <- (forEach_push_omap _ (own_entries (request s))).
  rewrite <- (app_nil_l (omap _ (own_entries (allocation s)))).
  rewrite <- (forEach_push_omap _ (own_entries (allocation s))).
  etrans; [apply forEach_ext | f_equal; apply forEach_ext].
  - intros [key count] acc. cbn. by destruct (0 <? count).
  - intros [key count] acc. cbn. by destruct (0 <? count).
Qed.

Lemma elem_of_rag_links s l :
  l ∈ links (buildRAGGraph s) ↔
    (∃ key count, (key, count) ∈ allocation s ∧ 0 < count
                  ∧ l = allocation_edge key count)
    ∨ (∃ key count, (key, count) ∈ request s ∧ 0 < count
                    ∧ l = request_edge key count).
Proof.
  rewrite rag_links, elem_of_app, !list_elem_of_omap.
  split.
  - intros [([key count] & Hin & Hl) | ([key count] & Hin & Hl)];
      cbn in Hl; destruct (0 <? count) eqn:Hc; simplify_eq;
      rewrite elem_of_own_entries in Hin; apply Z.ltb_lt in Hc;
      [left | right]; by exists key, count.
  - intros [(key & count & Hin & Hc & ->) | (key & count & Hin & Hc & ->)];
      [left | right]; exists (key, count);
      (split; [by apply elem_of_own_entries |]);
      cbn; apply Z.ltb_lt in Hc; by rewrite Hc.
Qed.

Lemma elem_of_rag_nodes s n :
  n ∈ nodes (buildRAGGraph s) ↔
    (∃ p, p ∈ processes s ∧ n = process_node p)
    ∨ (∃ rid r, (rid, r) ∈ resources s ∧ n = resource_node (rid, r)).
Proof.
  rewrite rag_nodes, elem_of_app, !list_elem_of_fmap. split.
  - intros [(p & -> & Hp) | ([rid r] & -> & Hr)].
    + left. by exists p.
    + right. exists rid, r. by rewrite <- elem_of_own_entries.
  - intros [(p & Hp & ->) | (rid & r & Hr & ->)].
    + left. by exists p.
    + right. exists (rid, r). by rewrite elem_of_own_entries.
Qed.

(** The process ids that [buildWFGGraph] collects. *)
Lemma all_pids_spec (wfg : WFG) :
  let allPids :=
    forEach (own_keys wfg)
      (λ pid allPids,
         let allPids := set_add (parseInt pid) allPids in
         forEach (targets_of wfg pid)
           (λ targetPid allPids, set_add targetPid allPids) allPids)
      ([] : list jsnum) in
  NoDup allPids
  ∧ ∀ x, x ∈ allPids ↔
      ∃ k, k ∈ own_keys wfg ∧ (x = parseInt k ∨ x ∈ targets_of wfg k).
Proof.
  cbn zeta. generalize (own_keys wfg) as ks.
  assert (∀ ks (init : list jsnum),
    NoDup init →
    let r := forEach ks
      (λ pid allPids,
         forEach (targets_of wfg pid)
           (λ targetPid allPids, set_add targetPid allPids)
           (set_add (parseInt pid) allPids)) init in
    NoDup r ∧ ∀ x, x ∈ r ↔
      x ∈ init ∨ ∃ k, k ∈ ks ∧ (x = parseInt k ∨ x ∈ targets_of wfg k))
    as Hgen.
  { induction ks as [| k ks IH]; intros init Hinit; cbn zeta.
    - rewrite forEach_nil. split; [done |]. intros x. split; [by left |].
      intros [? | (k & ?%elem_of_nil & _)]; done.
    - rewrite forEach_cons.
      pose proof (forEach_set_add_NoDup id (targets_of wfg k)
                    (set_add (parseInt k) init)
                    (set_add_NoDup _ _ Hinit)) as Hnd.
      destruct (IH _ Hnd) as [Hnd' Hin]. split; [exact Hnd' |].
      intros x. rewrite Hin.
      rewrite (elem_of_forEach_set_add id), elem_of_set_add.
      split.
      + intros [[[-> | ?] | (t & Ht & ->)] | (k' & Hk' & Hx)].
        * right. exists k. split; [apply elem_of_cons; by left | by left].
        * by left.
        * right. exists k. split; [apply elem_of_cons; by left | by right].
        * right. exists k'. split; [apply elem_of_cons; by right | done].
      + intros [? | (k' & [-> | Hk']%elem_of_cons & Hx)].
        * left. left. by right.
        * destruct Hx as [-> | Hx].
          -- left. left. by left.
          -- left. right. by exists x.
        * right. by exists k'. }
  intros ks. destruct (Hgen ks [] (NoDup_nil_2)) as [Hnd Hin].
  split; [exact Hnd |]. intros x. rewrite Hin. split.
  - intros [?%elem_of_nil | ?]; done.
  - intros ?. by right.
Qed.

Lemma wfg_nodes (wfg : WFG) cycles :
  ∃ cycleNodes allPids,
    nodes (buildWFGGraph wfg cycles) = wfg_node cycleNodes <$> allPids
    ∧ NoDup allPids
    ∧ ∀ x, x ∈ allPids ↔
        ∃ k, k ∈ own_keys wfg ∧ (x = parseInt k ∨ x ∈ targets_of wfg k).
Proof.
  unfold buildWFGGraph. cbn [nodes].
  eexists _, _. rewrite forEach_push_fmap. split; [reflexivity |].
  apply all_pids_spec.
Qed.

Lemma wfg_links (wfg : WFG) cycles :
  links (buildWFGGraph wfg cycles)
  = own_entries wfg ≫= λ st, wfg_edge st.1 <$> st.2.
Proof.
  unfold buildWFGGraph. cbn [links].
  rewrite (forEach_push_bind (λ st, wfg_edge st.1 <$> st.2)); [done |].
  intros [src targets] acc. cbn. apply forEach_push_fmap.
Qed.

Lemma elem_of_wfg_links (wfg : WFG) cycles l :
  l ∈ links (buildWFGGraph wfg cycles) ↔
    ∃ src targets t, (src, targets) ∈ wfg ∧ t ∈ targets ∧ l = wfg_edge src t.
Proof.
  rewrite wfg_links, list_elem_of_bind. split.
  - intros ([src targets] & (t & -> & Ht)%list_elem_of_fmap & Hin).
    rewrite elem_of_own_entries in Hin. by exists src, targets, t.
  - intros (src & targets & t & Hin & Ht & ->).
    exists (src, targets). split.
    + apply list_elem_of_fmap. by exists t.
    + by apply elem_of_own_entries.
Qed.

End builders.

(** ** The hover handler *)

Section hover.

Lemma incident_test d l :
  bool_decide (link_source l = d) || bool_decide (link_target l = d)
  = bool_decide (incident d l).
Proof.
  unfold incident.
  destruct (decide (link_source l = d)) as [Hs | Hs],
           (decide (link_target l = d)) as [Ht | Ht].
  - rewrite !bool_decide_eq_true_2; [done | by left | done | done].
  - rewrite (bool_decide_eq_true_2 _ Hs), (bool_decide_eq_false_2 _ Ht).
    rewrite bool_decide_eq_true_2; [done | by left].
  - rewrite (bool_decide_eq_false_2 _ Hs), (bool_decide_eq_true_2 _ Ht).
    rewrite bool_decide_eq_true_2; [done | by right].
  - rewrite (bool_decide_eq_false_2 _ Hs), (bool_decide_eq_false_2 _ Ht).
    rewrite bool_decide_eq_false_2; [done | tauto].
Qed.

(** The loop of the handler, started from any state. *)
Lemma mouseover_loop d ls st :
  let body := λ (link : Link) (st : Hover),
    if bool_decide (link_source link = d)
       || bool_decide (link_target link = d)
    then {| connectedLinks := push link (connectedLinks st);
            connectedNodes :=
              set_add (link_target link)
                (set_add (link_source link) (connectedNodes st)) |}
    else st in
  connectedLinks (forEach ls body st)
  = connectedLinks st ++ filter (incident d) ls
  ∧ (NoDup (connectedNodes st) → NoDup (connectedNodes (forEach ls body st)))
  ∧ ∀ x, x ∈ connectedNodes (forEach ls body st) ↔
      x ∈ connectedNodes st
      ∨ ∃ l, l ∈ filter (incident d) ls
             ∧ (x = link_source l ∨ x = link_target l).
Proof.
  intros body. revert st. induction ls as [| l ls IH]; intros st.
  - rewrite forEach_nil, filter_nil, app_nil_r. split_and!; [done | done |].
    intros x. split; [by left |].
    intros [? | (l & ?%elem_of_nil & _)]; done.
  - rewrite forEach_cons, filter_cons.
    destruct (IH (body l st)) as (Hlinks & Hnd & Hin).
    rewrite Hlinks. setoid_rewrite Hin. clear Hlinks Hin IH.
    assert (body l st =
      if bool_decide (incident d l)
      then {| connectedLinks := push l (connectedLinks st);
              connectedNodes :=
                set_add (link_target l)
                  (set_add (link_source l) (connectedNodes st)) |}
      else st) as Hbody.
    { unfold body. by rewrite incident_test. }
    destruct (decide (incident d l)) as [Hi | Hi].
    + rewrite (bool_decide_eq_true_2 _ Hi) in Hbody.
      rewrite Hbody in Hnd |- *. cbn [connectedLinks connectedNodes] in *.
      split_and!.
      * unfold push. by rewrite <- app_assoc.
      * intros Hst. apply Hnd. by do 2 apply set_add_NoDup.
      * intros x. rewrite !elem_of_set_add. split.
        -- intros [[-> | [-> | ?]] | (l' & Hl' & Hx)].
           ++ right. exists l. split; [apply elem_of_cons; by left | by right].
           ++ right. exists l. split; [apply elem_of_cons; by left | by left].
           ++ by left.
           ++ right. exists l'. split; [apply elem_of_cons; by right | done].
        -- intros [? | (l' & [-> | Hl']%elem_of_cons & Hx)].
           ++ left. right. by right.
           ++ left. destruct Hx as [-> | ->]; [right; by left | by left].
           ++ right. by exists l'.
    + rewrite (bool_decide_eq_false_2 _ Hi) in Hbody.
      rewrite Hbody in Hnd |- *. done.
Qed.

Lemma mouseover_links ls d :
  connectedLinks (mouseover ls d) = filter (incident d) ls.
Proof.
  unfold mouseover.
  by destruct (mouseover_loop d ls {| connectedNodes := []; connectedLinks := [] |})
    as (-> & _ & _).
Qed.

Lemma mouseover_nodes ls d :
  NoDup (connectedNodes (mouseover ls d))
  ∧ ∀ x, x ∈ connectedNodes (mouseover ls d) ↔
      ∃ l, l ∈ filter (incident d) ls ∧ (x = link_source l ∨ x = link_target l).
Proof.
  unfold mouseover.
  destruct (mouseover_loop d ls {| connectedNodes := []; connectedLinks := [] |})
    as (_ & Hnd & Hin).
  split; [apply Hnd, NoDup_nil_2 |].
  intros x. rewrite Hin. cbn. split.
  - intros [?%elem_of_nil | ?]; done.
  - intros ?. by right.
Qed.

End hover.

(** ** The fallback wait-for derivation *)

Section derivation.

Lemma elem_of_find_blockers (allocations : JsObj Z) pid rid holder :
  holder ∈ find_blockers allocations pid rid ↔
    ∃ allocKey alloc,
      (allocKey, alloc) ∈ allocations ∧ 0 < alloc
      ∧ parse_key allocKey = (holder, rid)
      ∧ strict_neq holder pid = true.
Proof.
  unfold find_blockers.
  rewrite (forEach_ext _
    (λ kv acc,
       match (if strict_eq_str (parse_key kv.1).2 rid && (0 <? kv.2)
                 && strict_neq (parse_key kv.1).1 pid
              then Some (parse_key kv.1).1 else None) with
       | Some y => push y acc
       | None => acc
       end)).
  2: { intros [allocKey alloc] acc. cbn [fst snd].
       destruct (parse_key allocKey) as [allocPid allocRid]. cbn [fst snd].
       by destruct (_ && _). }
  rewrite forEach_push_omap, app_nil_l, list_elem_of_omap. split.
  - intros ([allocKey alloc] & Hin & Hsome). cbn [fst snd] in Hsome.
    rewrite elem_of_own_entries in Hin.
    destruct (parse_key allocKey) as [allocPid allocRid] eqn:Hparse.
    cbn [fst snd] in Hsome.
    destruct (strict_eq_str allocRid rid) eqn:Hrid; [| done].
    destruct (0 <? alloc) eqn:Halloc; [| done].
    destruct (strict_neq allocPid pid) eqn:Hneq; [| done].
    cbn in Hsome. injection Hsome as ->.
    apply bool_decide_eq_true in Hrid as ->. apply Z.ltb_lt in Halloc.
    by exists allocKey, alloc.
  - intros (allocKey & alloc & Hin & Halloc & Hparse & Hneq).
    exists (allocKey, alloc). split; [by rewrite elem_of_own_entries |].
    cbn [fst snd]. rewrite Hparse. cbn [fst snd].
    unfold strict_eq_str. rewrite bool_decide_eq_true_2 by done.
    apply Z.ltb_lt in Halloc. by rewrite Halloc, Hneq.
Qed.

(** One round of the outer loop, seen through a property read. *)
Lemma derive_round (allocations : JsObj Z) key need (edges : WFG) k :
  let edges' :=
    if need <=? 0 then edges
    else
      let '(pid, rid) := parse_key key in
      let blockers := find_blockers allocations pid rid in
      if (0 <? length blockers)%nat then
        let edges :=
          match obj_get (num_to_string pid) edges with
          | None => obj_set (num_to_string pid) [] edges
          | Some _ => edges
          end in
        obj_set (num_to_string pid)
          (targets_of edges (num_to_string pid) ++ blockers) edges
      else edges in
  let bs := blockers_under allocations k [(key, need)] in
  obj_get k edges'
  = (if decide (bs = []) then obj_get k edges
     else Some (targets_of edges k ++ bs))
  ∧ (wf_obj edges → wf_obj edges')
  ∧ ∀ k', k' ∈ edges'.*1 → k' ∈ edges.*1 ∨ ∃ n, k' = num_to_string n.
Proof.
  cbn zeta. unfold blockers_under. cbn [mbind list_bind]. rewrite app_nil_r.
  destruct (need <=? 0).
  { rewrite decide_True by done. split_and!; [done | done | by left]. }
  destruct (parse_key key) as [pid rid].
  destruct (find_blockers allocations pid rid) as [| b bs] eqn:Hb.
  { cbn [length]. assert ((0 <? 0)%nat = false) as -> by done.
    split_and!; [| done | by left].
    destruct (decide (num_to_string pid = k)); by rewrite decide_True. }
  assert ((0 <? length (b :: bs))%nat = true) as -> by done.
  split_and!.
  - rewrite obj_get_obj_set.
    destruct (decide (num_to_string pid = k)) as [<- | Hne].
    + rewrite decide_False by done. do 2 f_equal. unfold targets_of.
      destruct (obj_get (num_to_string pid) edges) as [ts |] eqn:Hget.
      * by rewrite Hget.
      * rewrite obj_get_obj_set. by rewrite decide_True.
    + rewrite decide_True by done.
      destruct (obj_get (num_to_string pid) edges); [done |].
      rewrite obj_get_obj_set. by rewrite decide_False.
  - intros Hwf. apply obj_set_wf.
    destruct (obj_get (num_to_string pid) edges); [done |].
    by apply obj_set_wf.
  - intros k' [-> | Hk']%obj_set_keys; [right; by exists pid |].
    destruct (obj_get (num_to_string pid) edges); [by left |].
    apply obj_set_keys in Hk' as [-> | Hk']; [right; by exists pid | by left].
Qed.

(** The outer loop, started from any adjacency. *)
Lemma derive_loop (allocations : JsObj Z) (reqs : list (string * Z))
    (edges : WFG) k :
  let body := λ '(key, need) (edges : WFG),
    if need <=? 0 then edges
    else
      let '(pid, rid) := parse_key key in
      let blockers := find_blockers allocations pid rid in
      if (0 <? length blockers)%nat then
        let edges :=
          match obj_get (num_to_string pid) edges with
          | None => obj_set (num_to_string pid) [] edges
          | Some _ => edges
          end in
        obj_set (num_to_string pid)
          (targets_of edges (num_to_string pid) ++ blockers) edges
      else edges in
  let bs := blockers_under allocations k reqs in
  obj_get k (forEach reqs body edges)
  = if decide (bs = []) then obj_get k edges
    else Some (targets_of edges k ++ bs).
Proof.
  cbn zeta. revert edges. induction reqs as [| [key need] reqs IH]; intros edges.
  - rewrite forEach_nil. by rewrite decide_True.
  - rewrite forEach_cons.
    match goal with |- context [forEach reqs _ ?e] =>
      remember e as e' eqn:He' end.
    rewrite IH. clear IH.
    set (c := blockers_under allocations k [(key, need)]).
    set (r := blockers_under allocations k reqs).
    assert (blockers_under allocations k ((key, need) :: reqs) = c ++ r) as ->.
    { unfold c, r, blockers_under. cbn [mbind list_bind]. by rewrite app_nil_r. }
    assert (obj_get k e'
            = if decide (c = []) then obj_get k edges
              else Some (targets_of edges k ++ c)) as Hget.
    { subst e'. apply (derive_round allocations key need edges k). }
    unfold targets_of in *. rewrite Hget. clear Hget He'.
    destruct (decide (r = [])) as [-> | Hr], (decide (c = [])) as [-> | Hc].
    + by rewrite decide_True.
    + rewrite app_nil_r. by rewrite decide_False.
    + rewrite app_nil_l. by rewrite decide_False.
    + rewrite decide_False by (by intros [? _]%app_eq_nil).
      cbn. by rewrite <- app_assoc.
Qed.

Lemma derived_get s k :
  let bs := blockers_under (allocation s) k (own_entries (request s)) in
  obj_get k (buildWFGFromSnapshot s)
  = if decide (bs = []) then None else Some bs.
Proof.
  cbn zeta. unfold buildWFGFromSnapshot.
  pose proof (derive_loop (allocation s) (own_entries (request s)) [] k) as H.
  cbn zeta in H. rewrite H. by destruct (decide _).
Qed.

Lemma derived_wf s :
  wf_obj (buildWFGFromSnapshot s)
  ∧ ∀ k, k ∈ (buildWFGFromSnapshot s).*1 → ∃ n, k = num_to_string n.
Proof.
  unfold buildWFGFromSnapshot.
  apply (forEach_invariant
    (λ e : WFG, wf_obj e ∧ ∀ k, k ∈ e.*1 → ∃ n, k = num_to_string n)).
  - split; [apply NoDup_nil_2 |]. intros k ?%elem_of_nil. done.
  - intros [key need] e _ [Hwf Hkeys].
    destruct (derive_round (allocation s) key need e ""%string)
      as (_ & Hwf' & Hkeys').
    split; [by apply Hwf' |].
    intros k Hk. destruct (Hkeys' k Hk) as [Hold | Hnew]; [by apply Hkeys | done].
Qed.

Lemma elem_of_blockers_under (allocations : JsObj Z) k reqs holder :
  holder ∈ blockers_under allocations k reqs ↔
    ∃ key need pid rid,
      (key, need) ∈ reqs ∧ 0 < need ∧ parse_key key = (pid, rid)
      ∧ num_to_string pid = k
      ∧ holder ∈ find_blockers allocations pid rid.
Proof.
  unfold blockers_under. rewrite list_elem_of_bind. split.
  - intros ([key need] & Hin & Hreq).
    destruct (need <=? 0) eqn:Hneed; [by apply elem_of_nil in Hin |].
    destruct (parse_key key) as [pid rid] eqn:Hparse.
    destruct (decide (num_to_string pid = k)) as [Hk |];
      [| by apply elem_of_nil in Hin].
    apply Z.leb_gt in Hneed. by exists key, need, pid, rid.
  - intros (key & need & pid & rid & Hreq & Hneed & Hparse & Hk & Hin).
    exists (key, need). split; [| done].
    apply Z.leb_gt in Hneed. rewrite Hneed, Hparse. by rewrite decide_True.
Qed.

(** The derived adjacency holds exactly the edges that the two loops find. *)
Lemma derived_edges s src holder :
  waits_for (buildWFGFromSnapshot s) src holder ↔ found_blocker s src holder.
Proof.
  unfold waits_for, found_blocker. setoid_rewrite derived_get. split.
  - intros (targets & Hget & Hin).
    destruct (decide _) as [| _]; [done |]. injection Hget as <-.
    rewrite elem_of_blockers_under in Hin.
    destruct Hin as (key & need & pid & rid & Hreq & Hneed & Hparse & Hk & Hin).
    apply num_to_string_inj in Hk as ->.
    rewrite elem_of_own_entries in Hreq.
    rewrite elem_of_find_blockers in Hin.
    destruct Hin as (allocKey & alloc & Halloc & Hpos & Hparse' & Hneq).
    by exists key, need, rid, allocKey, alloc.
  - intros (key & need & rid & allocKey & alloc
            & Hreq & Hneed & Hparse & Halloc & Hpos & Hparse' & Hneq).
    assert (holder ∈ blockers_under (allocation s) (num_to_string src)
                       (own_entries (request s))) as Hin.
    { apply elem_of_blockers_under. exists key, need, src, rid.
      split_and!; [by rewrite elem_of_own_entries | done | done | done |].
      apply elem_of_find_blockers. by exists allocKey, alloc. }
    eexists. split; [| exact Hin].
    rewrite decide_False; [done |]. intros Heq. rewrite Heq in Hin.
    by apply elem_of_nil in Hin.
Qed.

End derivation.

(** ** The comparison of two saved snapshots *)

Section comparison.

(** A loop that pushes one element for each item that passes a test. *)
Lemma forEach_push_filter {A B} (c : A → bool) (P : A → Prop)
    `{!∀ x, Decision (P x)} (f : A → B) (xs : list A) (init : list B) :
  (∀ x, c x = true ↔ P x) →
  forEach xs (λ x acc, if c x then push (f x) acc else acc) init
  = init ++ (f <$> filter P xs).
Proof.
  intros Hc. revert init. induction xs as [| x xs IH]; intros init.
  - by rewrite forEach_nil, app_nil_r.
  - rewrite forEach_cons, IH, filter_cons.
    destruct (c x) eqn:Hx.
    + apply Hc in Hx. rewrite decide_True by done.
      unfold push. by rewrite <- app_assoc.
    + rewrite decide_False; [done |]. intros HP%Hc. congruence.
Qed.

Lemma displayDifferences_sections a b :
  displayDifferences a b
  = process_additions a b ++ process_removals a b ++ cycle_change a b
    ++ allocation_change a b ++ request_change a b.
Proof.
  unfold displayDifferences.
  rewrite (forEach_push_filter _ (λ pid, pid ∉ pids_of a) added_entry).
  2: { intros x. rewrite negb_true_iff, set_has_false.
       by rewrite elem_of_set_of_list. }
  rewrite (forEach_push_filter _ (λ pid, pid ∉ pids_of b) removed_entry).
  2: { intros x. rewrite negb_true_iff, set_has_false.
       by rewrite elem_of_set_of_list. }
  rewrite app_nil_l, !length_own_keys.
  fold (pids_of a) (pids_of b) (process_additions a b) (process_removals a b).
  fold (cycle_count a) (cycle_count b) (allocation_count a)
    (allocation_count b) (request_count a) (request_count b).
  unfold cycle_change, allocation_change, request_change, push.
  destruct (decide (cycle_count a = cycle_count b)) as [Hc | Hc],
    (decide (allocation_count a = allocation_count b)) as [Ha | Ha],
    (decide (request_count a = request_count b)) as [Hr | Hr];
    rewrite ?(bool_decide_eq_true_2 _ Hc), ?(bool_decide_eq_false_2 _ Hc),
      ?(bool_decide_eq_true_2 _ Ha), ?(bool_decide_eq_false_2 _ Ha),
      ?(bool_decide_eq_true_2 _ Hr), ?(bool_decide_eq_false_2 _ Hr);
    cbn [negb]; rewrite ?app_nil_r, <- ?app_assoc; reflexivity.
Qed.

Lemma fmap_filter_nil {A B} (f : A → B) (P : A → Prop)
    `{!∀ x, Decision (P x)} (xs : list A) :
  f <$> filter P xs = [] ↔ ∀ x, x ∈ xs → ¬ P x.
Proof.
  induction xs as [| x xs IH].
  - split; [intros _ x ?%elem_of_nil; done | done].
  - rewrite filter_cons. destruct (decide (P x)) as [HP | HP].
    + split; [done |]. intros Hall.
      destruct (Hall x); [apply elem_of_cons; by left | done].
    + rewrite IH. split.
      * intros Hall y [-> | Hy]%elem_of_cons; [done | by apply Hall].
      * intros Hall y Hy. apply Hall. apply elem_of_cons. by right.
Qed.

Lemma process_additions_nil a b :
  process_additions a b = [] ↔ ∀ pid, pid ∈ pids_of b → pid ∈ pids_of a.
Proof.
  unfold process_additions. rewrite fmap_filter_nil.
  setoid_rewrite elem_of_set_of_list. split.
  - intros H pid Hb. destruct (decide (pid ∈ pids_of a)); [done |].
    by destruct (H pid Hb).
  - intros H pid Hb Hna. by apply Hna, H.
Qed.

Lemma process_removals_nil a b :
  process_removals a b = [] ↔ ∀ pid, pid ∈ pids_of a → pid ∈ pids_of b.
Proof.
  unfold process_removals. rewrite fmap_filter_nil.
  setoid_rewrite elem_of_set_of_list. split.
  - intros H pid Ha. destruct (decide (pid ∈ pids_of b)); [done |].
    by destruct (H pid Ha).
  - intros H pid Ha Hnb. by apply Hnb, H.
Qed.

End comparison.

(** ** Composite keys *)

Section keys.

Lemma split_nonempty sep s : ∃ piece pieces, split sep s = piece :: pieces.
Proof.
  destruct s as [| c s]; cbn; [by eexists _, _ |].
  destruct (decide (c = sep)); [by eexists _, _ |].
  destruct (split sep s); by eexists _, _.
Qed.

Lemma split_no_sep sep s : contains sep s = false → split sep s = [s].
Proof.
  induction s as [| c s IH]; cbn; [done |].
  intros [Hc Hs]%orb_false_iff. apply bool_decide_eq_false in Hc.
  rewrite decide_False by done. by rewrite IH.
Qed.

Lemma append_empty_l (s : string) : "" +:+ s = s.
Proof. reflexivity. Qed.

Lemma append_cons_l c (s t : string) : String c s +:+ t = String c (s +:+ t).
Proof. reflexivity. Qed.

Lemma split_at_first_sep sep s rest :
  contains sep s = false →
  split sep (s +:+ String sep rest) = s :: split sep rest.
Proof.
  induction s as [| c s IH].
  - intros _. rewrite append_empty_l. cbn [split]. by rewrite decide_True.
  - cbn [contains]. intros [Hc Hs]%orb_false_iff.
    apply bool_decide_eq_false in Hc.
    rewrite append_cons_l. cbn [split].
    rewrite decide_False by done. by rewrite IH.
Qed.

Lemma split_head sep s : split sep s !! 0%nat = Some (first_segment sep s).
Proof.
  induction s as [| c s IH]; cbn; [done |].
  destruct (decide (c = sep)); [done |].
  destruct (split sep s) as [| piece pieces]; cbn in *; [done |].
  by injection IH as ->.
Qed.

Lemma first_segment_no_sep sep s :
  contains sep s = false → first_segment sep s = s.
Proof.
  induction s as [| c s IH]; cbn; [done |].
  intros [Hc Hs]%orb_false_iff. apply bool_decide_eq_false in Hc.
  rewrite decide_False by done. by rewrite IH.
Qed.

Lemma pretty_go_no_sep x s :
  contains "_" s = false → contains "_" (pretty_N_go x s) = false.
Proof.
  revert s. induction (N.lt_wf_0 x) as [x _ IH]. intros s Hs.
  destruct (decide (x = 0)%N) as [-> | Hx]; [by rewrite pretty_N_go_0 |].
  rewrite pretty_N_go_step by lia.
  apply IH; [apply N.div_lt; lia |].
  cbn [contains]. rewrite Hs, orb_false_r. apply bool_decide_eq_false.
  unfold pretty_N_char. by repeat case_match.
Qed.

Lemma pretty_no_sep (z : Z) : contains "_" (pretty z) = false.
Proof.
  destruct z as [| p | p]; [done | |].
  - unfold pretty, pretty_Z, pretty, pretty_positive, pretty, pretty_N.
    rewrite decide_False by done. by apply pretty_go_no_sep.
  - unfold pretty, pretty_Z, pretty, pretty_positive, pretty, pretty_N.
    rewrite decide_False by done. rewrite append_cons_l, append_empty_l.
    cbn [contains]. rewrite pretty_go_no_sep by done. done.
Qed.

(** A key [<pid>_<rest>]: the pid string is cut at the first separator,
    the resource id at the second. *)
Lemma split_key_wellformed (z : Z) rest :
  split_key (pretty z +:+ "_" +:+ rest)
  = (Some (pretty z), Some (first_segment "_" rest)).
Proof.
  unfold split_key.
  change (pretty z +:+ "_" +:+ rest) with (pretty z +:+ String "_" rest).
  rewrite split_at_first_sep by apply pretty_no_sep.
  cbn [lookup list_lookup]. by rewrite split_head.
Qed.

Lemma split_key_no_sep key :
  contains "_" key = false → split_key key = (Some key, None).
Proof. intros H. unfold split_key. by rewrite split_no_sep. Qed.

End keys.

(** ** Rendered wait-for links *)

Lemma strict_neq_num (x y : Z) : strict_neq (Num x) (Num y) = true ↔ x ≠ y.
Proof.
  unfold strict_neq, strict_eq. rewrite negb_true_iff.
  apply bool_decide_eq_false.
Qed.

Lemma wfg_edge_inj src src' t t' :
  wfg_edge src t = wfg_edge src' t' → src = src' ∧ t = t'.
Proof.
  unfold wfg_edge. intros [= Hs%empty_prefix_inj Ht%empty_prefix_inj _].
  split; [done |]. by apply num_to_string_inj.
Qed.

(** A rendered link stands for an edge of the adjacency it was built from. *)
Lemma wfg_link_waits_for (w : WFG) cycles src target :
  wf_obj w →
  wfg_edge (num_to_string src) target ∈ links (buildWFGGraph w cycles)
  ↔ waits_for w src target.
Proof.
  intros Hwf. rewrite elem_of_wfg_links. unfold waits_for. split.
  - intros (k & targets & t & Hin & Ht & [<- <-]%wfg_edge_inj).
    exists targets. split; [by apply elem_obj_get | done].
  - intros (targets & Hget & Ht).
    exists (num_to_string src), targets, target.
    split_and!; [by apply obj_get_Some_elem | done | done].
Qed.


(** ** Nodes and link ends *)

Section resolution.

Lemma fmap_ext_in {A B} (f g : A → B) (xs : list A) :
  (∀ x, x ∈ xs → f x = g x) → f <$> xs = g <$> xs.
Proof.
  induction xs as [| x xs IH]; intros Hfg; [done |].
  rewrite !fmap_cons, Hfg by (apply elem_of_cons; by left).
  f_equal. apply IH. intros y Hy. apply Hfg. apply elem_of_cons. by right.
Qed.

Lemma node_id_wfg_node cn x :
  node_id (wfg_node cn x) = Some (VStr ("P" +:+ num_to_string x)).
Proof. reflexivity. Qed.

Lemma node_type_wfg_node cn x :
  node_type (wfg_node cn x) = Some (VStr "process").
Proof. reflexivity. Qed.

Lemma node_id_process_node p :
  obj_get "id" (proc_extra p) = None →
  node_id (process_node p) = Some (VStr ("P" +:+ pretty (pid p))).
Proof. intros H. unfold node_id. by rewrite process_node_field. Qed.

Lemma node_type_process_node p :
  obj_get "type" (proc_extra p) = None →
  node_type (process_node p) = Some (VStr "process").
Proof. intros H. unfold node_type. by rewrite process_node_field. Qed.

Lemma node_id_resource_node rid r :
  obj_get "id" (res_extra r) = None →
  node_id (resource_node (rid, r)) = Some (VStr ("R" +:+ rid)).
Proof. intros H. unfold node_id. by rewrite resource_node_field. Qed.

Lemma node_type_resource_node rid r :
  obj_get "type" (res_extra r) = None →
  node_type (resource_node (rid, r)) = Some (VStr "resource").
Proof. intros H. unfold node_type. by rewrite resource_node_field. Qed.

Lemma wfg_unique_ids (w : WFG) cycles : unique_node_ids (buildWFGGraph w cycles).
Proof.
  unfold unique_node_ids.
  destruct (wfg_nodes w cycles) as (cn & allPids & -> & Hnd & _).
  rewrite <- list_fmap_compose. apply NoDup_fmap_2; [| done].
  intros x y Hxy.
  change (node_id (wfg_node cn x) = node_id (wfg_node cn y)) in Hxy.
  rewrite !node_id_wfg_node in Hxy.
  injection Hxy as Hxy. by apply empty_prefix_inj, num_to_string_inj in Hxy.
Qed.

Lemma wfg_links_resolve (w : WFG) cycles :
  wf_obj w → (∀ k, k ∈ w.*1 → canonical_key k) →
  links_resolve (buildWFGGraph w cycles).
Proof.
  intros Hwf Hcanon l (src & targets & t & Hin & Ht & ->)%elem_of_wfg_links.
  destruct (wfg_nodes w cycles) as (cn & allPids & Hnodes & _ & Hall).
  assert (src ∈ own_keys w) as Hsrc.
  { unfold own_keys. rewrite own_entries_perm.
    apply list_elem_of_fmap. by exists (src, targets). }
  unfold resolves_to. rewrite Hnodes. split.
  - exists (wfg_node cn (parseInt src)). split.
    + apply list_elem_of_fmap. eexists. split; [done |].
      apply Hall. exists src. split; [done | by left].
    + rewrite node_id_wfg_node. cbn [wfg_edge link_source].
      rewrite (Hcanon src); [done |].
      apply list_elem_of_fmap. by exists (src, targets).
  - exists (wfg_node cn t). split.
    + apply list_elem_of_fmap. eexists. split; [done |].
      apply Hall. exists src. split; [done | right].
      unfold targets_of. by rewrite (elem_obj_get _ _ _ Hwf Hin).
    + by rewrite node_id_wfg_node.
Qed.

Lemma derived_links_resolve s cycles :
  links_resolve (buildWFGGraph (buildWFGFromSnapshot s) cycles).
Proof.
  destruct (derived_wf s) as [Hwf Hkeys].
  apply wfg_links_resolve; [done |].
  intros k Hk. destruct (Hkeys k Hk) as [n ->].
  unfold canonical_key. by rewrite parseInt_num_to_string.
Qed.

Lemma rag_unique_ids s :
  NoDup (pid <$> processes s) → wf_obj (resources s) →
  no_passthrough "id" s →
  unique_node_ids (buildRAGGraph s).
Proof.
  intros Hpids Hres [Hproc Hrsrc]. unfold unique_node_ids.
  rewrite rag_nodes, fmap_app, <- !list_fmap_compose.
  rewrite (fmap_ext_in (node_id ∘ process_node)
             ((λ z, Some (VStr ("P" +:+ pretty z))) ∘ pid)).
  2: { intros p Hp. change (node_id (process_node p) = Some (VStr ("P" +:+ pretty (pid p)))).
       by apply node_id_process_node, Hproc. }
  rewrite (fmap_ext_in (node_id ∘ resource_node)
             ((λ rid, Some (VStr ("R" +:+ rid))) ∘ fst)).
  2: { intros [rid r] Hr.
       change (node_id (resource_node (rid, r)) = Some (VStr ("R" +:+ rid))).
       apply node_id_resource_node, (Hrsrc rid).
       by rewrite <- elem_of_own_entries. }
  apply NoDup_app. split_and!.
  - rewrite (list_fmap_compose pid (λ z, Some (VStr ("P" +:+ pretty z)))).
    apply NoDup_fmap_2; [| done].
    intros x y [= Hxy%empty_prefix_inj]. by apply (inj pretty).
  - intros x (p & -> & _)%list_elem_of_fmap (e & Heq & _)%list_elem_of_fmap.
    discriminate Heq.
  - rewrite (list_fmap_compose fst (λ rid, Some (VStr ("R" +:+ rid)))).
    apply NoDup_fmap_2; [| by apply own_entries_wf].
    intros x y [= Hxy%empty_prefix_inj]. done.
Qed.

Lemma rag_links_resolve s :
  no_passthrough "id" s → pieces_closed s →
  links_resolve (buildRAGGraph s).
Proof.
  intros [Hproc Hrsrc] Hclosed l Hl.
  assert (∃ key count p rid r,
            p ∈ processes s ∧ (rid, r) ∈ resources s
            ∧ split_key key = (Some (pretty (pid p)), Some rid)
            ∧ (l = allocation_edge key count ∨ l = request_edge key count))
    as (key & count & p & rid & r & Hp & Hr & Hsplit & Hedge).
  { apply elem_of_rag_links in Hl
      as [(key & count & Hin & Hpos & ->) | (key & count & Hin & Hpos & ->)].
    - destruct (Hclosed key count) as (p & rid & r & ? & ? & ?);
        [by left | done |]. exists key, count, p, rid, r. tauto.
    - destruct (Hclosed key count) as (p & rid & r & ? & ? & ?);
        [by right | done |]. exists key, count, p, rid, r. tauto. }
  assert (resolves_to (nodes (buildRAGGraph s)) ("P" +:+ pretty (pid p))
            (process_node p)) as HP.
  { split; [| by apply node_id_process_node, Hproc].
    apply elem_of_rag_nodes. left. by exists p. }
  assert (resolves_to (nodes (buildRAGGraph s)) ("R" +:+ rid)
            (resource_node (rid, r))) as HR.
  { split; [| by apply node_id_resource_node, (Hrsrc rid)].
    apply elem_of_rag_nodes. right. by exists rid, r. }
  destruct Hedge as [-> | ->].
  - unfold allocation_edge. rewrite Hsplit. cbn.
    split; [by exists (process_node p) | by exists (resource_node (rid, r))].
  - unfold request_edge. rewrite Hsplit. cbn.
    split; [by exists (resource_node (rid, r)) | by exists (process_node p)].
Qed.

End resolution.

(** ** The examples of the specification, evaluated *)

(** Cycle annotation: with the cycle [[1, 2]] both nodes of
    [{"1": [2], "2": [1]}] are flagged, with no cycle neither is. *)
Example cycle_annotation :
  (obj_get "inCycle" <$> nodes (buildWFGGraph cyclic_wfg [[1; 2]]))
  = [Some (VBool true); Some (VBool true)]
  ∧ (obj_get "inCycle" <$> nodes (buildWFGGraph cyclic_wfg []))
    = [Some (VBool false); Some (VBool false)].
Proof. split; vm_compute; reflexivity. Qed.

(** Zero-count suppression: a count of 0 gives no link, a count of 3
    gives one link of weight 3. *)
Example zero_count_suppressed :
  links (buildRAGGraph {| processes := []; resources := [];
                          allocation := [("1_A"%string, 0)]; request := [] |})
  = []
  ∧ link_weight <$>
      links (buildRAGGraph {| processes := []; resources := [];
                              allocation := [("1_A"%string, 3)];
                              request := [] |})
    = [Some 3].
Proof. split; vm_compute; reflexivity. Qed.

(** ** The key scheme of the specification and the pieces the code cuts *)

Lemma append_inj_l (p a b : string) : p +:+ a = p +:+ b → a = b.
Proof.
  induction p as [| c p IH]; [done |].
  rewrite !append_cons_l. intros [= H]. by apply IH.
Qed.

Lemma safe_integer_dec_true (z : Z) :
  (- 2 ^ 53 <? z) && (z <? 2 ^ 53) = true → safe_integer z.
Proof.
  intros [H1 H2]%andb_true_iff. apply Z.ltb_lt in H1, H2. by split.
Qed.

Lemma composite_key_split pid rid :
  split_key (composite_key pid rid)
  = (Some (pretty pid), Some (first_segment "_" rid)).
Proof. apply split_key_wellformed. Qed.

Lemma composite_key_plain pid rid :
  plain rid → split_key (composite_key pid rid) = (Some (pretty pid), Some rid).
Proof.
  intros Hplain. by rewrite composite_key_split, first_segment_no_sep.
Qed.

Lemma composite_key_parse pid rid :
  plain rid → parse_key (composite_key pid rid) = (Num pid, Some rid).
Proof.
  intros Hplain. unfold parse_key. rewrite composite_key_plain by done.
  cbn [str_to_string]. by rewrite parseInt_pretty.
Qed.

Lemma composite_key_inj pid rid pid' rid' :
  composite_key pid rid = composite_key pid' rid' → pid = pid' ∧ rid = rid'.
Proof.
  intros Heq. pose proof (f_equal split_key Heq) as Hsplit.
  rewrite !composite_key_split in Hsplit.
  injection Hsplit as Hpid _. apply (inj pretty) in Hpid. subst pid'.
  split; [done |].
  unfold composite_key in Heq. by do 2 apply append_inj_l in Heq.
Qed.

Lemma key_refers_pieces s key : key_refers s key → pieces_listed s key.
Proof.
  intros (p & rid & r & Hp & Hr & [_ ->] & Hplain).
  exists p, rid, r. split_and!; [done | done |]. by apply composite_key_plain.
Qed.

Lemma referentially_closed_pieces s : referentially_closed s → pieces_closed s.
Proof.
  intros Hclosed key count Hin Hpos.
  by apply key_refers_pieces, (Hclosed key count).
Qed.

Lemma decimal_key_canonical k : decimal_key k → canonical_key k.
Proof.
  intros (z & _ & ->). unfold canonical_key. by rewrite parseInt_pretty.
Qed.

(** Under the key scheme the two loops of the derivation find exactly the
    blockers of the specification, and only for integer pids. *)
Lemma plainly_keyed_found s src holder :
  plainly_keyed s → found_blocker s src holder →
  ∃ pid h, src = Num pid ∧ holder = Num h ∧ blocker s pid h.
Proof.
  intros Hkeys (key & need & rid & allocKey & alloc
                & Hreq & Hneed & Hparse & Halloc & Hpos & Hparse' & Hneq).
  destruct (Hkeys key need (or_intror Hreq) Hneed)
    as (pid & r & [_ ->] & Hplain).
  destruct (Hkeys allocKey alloc (or_introl Halloc) Hpos)
    as (h & r' & [_ ->] & Hplain').
  rewrite composite_key_parse in Hparse, Hparse' by done.
  assert (src = Num pid ∧ rid = Some r) as [-> ->].
  { by injection Hparse as <- <-. }
  assert (holder = Num h ∧ r' = r) as [-> ->].
  { by injection Hparse' as <- <-. }
  exists pid, h. split_and!; [done | done |].
  exists r, need, alloc. split_and!; try done. by apply strict_neq_num.
Qed.

Lemma plainly_keyed_blocker s pid holder :
  plainly_keyed s →
  found_blocker s (Num pid) (Num holder) ↔ blocker s pid holder.
Proof.
  intros Hkeys. split.
  - intros (p & h & [= <-] & [= <-] & Hb)%plainly_keyed_found; done.
  - intros (rid & need & alloc & Hreq & Hneed & Halloc & Hpos & Hne).
    destruct (Hkeys _ need (or_intror Hreq) Hneed)
      as (p & r & [_ Heq] & Hplain).
    apply composite_key_inj in Heq as [<- <-].
    exists (composite_key pid rid), need, (Some rid),
      (composite_key holder rid), alloc.
    split_and!; try done.
    + by apply composite_key_parse.
    + by apply composite_key_parse.
    + by apply strict_neq_num.
Qed.

(** The exception of the force layout, as a property of the graph. *)
Lemma existsb_has_id (ns : list Node) (end_id : string) :
  existsb (has_id end_id) ns = true ↔ ∃ n, resolves_to ns end_id n.
Proof.
  rewrite existsb_exists. unfold resolves_to, has_id. split.
  - intros (n & Hn%list_elem_of_In & Hid). exists n. split; [done |].
    destruct (node_id n) as [[| | | s | |] |]; try done.
    by apply bool_decide_eq_true in Hid as ->.
  - intros (n & Hn & Hid). exists n. split; [by apply list_elem_of_In |].
    rewrite Hid. by apply bool_decide_eq_true.
Qed.

Lemma forceLink_resolves (g : Graph) : forceLink g = true ↔ links_resolve g.
Proof.
  unfold forceLink, links_resolve. rewrite forallb_forall. split.
  - intros Hall l Hl%list_elem_of_In.
    specialize (Hall l Hl). apply andb_true_iff in Hall as [Hs Ht].
    by rewrite !existsb_has_id in Hs, Ht.
  - intros Hall l Hl%list_elem_of_In.
    destruct (Hall l Hl) as [Hs Ht]. apply andb_true_iff.
    by rewrite !existsb_has_id.
Qed.

(** ** Properties of the comparison *)

Lemma filter_fmap_none {A B} (P : B → Prop) `{!∀ y, Decision (P y)}
    (f : A → B) (xs : list A) :
  (∀ x, ¬ P (f x)) → filter P (f <$> xs) = [].
Proof.
  intros Hf. induction xs as [| x xs IH]; [done |].
  rewrite fmap_cons, filter_cons, decide_False by apply Hf. exact IH.
Qed.

Lemma cycle_entries_of_sections a b :
  filter is_cycle_entry (displayDifferences a b) = cycle_change a b.
Proof.
  rewrite displayDifferences_sections, !filter_app.
  unfold process_additions, process_removals.
  rewrite !filter_fmap_none.
  2: { intros x [H | H]; discriminate H. }
  2: { intros x [H | H]; discriminate H. }
  unfold cycle_change, allocation_change, request_change.
  repeat case_decide; rewrite ?filter_cons, ?filter_nil; cbn [app];
    repeat match goal with
    | |- context [decide (is_cycle_entry (count_entry ?w ?x ?y))] =>
        rewrite (decide_False (P := is_cycle_entry (count_entry w x y)))
          by (intros [H | H]; discriminate H)
    | |- context [decide (is_cycle_entry (cycle_entry ?x ?y))] =>
        rewrite (decide_True (P := is_cycle_entry (cycle_entry x y)))
          by (unfold is_cycle_entry, cycle_entry; cbn;
              destruct (0 <? _); [by left | by right])
    end; reflexivity.
Qed.

(** C1 (as amended).  When the two cycle counts differ, the comparison
    holds exactly one cycle-count entry, placed after the process entries
    and before the allocation and request entries.  Its style class is
    [added], with the check-mark icon, when the count went down (negative
    delta), and [removed], with the warning icon, when the count went up
    (positive delta); its text reports the old count, the new count and the
    signed delta. *)
Theorem C1_cycle_entry_class (a b : SavedView) :
  cycle_count a ≠ cycle_count b →
  let delta := cycle_count b - cycle_count a in
  ∃ e,
    filter is_cycle_entry (displayDifferences a b) = [e]
    ∧ displayDifferences a b
      = process_additions a b ++ process_removals a b ++ [e]
        ++ allocation_change a b ++ request_change a b
    ∧ (delta < 0 →
       diff_type e = added ∧ icon e = "fas fa-check-circle"%string)
    ∧ (0 < delta →
       diff_type e = removed ∧ icon e = "fas fa-exclamation-triangle"%string)
    ∧ text e
      = "Deadlock cycles changed from " +:+ pretty (cycle_count a) +:+ " to "
        +:+ pretty (cycle_count b) +:+ " ("
        +:+ (if 0 <? delta then "+" else "") +:+ pretty delta +:+ ")".
Proof.
  intros Hne delta. exists (cycle_entry (cycle_count a) (cycle_count b)).
  rewrite cycle_entries_of_sections, displayDifferences_sections.
  unfold cycle_change. rewrite decide_False by done.
  split_and!; [done | done | | | done].
  - intros Hneg. unfold cycle_entry. cbn.
    assert ((0 <? cycle_count b - cycle_count a) = false) as ->; [| done].
    apply Z.ltb_ge. unfold delta in Hneg. lia.
  - intros Hpos. unfold cycle_entry. cbn.
    assert ((0 <? cycle_count b - cycle_count a) = true) as ->; [| done].
    by apply Z.ltb_lt.
Qed.

Lemma C1_cycle_entry_class_witness :
  ∃ e,
    filter is_cycle_entry (displayDifferences deadlocked recovered) = [e]
    ∧ diff_type e = added.
Proof.
  destruct (C1_cycle_entry_class deadlocked recovered) as (e & He & _ & Hneg & _).
  - vm_compute. discriminate.
  - exists e. split; [exact He |]. apply Hneg. vm_compute. reflexivity.
Defined.

(** C1 as stated fails: going from one cycle to none (delta -1) gives an
    entry of class [added], not [removed], and going from none to one
    (delta +1) gives an entry of class [removed], not [added]. *)
Lemma C1_counterexample :
  (cycle_count recovered - cycle_count deadlocked < 0)
  ∧ (∃ e, filter is_cycle_entry (displayDifferences deadlocked recovered) = [e]
          ∧ diff_type e ≠ removed)
  ∧ (0 < cycle_count deadlocked - cycle_count recovered)
  ∧ (∃ e, filter is_cycle_entry (displayDifferences recovered deadlocked) = [e]
          ∧ diff_type e ≠ added).
Proof.
  split_and!.
  - vm_compute. reflexivity.
  - eexists. split; [vm_compute; reflexivity | discriminate].
  - vm_compute. reflexivity.
  - eexists. split; [vm_compute; reflexivity | discriminate].
Qed.

(** C2 (as amended).  A key with no separator does not stop either
    build: no error exists in the builders, which are total.  Such a key
    splits into the whole key as pid string and [undefined] as resource id.
    With a positive count the allocation graph holds a link for it between
    [P<key>] and [Rundefined] (an allocation link from the process end, a
    request link towards it), and in the derived wait-for graph a request
    under such a key waits for the holder of every positive allocation whose
    key has no separator either and parses to another pid. *)
Theorem C2_key_without_separator (s : Snapshot) (key : string) (count : Z) :
  contains "_" key = false → 0 < count →
  split_key key = (Some key, None)
  ∧ parse_key key = (parseInt key, None)
  ∧ ((key, count) ∈ allocation s →
     {| link_source := "P" +:+ key;
        link_target := "Rundefined";
        link_type := allocation_link;
        link_weight := Some count;
        link_id := "alloc_" +:+ key |} ∈ links (buildRAGGraph s))
  ∧ ((key, count) ∈ request s →
     {| link_source := "Rundefined";
        link_target := "P" +:+ key;
        link_type := request_link;
        link_weight := Some count;
        link_id := "req_" +:+ key |} ∈ links (buildRAGGraph s))
  ∧ ((key, count) ∈ request s →
     ∀ allocKey alloc,
       (allocKey, alloc) ∈ allocation s → 0 < alloc →
       contains "_" allocKey = false →
       strict_neq (parseInt allocKey) (parseInt key) = true →
       waits_for (buildWFGFromSnapshot s) (parseInt key) (parseInt allocKey)).
Proof.
  intros Hkey Hpos.
  pose proof (split_key_no_sep key Hkey) as Hsplit.
  assert (parse_key key = (parseInt key, None)) as Hparse.
  { unfold parse_key. by rewrite Hsplit. }
  split_and!.
  - exact Hsplit.
  - exact Hparse.
  - intros Hin. apply elem_of_rag_links. left. exists key, count.
    split_and!; [done | done |]. unfold allocation_edge. by rewrite Hsplit.
  - intros Hin. apply elem_of_rag_links. right. exists key, count.
    split_and!; [done | done |]. unfold request_edge. by rewrite Hsplit.
  - intros Hin allocKey alloc Halloc Hapos HallocKey Hneq.
    apply derived_edges. exists key, count, None, allocKey, alloc.
    split_and!; try done.
    unfold parse_key. by rewrite (split_key_no_sep allocKey HallocKey).
Qed.

Lemma C2_key_without_separator_witness :
  {| link_source := "P1A";
     link_target := "Rundefined";
     link_type := allocation_link;
     link_weight := Some 1;
     link_id := "alloc_1A" |} ∈ links (buildRAGGraph unseparated_snapshot).
Proof.
  apply (C2_key_without_separator unseparated_snapshot "1A" 1).
  - reflexivity.
  - lia.
  - apply list_elem_of_singleton. reflexivity.
Defined.

(** C2 as stated fails: the allocation key [1A] has no separator, yet the
    build returns a graph, and that graph holds a link for the key; in the
    same way the derived wait-for graph holds an edge for the request key
    [1A] and the allocation key [2B]. *)
Lemma C2_counterexample :
  contains "_" "1A" = false
  ∧ ("1A"%string, 1) ∈ allocation unseparated_snapshot
  ∧ links (buildRAGGraph unseparated_snapshot)
    = [ {| link_source := "P1A"; link_target := "Rundefined";
           link_type := allocation_link; link_weight := Some 1;
           link_id := "alloc_1A" |} ]
  ∧ buildWFGFromSnapshot unseparated_pair = [("1"%string, [Num 2])]
  ∧ links (buildWFGGraph (buildWFGFromSnapshot unseparated_pair) [])
    = [wfg_edge "1" (Num 2)].
Proof.
  split_and!; try (vm_compute; reflexivity).
  apply list_elem_of_singleton. reflexivity.
Qed.

(** ** Properties of the hover handler *)

(** C3 (as amended).  For every list of links and every hovered node id,
    the handler selects exactly the links whose source or target is that
    id, in order; the highlighted link ids are the ids of the selected
    links; the highlighted node set is duplicate-free and holds exactly the
    end points of the selected links.  The hovered id itself is in the node
    set exactly when some link is selected; with no incident link both
    results are empty, and nothing is raised. *)
Theorem C3_hover_neighbourhood (ls : list Link) (d : string) :
  connectedLinks (mouseover ls d) = filter (incident d) ls
  ∧ highlighted_links (mouseover ls d) = link_id <$> filter (incident d) ls
  ∧ NoDup (connectedNodes (mouseover ls d))
  ∧ (∀ x, x ∈ connectedNodes (mouseover ls d) ↔
       ∃ l, l ∈ ls ∧ incident d l ∧ (x = link_source l ∨ x = link_target l))
  ∧ (d ∈ connectedNodes (mouseover ls d) ↔ ∃ l, l ∈ ls ∧ incident d l)
  ∧ ((∀ l, l ∈ ls → ¬ incident d l) →
     mouseover ls d = {| connectedNodes := []; connectedLinks := [] |}).
Proof.
  destruct (mouseover_nodes ls d) as [Hnd Hin].
  assert (∀ x, x ∈ connectedNodes (mouseover ls d) ↔
       ∃ l, l ∈ ls ∧ incident d l ∧ (x = link_source l ∨ x = link_target l))
    as Hin'.
  { intros x. rewrite Hin. setoid_rewrite list_elem_of_filter.
    split; intros (l & ?); exists l; tauto. }
  split_and!.
  - apply mouseover_links.
  - unfold highlighted_links. by rewrite mouseover_links.
  - exact Hnd.
  - exact Hin'.
  - rewrite Hin'. split.
    + intros (l & Hl & Hi & _). by exists l.
    + intros (l & Hl & Hi). exists l. split_and!; [done | done |].
      destruct Hi as [<- | <-]; [by left | by right].
  - intros Hnone.
    assert (filter (incident d) ls = []) as Hnil.
    { by apply filter_none. }
    pose proof (mouseover_links ls d) as Hlinks. rewrite Hnil in Hlinks.
    destruct (mouseover ls d) as [ns cl]. cbn in *. f_equal; [| done].
    destruct ns as [| x ns]; [done |].
    destruct (proj1 (Hin x)) as (l & Hl & _); [apply elem_of_cons; by left |].
    rewrite Hnil in Hl. by apply elem_of_nil in Hl.
Qed.

Lemma C3_hover_neighbourhood_witness :
  mouseover (links chain) "P3" = {| connectedNodes := []; connectedLinks := [] |}.
Proof.
  apply C3_hover_neighbourhood.
  intros l Hl. vm_compute in Hl.
  repeat (apply elem_of_cons in Hl as [-> | Hl]; [intros [H | H]; discriminate H |]).
  by apply elem_of_nil in Hl.
Defined.

(** C3 as stated fails: when process 3 of the chain, which has no
    incident link, is hovered, the node set is empty and so does not hold
    the hovered id. *)
Lemma C3_counterexample :
  (∀ l, l ∈ links chain → ¬ incident "P3" l)
  ∧ connectedNodes (mouseover (links chain) "P3") = []
  ∧ connectedNodes (mouseover (links chain) "P3") ≠ ["P3"%string]
  ∧ "P3"%string ∉ connectedNodes (mouseover (links chain) "P3").
Proof.
  split_and!.
  - intros l Hl. vm_compute in Hl.
    repeat (apply elem_of_cons in Hl as [-> | Hl]; [intros [H | H]; discriminate H |]).
    by apply elem_of_nil in Hl.
  - vm_compute. reflexivity.
  - vm_compute. discriminate.
  - vm_compute. apply not_elem_of_nil.
Qed.

(** The example of the specification: hovering [P1] in the chain keeps
    [P1] and [R1], with the allocation link between them, and leaves out
    [P3]. *)
Example hover_chain_P1 :
  connectedNodes (mouseover (links chain) "P1") = ["P1"; "R1"]%string
  ∧ highlighted_links (mouseover (links chain) "P1") = ["alloc_1_1"%string].
Proof. split; vm_compute; reflexivity. Qed.

(** ** Capture of a snapshot *)

Lemma json_clone_fresh l h l' h' :
  json_clone l h = Some (l', h') →
  l' = length h ∧ ∃ c, h' = h ++ [c].
Proof.
  unfold json_clone, alloc.
  destruct (h !! l) as [[s | w | w | cs | c] |] eqn:Hl; intros [= <- <-];
    (split; [done | by eexists]).
Qed.

Lemma spread_array_fresh l h l' h' :
  spread_array l h = Some (l', h') →
  l' = length h ∧ ∃ cs, h !! l = Some (CCycles cs) ∧ h' = h ++ [CCycles cs].
Proof.
  unfold spread_array, alloc.
  destruct (h !! l) as [[s | w | w | cs | c] |] eqn:Hl; intros [= <- <-].
  split; [done | by eexists].
Qed.

(** What the capture holds apart: every store to a cell that existed
    before the capture (as every cell of the live state did) leaves the
    captured snapshot tree, the captured wait-for graph and the captured
    outer array of cycles as they were. *)
Lemma saveSnapshot_fresh_cells now iso app h app' h' :
  saveSnapshot now iso app h = Some (app', h') →
  is_Some (currentSnapshot app) →
  ∃ sv,
    savedSnapshots app' = savedSnapshots app ++ [sv]
    ∧ ∀ l c, (l < length h)%nat →
        read_snapshot (data sv) (store l c h') = read_snapshot (data sv) h'
        ∧ store l c h' !! cycles sv = h' !! cycles sv
        ∧ ∀ wl, wfg sv = Some wl →
                read_wfg wl (store l c h') = read_wfg wl h'.
Proof.
  unfold saveSnapshot. intros Hsave [sl Hsl]. rewrite Hsl in Hsave.
  destruct (json_clone sl h) as [[dl h1] |] eqn:Hdata; [| done].
  cbn in Hsave.
  apply json_clone_fresh in Hdata as (-> & c1 & ->).
  assert (∃ cl h2 c2, h2 = (h ++ [c1]) ++ [c2] ∧ cl = length (h ++ [c1])
            ∧ match currentCycles app with
              | Some cycles_loc => spread_array cycles_loc (h ++ [c1])
              | None => Some (alloc (CCycles []) (h ++ [c1]))
              end = Some (cl, h2)) as (cl & h2 & c2 & -> & -> & Hcyc).
  { destruct (currentCycles app) as [cycles_loc |].
    - destruct (spread_array cycles_loc (h ++ [c1])) as [[cl h2] |] eqn:Hsp;
        [| done].
      apply spread_array_fresh in Hsp as (-> & cs & _ & ->). by eexists _, _, _.
    - by eexists _, _, _. }
  rewrite Hcyc in Hsave. cbn in Hsave.
  destruct (currentWFG app) as [wfg_loc |].
  - destruct (json_clone wfg_loc ((h ++ [c1]) ++ [c2])) as [[wl h3] |] eqn:Hw;
      [| done].
    cbn in Hsave. injection Hsave as <- <-.
    apply json_clone_fresh in Hw as (-> & c3 & ->).
    eexists. split; [reflexivity |]. cbn [data cycles wfg].
    intros l c Hl. unfold read_snapshot, read_wfg, store.
    rewrite !length_app in *. cbn [length] in *.
    split_and!.
    + by rewrite list_lookup_insert_ne by lia.
    + by rewrite list_lookup_insert_ne by lia.
    + intros wl [= <-]. by rewrite list_lookup_insert_ne by lia.
  - cbn in Hsave. injection Hsave as <- <-.
    eexists. split; [reflexivity |]. cbn [data cycles wfg].
    intros l c Hl. unfold read_snapshot, read_wfg, store.
    rewrite !length_app in *. cbn [length] in *.
    split_and!.
    + by rewrite list_lookup_insert_ne by lia.
    + by rewrite list_lookup_insert_ne by lia.
    + intros wl [=].
Qed.

(** C4, evaluated where it fails.  The live state holds the cycle
    [[1, 2]].  A capture is taken; it reads back the snapshot, the cycles
    [[[1, 2]]] and the wait-for graph.  Then [currentCycles[0].push(3)] is
    performed on the live state, a store to cell 1.  The capture now reads
    back the cycles [[[1, 2, 3]]]: the outer array was copied, the cycle
    arrays are shared.  Its snapshot and wait-for graph are unchanged. *)
Theorem C4_cycle_arrays_shared :
  ∃ app' h' sv v,
    saveSnapshot 1767225600000 "2026-01-01T00:00:00.000Z" live_app live_heap
    = Some (app', h')
    ∧ savedSnapshots app' = [sv]
    ∧ read_saved sv h' = Some v
    ∧ view_data v = blocking_snapshot
    ∧ view_cycles v = [[1; 2]]
    ∧ view_wfg v = Some cyclic_wfg
    ∧ live app' h' 1%nat
    ∧ ∃ v',
        read_saved sv (store 1%nat (CCycle [1; 2; 3]) h') = Some v'
        ∧ view_cycles v' = [[1; 2; 3]]
        ∧ view_cycles v' ≠ view_cycles v
        ∧ view_data v' = view_data v
        ∧ view_wfg v' = view_wfg v.
Proof.
  eexists _, _, _, _. split; [vm_compute; reflexivity |].
  split; [reflexivity |]. split; [vm_compute; reflexivity |].
  split_and!; try reflexivity.
  - right. right. right. exists 2%nat, [1%nat].
    split_and!; [reflexivity | reflexivity |].
    apply list_elem_of_singleton. reflexivity.
  - eexists. split; [vm_compute; reflexivity |].
    split_and!; try reflexivity. discriminate.
Qed.

(** ** Properties of the composite keys *)

(** What the builders make of a key [<pid>_<rest>], where [<pid>] is the
    decimal form of an integer: the pid string is the part before the first
    separator and the resource id is the part of [<rest>] before its first
    separator, that is, the piece between the first and the second
    separator of the key; it is all of [<rest>] when [<rest>] holds no
    separator.  The links of the allocation graph and the derived wait-for
    graph are built from this pid and this resource id. *)
Lemma key_pieces (z : Z) (rest : string) (count : Z) :
  let key := pretty z +:+ "_" +:+ rest in
  let rid := first_segment "_" rest in
  split_key key = (Some (pretty z), Some rid)
  ∧ parse_key key = (Num z, Some rid)
  ∧ (contains "_" rest = false → rid = rest)
  ∧ allocation_edge key count
    = {| link_source := "P" +:+ pretty z;
         link_target := "R" +:+ rid;
         link_type := allocation_link;
         link_weight := Some count;
         link_id := "alloc_" +:+ key |}
  ∧ request_edge key count
    = {| link_source := "R" +:+ rid;
         link_target := "P" +:+ pretty z;
         link_type := request_link;
         link_weight := Some count;
         link_id := "req_" +:+ key |}
  ∧ (∀ s, (key, count) ∈ allocation s → 0 < count →
          allocation_edge key count ∈ links (buildRAGGraph s))
  ∧ (∀ s, (key, count) ∈ request s → 0 < count →
          request_edge key count ∈ links (buildRAGGraph s))
  ∧ (∀ s allocKey alloc holder,
       (key, count) ∈ request s → 0 < count →
       (allocKey, alloc) ∈ allocation s → 0 < alloc →
       parse_key allocKey = (Num holder, Some rid) → holder ≠ z →
       waits_for (buildWFGFromSnapshot s) (Num z) (Num holder)).
Proof.
  intros key rid.
  assert (split_key key = (Some (pretty z), Some rid)) as Hsplit.
  { apply split_key_wellformed. }
  assert (parse_key key = (Num z, Some rid)) as Hparse.
  { unfold parse_key. rewrite Hsplit. cbn [str_to_string].
    by rewrite parseInt_pretty. }
  split_and!.
  - exact Hsplit.
  - exact Hparse.
  - apply first_segment_no_sep.
  - unfold allocation_edge. by rewrite Hsplit.
  - unfold request_edge. by rewrite Hsplit.
  - intros s Hin Hpos. apply elem_of_rag_links. left. by exists key, count.
  - intros s Hin Hpos. apply elem_of_rag_links. right. by exists key, count.
  - intros s allocKey alloc holder Hreq Hpos Halloc Hapos Hparse' Hne.
    apply derived_edges. exists key, count, (Some rid), allocKey, alloc.
    split_and!; try done. by apply strict_neq_num.
Qed.

(** C5, evaluated where it fails.  In the key [1_A_B] the remainder
    after the first separator is [A_B]; the claim takes that as the resource
    id.  The builders cut the key at every separator and keep the first two
    pieces, so the resource id they use is [A]: the allocation graph gets
    links to and from [RA] (never [RA_B] or [RA_C]), and the derived
    wait-for graph makes process 1, which requests [A_B], wait for process
    2, which holds the other resource [A_C]. *)
Theorem C5_rid_cut_at_second_separator :
  split_key "1_A_B" = (Some "1"%string, Some "A"%string)
  ∧ parse_key "1_A_B" = (Num 1, Some "A"%string)
  ∧ link_target (allocation_edge "1_A_B" 1) = "RA"%string
  ∧ link_target (allocation_edge "1_A_B" 1) ≠ "RA_B"%string
  ∧ links (buildRAGGraph underscored_snapshot)
    = [ {| link_source := "P2"; link_target := "RA";
           link_type := allocation_link; link_weight := Some 1;
           link_id := "alloc_2_A_C" |};
        {| link_source := "RA"; link_target := "P1";
           link_type := request_link; link_weight := Some 1;
           link_id := "req_1_A_B" |} ]
  ∧ buildWFGFromSnapshot underscored_snapshot = [("1"%string, [Num 2])].
Proof. split_and!; try (vm_compute; reflexivity). vm_compute. discriminate. Qed.

(** ** Properties of the built graphs *)

(** C6 (as amended).  In a wait-for graph built from any adjacency, node
    ids are pairwise distinct; every link end names a node of the graph when
    the adjacency has each key once and every key is the decimal form of a
    safe integer, and in the graph of the adjacency derived from a snapshot
    when every request key with a positive count is a composite key
    [<pid>_<rid>] with a safe-integer pid.  In an allocation graph, node ids
    are pairwise distinct and every link end names a node when the snapshot
    lists each pid once, no entry carries a pass-through [id] property, and
    every key with a positive count is the composite key of a listed
    process, with a safe-integer pid, and of a listed resource whose id
    holds no underscore. *)
Theorem C6_graph_invariant (cycles : list (list Z)) :
  (∀ s : Snapshot,
     NoDup (pid <$> processes s) → wf_obj (resources s) →
     no_passthrough "id" s → referentially_closed s →
     links_resolve (buildRAGGraph s) ∧ unique_node_ids (buildRAGGraph s))
  ∧ (∀ w : WFG, unique_node_ids (buildWFGGraph w cycles))
  ∧ (∀ w : WFG,
       wf_obj w → (∀ k, k ∈ w.*1 → decimal_key k) →
       links_resolve (buildWFGGraph w cycles))
  ∧ (∀ s : Snapshot,
       requests_in_format s →
       links_resolve (buildWFGGraph (buildWFGFromSnapshot s) cycles)
       ∧ unique_node_ids (buildWFGGraph (buildWFGFromSnapshot s) cycles)).
Proof.
  split_and!.
  - intros s Hpids Hres Hid Hclosed%referentially_closed_pieces.
    split; [by apply rag_links_resolve | by apply rag_unique_ids].
  - intros w. apply wfg_unique_ids.
  - intros w Hwf Hkeys. apply wfg_links_resolve; [done |].
    intros k Hk. by apply decimal_key_canonical, Hkeys.
  - intros s _. split; [apply derived_links_resolve | apply wfg_unique_ids].
Qed.

Lemma C6_graph_invariant_witness :
  (links_resolve chain ∧ unique_node_ids chain)
  ∧ links_resolve (buildWFGGraph cyclic_wfg [[1; 2]])
  ∧ links_resolve (buildWFGGraph (buildWFGFromSnapshot blocking_snapshot)
                     [[1; 2]]).
Proof.
  destruct (C6_graph_invariant [[1; 2]]) as (Hrag & _ & Hwfg & Hderived).
  split; [| split].
  - apply (Hrag chain_snapshot).
    + apply (bool_decide_unpack _). vm_compute. exact I.
    + unfold wf_obj. apply (bool_decide_unpack _). vm_compute. exact I.
    + split.
      * intros p Hp. cbn in Hp.
        repeat (apply elem_of_cons in Hp as [-> | Hp]; [reflexivity |]).
        by apply elem_of_nil in Hp.
      * intros rid r Hr. cbn in Hr.
        repeat (apply elem_of_cons in Hr as [[= -> ->] | Hr]; [reflexivity |]).
        by apply elem_of_nil in Hr.
    + intros key count [Hin | Hin] _; cbn in Hin;
        apply list_elem_of_singleton in Hin as [= -> ->].
      * exists (proc 1), "1"%string, (res 1). split_and!.
        -- apply elem_of_cons. by left.
        -- apply elem_of_cons. by left.
        -- split; [by apply safe_integer_dec_true | reflexivity].
        -- reflexivity.
      * exists (proc 2), "1"%string, (res 1). split_and!.
        -- apply elem_of_cons. right. apply elem_of_cons. by left.
        -- apply elem_of_cons. by left.
        -- split; [by apply safe_integer_dec_true | reflexivity].
        -- reflexivity.
  - apply (Hwfg cyclic_wfg).
    + unfold wf_obj. apply (bool_decide_unpack _). vm_compute. exact I.
    + intros k Hk. cbn in Hk.
      apply elem_of_cons in Hk as [-> | Hk].
      { exists 1. split; [by apply safe_integer_dec_true | reflexivity]. }
      apply elem_of_cons in Hk as [-> | Hk].
      { exists 2. split; [by apply safe_integer_dec_true | reflexivity]. }
      by apply elem_of_nil in Hk.
  - apply (Hderived blocking_snapshot).
    intros key need Hin _. cbn in Hin.
    apply list_elem_of_singleton in Hin as [= -> ->].
    exists 1, "A"%string.
    split; [by apply safe_integer_dec_true | reflexivity].
Defined.

(** C6 as stated fails: the allocation graph of a snapshot whose only
    allocation key names an unlisted process and resource has a link and no
    node; a snapshot that lists pid 1 twice gives two nodes with the id
    [P1]; a listed process whose entry has its own [id] property gives a
    node with that id, so the link from [P1] names no node; an adjacency
    with the key [01] gives a link from [P01] while the node is [P1]. *)
Lemma C6_counterexample :
  ¬ links_resolve (buildRAGGraph dangling_snapshot)
  ∧ ¬ unique_node_ids (buildRAGGraph twin_snapshot)
  ∧ ¬ links_resolve (buildRAGGraph aliased_snapshot)
  ∧ ¬ links_resolve (buildWFGGraph padded_wfg []).
Proof.
  split_and!.
  - intros Hres.
    destruct (Hres (allocation_edge "1_A" 1)) as [(n & Hn & _) _].
    + vm_compute. apply list_elem_of_singleton. reflexivity.
    + vm_compute in Hn. by apply elem_of_nil in Hn.
  - unfold unique_node_ids. vm_compute.
    intros Hnd. apply NoDup_cons in Hnd as [Hnotin _].
    apply Hnotin. apply list_elem_of_singleton. reflexivity.
  - intros Hres.
    destruct (Hres (allocation_edge "1_A" 1)) as [(n & Hn & Hid) _].
    + vm_compute. apply list_elem_of_singleton. reflexivity.
    + vm_compute in Hn.
      repeat (apply elem_of_cons in Hn as [-> | Hn]; [discriminate Hid |]).
      by apply elem_of_nil in Hn.
  - intros Hres.
    destruct (Hres (wfg_edge "01" (Num 2))) as [(n & Hn & Hid) _].
    + vm_compute. apply list_elem_of_singleton. reflexivity.
    + vm_compute in Hn.
      repeat (apply elem_of_cons in Hn as [-> | Hn]; [discriminate Hid |]).
      by apply elem_of_nil in Hn.
Qed.

Lemma rag_node_kind s x n :
  no_passthrough "id" s → no_passthrough "type" s →
  n ∈ nodes (buildRAGGraph s) →
  (node_id n = Some (VStr ("P" +:+ x)) → node_type n = Some (VStr "process"))
  ∧ (node_id n = Some (VStr ("R" +:+ x)) → node_type n = Some (VStr "resource")).
Proof.
  intros [Hpid Hrid] [Hptype Hrtype] Hn.
  apply elem_of_rag_nodes in Hn as [(p & Hp & ->) | (rid & r & Hr & ->)].
  - rewrite node_id_process_node, node_type_process_node
      by (by apply Hpid || by apply Hptype).
    split; [done | intros Heq; discriminate Heq].
  - rewrite node_id_resource_node, node_type_resource_node
      by (by apply (Hrid rid) || by apply (Hrtype rid)).
    split; [intros Heq; discriminate Heq | done].
Qed.

(** C7 (as amended).  Provided no process or resource entry carries a
    pass-through [id] or [type] property: every link of an allocation graph
    is an allocation link from an id [P...] to an id [R...] or a request
    link from an id [R...] to an id [P...], with the ends swapped for the
    same key; every node that an end [P...] names has type [process] and
    every node that an end [R...] names has type [resource]; and when every
    key with a positive count is the composite key of a listed process,
    with a safe-integer pid, and of a listed resource whose id holds no
    underscore, both ends name a node.  In a wait-for graph built from any
    adjacency every link is a wait-for link between two ids [P...] and every
    node has type [process]; both ends name a node when the adjacency has
    each key once and its keys are decimal forms of safe integers. *)
Theorem C7_edge_directions :
  (∀ s : Snapshot,
     no_passthrough "id" s → no_passthrough "type" s →
     ∀ l, l ∈ links (buildRAGGraph s) →
       ∃ pidStr rid,
         ((link_type l = allocation_link
           ∧ link_source l = "P" +:+ pidStr ∧ link_target l = "R" +:+ rid)
          ∨ (link_type l = request_link
             ∧ link_source l = "R" +:+ rid ∧ link_target l = "P" +:+ pidStr))
         ∧ (∀ n, resolves_to (nodes (buildRAGGraph s)) ("P" +:+ pidStr) n →
                 node_type n = Some (VStr "process"))
         ∧ (∀ n, resolves_to (nodes (buildRAGGraph s)) ("R" +:+ rid) n →
                 node_type n = Some (VStr "resource"))
         ∧ (referentially_closed s →
            (∃ n, resolves_to (nodes (buildRAGGraph s)) ("P" +:+ pidStr) n)
            ∧ (∃ n, resolves_to (nodes (buildRAGGraph s)) ("R" +:+ rid) n)))
  ∧ (∀ key c c',
       link_source (request_edge key c) = link_target (allocation_edge key c')
       ∧ link_target (request_edge key c) = link_source (allocation_edge key c'))
  ∧ (∀ (w : WFG) (cycles : list (list Z)),
       (∀ l, l ∈ links (buildWFGGraph w cycles) →
          link_type l = wait_for_link
          ∧ ∃ src target, link_source l = "P" +:+ src
                          ∧ link_target l = "P" +:+ target)
       ∧ (∀ n, n ∈ nodes (buildWFGGraph w cycles) →
               node_type n = Some (VStr "process"))
       ∧ (wf_obj w → (∀ k, k ∈ w.*1 → decimal_key k) →
          links_resolve (buildWFGGraph w cycles))).
Proof.
  split_and!.
  - intros s Hid Htype l Hl.
    assert (∃ key count,
              l = allocation_edge key count ∨ l = request_edge key count)
      as (key & count & Hedge).
    { apply elem_of_rag_links in Hl
        as [(key & count & _ & _ & ->) | (key & count & _ & _ & ->)];
        exists key, count; tauto. }
    destruct (split_key key) as [pidStr rid] eqn:Hsplit.
    exists (str_to_string pidStr), (str_to_string rid). split_and!.
    + destruct Hedge as [-> | ->]; [left | right].
      * unfold allocation_edge. by rewrite Hsplit.
      * unfold request_edge. by rewrite Hsplit.
    + intros n [Hn Hnid].
      by apply (rag_node_kind s (str_to_string pidStr) n Hid Htype Hn).
    + intros n [Hn Hnid].
      by apply (rag_node_kind s (str_to_string rid) n Hid Htype Hn).
    + intros Hclosed%referentially_closed_pieces.
      destruct (rag_links_resolve s Hid Hclosed l Hl) as [Hsrc Htgt].
      destruct Hedge as [-> | ->].
      * unfold allocation_edge in Hsrc, Htgt. by rewrite Hsplit in Hsrc, Htgt.
      * unfold request_edge in Hsrc, Htgt. by rewrite Hsplit in Hsrc, Htgt.
  - intros key c c'. unfold request_edge, allocation_edge.
    by destruct (split_key key).
  - intros w cycles. split_and!.
    + intros l (src & targets & t & _ & _ & ->)%elem_of_wfg_links.
      split; [done |]. by exists src, (num_to_string t).
    + intros n Hn.
      destruct (wfg_nodes w cycles) as (cn & allPids & Hnodes & _).
      rewrite Hnodes in Hn. by apply list_elem_of_fmap in Hn as (x & -> & _).
    + intros Hwf Hkeys. apply wfg_links_resolve; [done |].
      intros k Hk. by apply decimal_key_canonical, Hkeys.
Qed.

Lemma C7_edge_directions_witness :
  ∃ pidStr rid,
    ((link_type (allocation_edge "1_1" 1) = allocation_link
      ∧ link_source (allocation_edge "1_1" 1) = "P" +:+ pidStr
      ∧ link_target (allocation_edge "1_1" 1) = "R" +:+ rid)
     ∨ (link_type (allocation_edge "1_1" 1) = request_link
        ∧ link_source (allocation_edge "1_1" 1) = "R" +:+ rid
        ∧ link_target (allocation_edge "1_1" 1) = "P" +:+ pidStr))
    ∧ (∀ n, resolves_to (nodes chain) ("P" +:+ pidStr) n →
            node_type n = Some (VStr "process"))
    ∧ (∀ n, resolves_to (nodes chain) ("R" +:+ rid) n →
            node_type n = Some (VStr "resource"))
    ∧ (referentially_closed chain_snapshot →
       (∃ n, resolves_to (nodes chain) ("P" +:+ pidStr) n)
       ∧ (∃ n, resolves_to (nodes chain) ("R" +:+ rid) n)).
Proof.
  apply (proj1 C7_edge_directions chain_snapshot).
  - split.
    + intros p Hp. cbn in Hp.
      repeat (apply elem_of_cons in Hp as [-> | Hp]; [reflexivity |]).
      by apply elem_of_nil in Hp.
    + intros rid r Hr. cbn in Hr.
      repeat (apply elem_of_cons in Hr as [[= -> ->] | Hr]; [reflexivity |]).
      by apply elem_of_nil in Hr.
  - split.
    + intros p Hp. cbn in Hp.
      repeat (apply elem_of_cons in Hp as [-> | Hp]; [reflexivity |]).
      by apply elem_of_nil in Hp.
    + intros rid r Hr. cbn in Hr.
      repeat (apply elem_of_cons in Hr as [[= -> ->] | Hr]; [reflexivity |]).
      by apply elem_of_nil in Hr.
  - vm_compute. apply elem_of_cons. by left.
Defined.

(** C7 as stated fails: a process entry [{pid: 1, type: "resource"}] is
    copied onto its node after the builder's own fields, so the allocation
    link of the key [1_A] starts at the node [P1], whose type is
    [resource]; a process entry [{pid: 1, id: "RA"}] gives a node of type
    [process] with the id [RA], at which the allocation link of the key
    [2_A] ends; and the allocation link of a key that names no listed
    process starts at no node at all. *)
Lemma C7_counterexample :
  (∃ l n,
     l ∈ links (buildRAGGraph mislabelled_snapshot)
     ∧ link_type l = allocation_link
     ∧ resolves_to (nodes (buildRAGGraph mislabelled_snapshot)) (link_source l) n
     ∧ node_type n = Some (VStr "resource"))
  ∧ (∃ l n,
       l ∈ links (buildRAGGraph renamed_snapshot)
       ∧ link_type l = allocation_link
       ∧ resolves_to (nodes (buildRAGGraph renamed_snapshot)) (link_target l) n
       ∧ node_type n = Some (VStr "process"))
  ∧ (∃ l,
       l ∈ links (buildRAGGraph dangling_snapshot)
       ∧ link_type l = allocation_link
       ∧ ∀ n, ¬ resolves_to (nodes (buildRAGGraph dangling_snapshot))
                  (link_source l) n).
Proof.
  split_and!.
  - exists (allocation_edge "1_A" 1),
      (process_node
         {| pid := 1; proc_extra := [("type"%string, VStr "resource")] |}).
    split_and!.
    + vm_compute. apply list_elem_of_singleton. reflexivity.
    + reflexivity.
    + split; [| vm_compute; reflexivity].
      vm_compute. apply elem_of_cons. by left.
    + vm_compute. reflexivity.
  - exists (allocation_edge "2_A" 1),
      (process_node {| pid := 1; proc_extra := [("id"%string, VStr "RA")] |}).
    split_and!.
    + vm_compute. apply list_elem_of_singleton. reflexivity.
    + reflexivity.
    + split; [| vm_compute; reflexivity].
      vm_compute. apply elem_of_cons. by left.
    + vm_compute. reflexivity.
  - exists (allocation_edge "1_A" 1). split_and!.
    + vm_compute. apply list_elem_of_singleton. reflexivity.
    + reflexivity.
    + intros n [Hn _]. vm_compute in Hn. by apply elem_of_nil in Hn.
Qed.

(** ** Properties of the fallback wait-for derivation *)

(** C8.  For a snapshot whose keys with a positive count are composite
    keys [<pid>_<rid>] with safe-integer pids and resource ids without
    underscore, the derived wait-for graph has an edge from [pid] to
    [holder] exactly under the blocking rule of the specification: [pid]
    requests a resource of which another process [holder] holds units.
    This holds of the adjacency and of the links rendered from it, and
    every edge joins two integer pids.  For any snapshot no process waits
    for itself.  Request [{"1_A": 1}] with allocation [{"2_A": 1}] gives
    exactly the edge [P1 -> P2]; with allocation [{"1_A": 1}] it gives no
    edge.  With resource ids that hold an underscore the rule is broken:
    request [{"1_A_B": 1}] with allocation [{"2_A_C": 1}] gives the edge
    [P1 -> P2], although no process holds what another requests. *)
Theorem C8_blocking_rule :
  (∀ s : Snapshot,
     plainly_keyed s →
     (∀ pid holder : Z,
        waits_for (buildWFGFromSnapshot s) (Num pid) (Num holder)
        ↔ blocker s pid holder)
     ∧ (∀ src target : jsnum,
          waits_for (buildWFGFromSnapshot s) src target →
          ∃ pid holder, src = Num pid ∧ target = Num holder)
     ∧ (∀ (cycles : list (list Z)) (pid holder : Z),
          wfg_edge (pretty pid) (Num holder)
            ∈ links (buildWFGGraph (buildWFGFromSnapshot s) cycles)
          ↔ blocker s pid holder))
  ∧ (∀ (s : Snapshot) (pid : Z),
       ¬ waits_for (buildWFGFromSnapshot s) (Num pid) (Num pid))
  ∧ (∀ (s : Snapshot) (cycles : list (list Z)) (pid : Z),
       wfg_edge (pretty pid) (Num pid)
         ∉ links (buildWFGGraph (buildWFGFromSnapshot s) cycles))
  ∧ buildWFGFromSnapshot blocking_snapshot = [("1"%string, [Num 2])]
  ∧ links (buildWFGGraph (buildWFGFromSnapshot blocking_snapshot) [])
    = [wfg_edge "1" (Num 2)]
  ∧ buildWFGFromSnapshot self_block_snapshot = []
  ∧ (waits_for (buildWFGFromSnapshot underscored_snapshot) (Num 1) (Num 2)
     ∧ links (buildWFGGraph (buildWFGFromSnapshot underscored_snapshot) [])
       = [wfg_edge "1" (Num 2)]
     ∧ ∀ pid holder, ¬ blocker underscored_snapshot pid holder).
Proof.
  assert (∀ (s : Snapshot) (cycles : list (list Z)) (pid holder : Z),
       wfg_edge (pretty pid) (Num holder)
         ∈ links (buildWFGGraph (buildWFGFromSnapshot s) cycles)
       ↔ waits_for (buildWFGFromSnapshot s) (Num pid) (Num holder)) as Hlinks.
  { intros s cycles pid holder.
    apply (wfg_link_waits_for _ cycles (Num pid) (Num holder)).
    apply derived_wf. }
  assert (∀ (s : Snapshot) (pid : Z),
       ¬ waits_for (buildWFGFromSnapshot s) (Num pid) (Num pid)) as Hself.
  { intros s pid (key & need & rid & allocKey & alloc
                  & _ & _ & _ & _ & _ & _ & Hneq)%derived_edges.
    by apply strict_neq_num in Hneq. }
  split_and!.
  - intros s Hkeys.
    assert (∀ pid holder : Z,
              waits_for (buildWFGFromSnapshot s) (Num pid) (Num holder)
              ↔ blocker s pid holder) as Hrule.
    { intros pid holder. rewrite derived_edges.
      by apply plainly_keyed_blocker. }
    split_and!.
    + exact Hrule.
    + intros src target Hw%derived_edges.
      destruct (plainly_keyed_found s src target Hkeys Hw)
        as (pid & h & -> & -> & _).
      by exists pid, h.
    + intros cycles pid holder. by rewrite Hlinks.
  - exact Hself.
  - intros s cycles pid Hin%Hlinks. by apply (Hself s pid).
  - vm_compute. reflexivity.
  - vm_compute. reflexivity.
  - vm_compute. reflexivity.
  - apply derived_edges.
    exists "1_A_B"%string, 1, (Some "A"%string), "2_A_C"%string, 1.
    split_and!; try done.
    + apply list_elem_of_singleton. reflexivity.
    + apply list_elem_of_singleton. reflexivity.
  - vm_compute. reflexivity.
  - intros pid holder (rid & need & alloc & Hreq & _ & Halloc & _ & _).
    apply list_elem_of_singleton in Hreq as [= Hkey _].
    apply list_elem_of_singleton in Halloc as [= Hkey' _].
    change "1_A_B"%string with (composite_key 1 "A_B") in Hkey.
    change "2_A_C"%string with (composite_key 2 "A_C") in Hkey'.
    apply composite_key_inj in Hkey as [_ ->].
    apply composite_key_inj in Hkey' as [_ Hrid]. discriminate Hrid.
Qed.

Lemma C8_blocking_rule_witness :
  waits_for (buildWFGFromSnapshot blocking_snapshot) (Num 1) (Num 2)
  ↔ blocker blocking_snapshot 1 2.
Proof.
  apply (proj1 C8_blocking_rule blocking_snapshot).
  intros key count [Hin | Hin] _; cbn in Hin;
    apply list_elem_of_singleton in Hin as [= -> ->].
  - exists 2, "A"%string. split; [| reflexivity].
    split; [by apply safe_integer_dec_true | reflexivity].
  - exists 1, "A"%string. split; [| reflexivity].
    split; [by apply safe_integer_dec_true | reflexivity].
Defined.

(** C9.  The comparison is the concatenation, in this order, of: one
    [added] entry per pid of B's process set that A lacks; one [removed]
    entry per pid of A's process set that B lacks; the cycle-count entry,
    present exactly when the cycle counts differ; the allocation entry,
    present exactly when the numbers of allocation keys differ; the request
    entry, present exactly when the numbers of request keys differ.  It is
    empty exactly when none of these conditions holds, and so is empty when
    a saved snapshot is compared with a copy of itself. *)
Theorem C9_diff_sections_in_order (a b : SavedView) :
  displayDifferences a b
  = process_additions a b ++ process_removals a b ++ cycle_change a b
    ++ allocation_change a b ++ request_change a b
  ∧ (∃ pids, process_additions a b = added_entry <$> pids ∧ NoDup pids
             ∧ ∀ pid, pid ∈ pids ↔ pid ∈ pids_of b ∧ pid ∉ pids_of a)
  ∧ (∃ pids, process_removals a b = removed_entry <$> pids ∧ NoDup pids
             ∧ ∀ pid, pid ∈ pids ↔ pid ∈ pids_of a ∧ pid ∉ pids_of b)
  ∧ (length (cycle_change a b)
     = if decide (length (view_cycles a) = length (view_cycles b))
       then 0%nat else 1%nat)
  ∧ (length (allocation_change a b)
     = if decide (length (own_keys (allocation (view_data a)))
                  = length (own_keys (allocation (view_data b))))
       then 0%nat else 1%nat)
  ∧ (length (request_change a b)
     = if decide (length (own_keys (request (view_data a)))
                  = length (own_keys (request (view_data b))))
       then 0%nat else 1%nat)
  ∧ (displayDifferences a b = [] ↔
       (∀ pid, pid ∈ pids_of a ↔ pid ∈ pids_of b)
       ∧ length (view_cycles a) = length (view_cycles b)
       ∧ length (own_keys (allocation (view_data a)))
         = length (own_keys (allocation (view_data b)))
       ∧ length (own_keys (request (view_data a)))
         = length (own_keys (request (view_data b))))
  ∧ displayDifferences a a = [].
Proof.
  assert (∀ a b, displayDifferences a b = [] ↔
       (∀ pid, pid ∈ pids_of a ↔ pid ∈ pids_of b)
       ∧ length (view_cycles a) = length (view_cycles b)
       ∧ length (own_keys (allocation (view_data a)))
         = length (own_keys (allocation (view_data b)))
       ∧ length (own_keys (request (view_data a)))
         = length (own_keys (request (view_data b)))) as Hempty.
  { clear a b. intros a b. rewrite displayDifferences_sections, !length_own_keys.
    rewrite !app_nil, process_additions_nil, process_removals_nil.
    unfold cycle_change, allocation_change, request_change,
      cycle_count, allocation_count, request_count.
    split.
    - intros (Hadd & Hrem & Hc & Ha & Hr).
      repeat case_decide; try discriminate.
      split_and!; [intros pid; split; auto | lia..].
    - intros (Hp & Hc & Ha & Hr).
      rewrite !decide_True by lia.
      split_and!; try done; intros pid; apply Hp. }
  split_and!.
  - apply displayDifferences_sections.
  - eexists. split; [reflexivity |]. split.
    + apply NoDup_filter, set_of_list_NoDup.
    + intros pid. rewrite list_elem_of_filter, elem_of_set_of_list. tauto.
  - eexists. split; [reflexivity |]. split.
    + apply NoDup_filter, set_of_list_NoDup.
    + intros pid. rewrite list_elem_of_filter, elem_of_set_of_list. tauto.
  - unfold cycle_change, cycle_count. repeat case_decide; try done; lia.
  - rewrite !length_own_keys. unfold allocation_change, allocation_count.
    repeat case_decide; try done; lia.
  - rewrite !length_own_keys. unfold request_change, request_count.
    repeat case_decide; try done; lia.
  - apply Hempty.
  - apply Hempty. done.
Qed.

(** The example of the specification: process sets [1, 2] and [2, 3]
    give one [added] entry for pid 3, then one [removed] entry for pid 1. *)
Example diff_12_23 :
  displayDifferences view_12 view_23 = [added_entry 3; removed_entry 1].
Proof. vm_compute. reflexivity. Qed.

Lemma derived_waits s k targets x :
  (k, targets) ∈ buildWFGFromSnapshot s → x ∈ targets →
  ∃ src, k = num_to_string src ∧ found_blocker s src x.
Proof.
  intros Hin Hx. destruct (derived_wf s) as [Hwf Hkeys].
  destruct (Hkeys k) as [src ->].
  { apply list_elem_of_fmap. by exists (k, targets). }
  exists src. split; [done |]. apply derived_edges. exists targets.
  split; [by apply elem_obj_get | done].
Qed.

(** C10 (as amended).  For a snapshot whose keys with a positive count
    are composite keys [<pid>_<rid>] with safe-integer pids and resource ids
    without underscore: every entry of the derived adjacency belongs to a
    process that has a blocker, and its target list, which is not empty,
    holds exactly the blockers of that process.  A process without blocker
    has no entry and is the source of no rendered link; it has a node in the
    rendered wait-for graph, and is the target of a rendered link, exactly
    when it is a blocker of some process. *)
Theorem C10_entry_only_with_blocker (s : Snapshot) :
  plainly_keyed s →
  (∀ k targets,
     (k, targets) ∈ buildWFGFromSnapshot s →
     targets ≠ []
     ∧ ∃ pid, k = pretty pid
              ∧ ∀ x, x ∈ targets ↔ ∃ holder, x = Num holder
                                              ∧ blocker s pid holder)
  ∧ (∀ pid,
       (∀ holder, ¬ blocker s pid holder) →
       obj_get (pretty pid) (buildWFGFromSnapshot s) = None
       ∧ (pretty pid ∉ own_keys (buildWFGFromSnapshot s))
       ∧ (∀ cycles l,
            l ∈ links (buildWFGGraph (buildWFGFromSnapshot s) cycles) →
            link_source l ≠ ("P" +:+ pretty pid))
       ∧ (∀ cycles,
            (∃ n, n ∈ nodes (buildWFGGraph (buildWFGFromSnapshot s) cycles)
                  ∧ node_id n = Some (VStr ("P" +:+ pretty pid)))
            ↔ ∃ src, blocker s src pid)
       ∧ (∀ cycles,
            (∃ l, l ∈ links (buildWFGGraph (buildWFGFromSnapshot s) cycles)
                  ∧ link_target l = "P" +:+ pretty pid)
            ↔ ∃ src, blocker s src pid)).
Proof.
  intros Hkeyed. destruct (derived_wf s) as [Hwf Hkeys].
  assert (∀ src pid : Z,
            blocker s src pid →
            ∃ targets, (pretty src, targets) ∈ buildWFGFromSnapshot s
                       ∧ Num pid ∈ targets) as Hedge.
  { intros src pid Hb%(plainly_keyed_blocker s src pid Hkeyed).
    apply derived_edges in Hb as (targets & Hget & Hin).
    exists targets. split; [by apply obj_get_Some_elem | done]. }
  assert (∀ pid, (∀ holder, ¬ blocker s pid holder) →
            obj_get (pretty pid) (buildWFGFromSnapshot s) = None) as Habsent.
  { intros pid Hnone.
    destruct (obj_get (pretty pid) (buildWFGFromSnapshot s))
      as [targets |] eqn:Hget; [| done].
    pose proof Hget as Hget'.
    rewrite derived_get in Hget'.
    destruct (decide _) as [| Hne]; [done |]. injection Hget' as <-.
    destruct (blockers_under _ _ _) as [| x rest] eqn:Hb; [done |].
    assert (found_blocker s (Num pid) x) as Hfound.
    { apply derived_edges. exists (x :: rest).
      split; [done | apply elem_of_cons; by left]. }
    destruct (plainly_keyed_found s _ _ Hkeyed Hfound)
      as (p & h & [= <-] & -> & Hblocker).
    by destruct (Hnone h). }
  split.
  - intros k targets Hin. pose proof (elem_obj_get _ _ _ Hwf Hin) as Hget.
    assert (targets ≠ []) as Hne.
    { rewrite derived_get in Hget. by destruct (decide _); simplify_eq. }
    split; [done |].
    destruct targets as [| x0 rest]; [done |].
    destruct (derived_waits s k (x0 :: rest) x0 Hin) as (src & -> & Hfound);
      [apply elem_of_cons; by left |].
    destruct (plainly_keyed_found s _ _ Hkeyed Hfound)
      as (pid & h & -> & _ & _).
    exists pid. split; [done |]. intros x. split.
    + intros Hx.
      destruct (derived_waits s _ _ x Hin Hx) as (src & Hsrc & Hf).
      apply num_to_string_inj in Hsrc as <-.
      destruct (plainly_keyed_found s _ _ Hkeyed Hf)
        as (p & holder & [= <-] & -> & Hb).
      by exists holder.
    + intros (holder & -> & Hb).
      destruct (Hedge pid holder Hb) as (targets' & Hin' & Hx).
      pose proof (elem_obj_get _ _ _ Hwf Hin') as Hget'.
      cbn [num_to_string] in Hget. rewrite Hget in Hget'.
      by injection Hget' as ->.
  - intros pid Hnone. pose proof (Habsent pid Hnone) as Hget.
    assert (pretty pid ∉ (buildWFGFromSnapshot s).*1) as Hkey.
    { by apply obj_get_None. }
    split_and!.
    + exact Hget.
    + unfold own_keys. by rewrite own_entries_perm.
    + intros cycles l (src & targets & t & Hin & _ & ->)%elem_of_wfg_links.
      unfold wfg_edge. cbn [link_source]. intros ->%prefix_char_inj.
      apply Hkey. apply list_elem_of_fmap. by exists (pretty pid, targets).
    + intros cycles.
      destruct (wfg_nodes (buildWFGFromSnapshot s) cycles)
        as (cn & allPids & Hnodes & _ & Hall).
      rewrite Hnodes. split.
      * intros (n & (x & -> & Hx)%list_elem_of_fmap & Hid).
        rewrite node_id_wfg_node in Hid.
        injection Hid as Hid%empty_prefix_inj.
        change (pretty pid) with (num_to_string (Num pid)) in Hid.
        apply num_to_string_inj in Hid as ->.
        apply Hall in Hx as (k & Hk & Hx).
        unfold own_keys in Hk. rewrite own_entries_perm in Hk.
        destruct (Hkeys k Hk) as [m ->].
        destruct Hx as [Hx | Hx].
        -- rewrite parseInt_num_to_string in Hx. by subst m.
        -- unfold targets_of in Hx.
           destruct (obj_get (num_to_string m) (buildWFGFromSnapshot s))
             as [targets |] eqn:Hm; [| by apply elem_of_nil in Hx].
           assert (found_blocker s m (Num pid)) as Hfound.
           { apply derived_edges. by exists targets. }
           destruct (plainly_keyed_found s _ _ Hkeyed Hfound)
             as (src & h & -> & [= <-] & Hb).
           by exists src.
      * intros (src & Hb).
        destruct (Hedge src pid Hb) as (targets & Hin & Hx).
        exists (wfg_node cn (Num pid)). split; [| done].
        apply list_elem_of_fmap. exists (Num pid). split; [done |].
        apply Hall. exists (pretty src). split.
        -- unfold own_keys. rewrite own_entries_perm.
           apply list_elem_of_fmap. by exists (pretty src, targets).
        -- right. unfold targets_of.
           by rewrite (elem_obj_get _ _ _ Hwf Hin).
    + intros cycles. split.
      * intros (l & (k & targets & t & Hin & Ht & ->)%elem_of_wfg_links & Hl).
        unfold wfg_edge in Hl. cbn [link_target] in Hl.
        apply prefix_char_inj in Hl.
        change (pretty pid) with (num_to_string (Num pid)) in Hl.
        apply num_to_string_inj in Hl as ->.
        destruct (derived_waits s k targets (Num pid) Hin Ht)
          as (m & -> & Hfound).
        destruct (plainly_keyed_found s _ _ Hkeyed Hfound)
          as (src & h & -> & [= <-] & Hb).
        by exists src.
      * intros (src & Hb).
        destruct (Hedge src pid Hb) as (targets & Hin & Hx).
        exists (wfg_edge (pretty src) (Num pid)). split; [| done].
        apply elem_of_wfg_links. by exists (pretty src), targets, (Num pid).
Qed.

Lemma C10_entry_only_with_blocker_witness :
  obj_get (pretty 2) (buildWFGFromSnapshot unblocked_holder_snapshot) = None
  ∧ ((∃ n, n ∈ nodes (buildWFGGraph
                        (buildWFGFromSnapshot unblocked_holder_snapshot) [])
           ∧ node_id n = Some (VStr ("P" +:+ pretty 2)))
     ↔ ∃ src, blocker unblocked_holder_snapshot src 2).
Proof.
  assert (plainly_keyed unblocked_holder_snapshot) as Hkeyed.
  { intros key count [Hin | Hin] _; cbn in Hin.
    - apply list_elem_of_singleton in Hin as [= -> ->].
      exists 2, "A"%string. split; [| reflexivity].
      split; [by apply safe_integer_dec_true | reflexivity].
    - apply elem_of_cons in Hin as [[= -> ->] | Hin].
      { exists 1, "A"%string. split; [| reflexivity].
        split; [by apply safe_integer_dec_true | reflexivity]. }
      apply list_elem_of_singleton in Hin as [= -> ->].
      exists 2, "B"%string. split; [| reflexivity].
      split; [by apply safe_integer_dec_true | reflexivity]. }
  destruct (C10_entry_only_with_blocker unblocked_holder_snapshot Hkeyed)
    as [_ Hunblocked].
  destruct (Hunblocked 2) as (Hget & _ & _ & Hnode & _).
  - intros holder (rid & need & alloc & Hreq & _ & Halloc & _ & Hne).
    cbn in Hreq, Halloc.
    apply list_elem_of_singleton in Halloc as [= Hkey' _].
    change "2_A"%string with (composite_key 2 "A") in Hkey'.
    apply composite_key_inj in Hkey' as [-> _]. done.
  - split; [exact Hget | exact (Hnode [])].
Defined.

(** C10 as stated fails: process 2 requests only resource B, which
    nobody holds, so it has no blocker and no entry in the derived
    adjacency; but it holds resource A, which process 1 requests, so the
    rendered wait-for graph has the node [P2] and the link [P1 -> P2] that
    ends at it. *)
Lemma C10_counterexample :
  (∀ holder, ¬ blocker unblocked_holder_snapshot 2 holder)
  ∧ obj_get "2" (buildWFGFromSnapshot unblocked_holder_snapshot) = None
  ∧ (∃ n, n ∈ nodes (buildWFGGraph
                       (buildWFGFromSnapshot unblocked_holder_snapshot) [])
          ∧ node_id n = Some (VStr "P2"))
  ∧ (∃ l, l ∈ links (buildWFGGraph
                       (buildWFGFromSnapshot unblocked_holder_snapshot) [])
          ∧ link_source l = "P1"%string ∧ link_target l = "P2"%string).
Proof.
  split_and!.
  - intros holder (rid & need & alloc & Hreq & _ & Halloc & _ & Hne).
    cbn in Hreq, Halloc.
    apply list_elem_of_singleton in Halloc as [= Hkey' _].
    change "2_A"%string with (composite_key 2 "A") in Hkey'.
    apply composite_key_inj in Hkey' as [-> _]. done.
  - vm_compute. reflexivity.
  - exists (wfg_node [] (Num 2)). split; [| reflexivity].
    vm_compute. apply elem_of_cons. right. apply elem_of_cons. by left.
  - exists (wfg_edge "1" (Num 2)). split; [| split; reflexivity].
    vm_compute. apply elem_of_cons. by left.
Qed.

(** * Further properties of the code *)

(** ** Styling and labels of the built graphs *)

Lemma elem_of_nested_set_add {A B} `{EqDecision A} (f : B → A)
    (xss : list (list B)) (init : list A) x :
  x ∈ forEach xss
        (λ xs s, forEach xs (λ b s, set_add (f b) s) s) init
  ↔ x ∈ init ∨ ∃ xs b, xs ∈ xss ∧ b ∈ xs ∧ x = f b.
Proof.
  revert init. induction xss as [| xs xss IH]; intros init.
  - rewrite forEach_nil. split; [by left |].
    intros [? | (xs & b & ?%elem_of_nil & _)]; done.
  - rewrite forEach_cons, IH, elem_of_forEach_set_add. split.
    + intros [[? | (b & Hb & ->)] | (xs' & b & Hxs & Hb & ->)].
      * by left.
      * right. exists xs, b. split_and!; [apply elem_of_cons; by left | done..].
      * right. exists xs', b.
        split_and!; [apply elem_of_cons; by right | done..].
    + intros [? | (xs' & b & [-> | Hxs]%elem_of_cons & Hb & ->)].
      * left. by left.
      * left. right. by exists b.
      * right. by exists xs', b.
Qed.


Lemma filter_ext_in {A} (P Q : A → Prop) `{!∀ x, Decision (P x)}
    `{!∀ x, Decision (Q x)} (xs : list A) :
  (∀ x, x ∈ xs → P x ↔ Q x) → filter P xs = filter Q xs.
Proof.
  induction xs as [| x xs IH]; intros Hext; [done |].
  rewrite !filter_cons.
  assert (P x ↔ Q x) as Hx by (apply Hext, elem_of_cons; by left).
  rewrite IH by (intros y Hy; apply Hext, elem_of_cons; by right).
  destruct (decide (P x)) as [HP | HP].
  - by rewrite decide_True by tauto.
  - by rewrite decide_False by tauto.
Qed.

(** X1.  In a wait-for graph built from any adjacency and any list of
    cycles, every node is a process node of radius 30 that carries its pid,
    and its [inCycle] flag is [true] when that pid occurs in some cycle of
    the list and [false] when it occurs in none; a flagged node is drawn
    red with a dark red stroke, any other node blue with a white stroke. *)
Theorem X1_cycle_annotation (w : WFG) (cycles : list (list Z)) (n : Node) :
  n ∈ nodes (buildWFGGraph w cycles) →
  ∃ x : jsnum,
    let flagged := bool_decide (x ∈ Num <$> mjoin cycles) in
    obj_get "pid" n = Some (VNum x)
    ∧ node_id n = Some (VStr ("P" +:+ num_to_string x))
    ∧ obj_get "inCycle" n = Some (VBool flagged)
    ∧ (flagged = true ↔ ∃ cycle z, cycle ∈ cycles ∧ z ∈ cycle ∧ x = Num z)
    ∧ getNodeColor n = (if flagged then "#ef4444" else "#2563eb")%string
    ∧ getNodeStrokeColor n = (if flagged then "#dc2626" else "white")%string
    ∧ getNodeRadius n = 30.
Proof.
  unfold buildWFGGraph. cbn [nodes]. rewrite forEach_push_fmap, app_nil_l.
  intros (x & -> & _)%list_elem_of_fmap. exists x. cbn zeta.
  set (cn := forEach cycles _ _).
  assert (x ∈ cn ↔ ∃ cycle z, cycle ∈ cycles ∧ z ∈ cycle ∧ x = Num z) as Hcn.
  { unfold cn.
    rewrite (elem_of_nested_set_add Num cycles [] x). split.
    - intros [?%elem_of_nil | ?]; done.
    - intros ?. by right. }
  assert (x ∈ Num <$> mjoin cycles
          ↔ ∃ cycle z, cycle ∈ cycles ∧ z ∈ cycle ∧ x = Num z) as Hjoin.
  { rewrite list_elem_of_fmap. setoid_rewrite list_elem_of_join. split.
    - intros (z & -> & cycle & ? & ?). by exists cycle, z.
    - intros (cycle & z & ? & ? & ->). exists z. split; [done |]. by exists cycle. }
  assert (set_has x cn = bool_decide (x ∈ Num <$> mjoin cycles)) as Hflag.
  { unfold set_has. apply bool_decide_ext. by rewrite Hcn, Hjoin. }
  assert (obj_get "inCycle" (wfg_node cn x) = Some (VBool (set_has x cn)))
    as Hget by reflexivity.
  assert (obj_get "type" (wfg_node cn x) = Some (VStr "process"))
    as Htype by reflexivity.
  unfold getNodeColor, getNodeStrokeColor, getNodeRadius.
  rewrite Hget, Htype, Hflag. cbn [truthy is_string].
  split_and!; try reflexivity.
  rewrite bool_decide_eq_true. exact Hjoin.
Qed.

Lemma X1_cycle_annotation_witness :
  ∃ x : jsnum,
    obj_get "pid" (wfg_node [Num 1; Num 2] (Num 1)) = Some (VNum x)
    ∧ getNodeColor (wfg_node [Num 1; Num 2] (Num 1))
      = (if bool_decide (x ∈ Num <$> mjoin [[1; 2]])
         then "#ef4444" else "#2563eb")%string.
Proof.
  destruct (X1_cycle_annotation cyclic_wfg [[1; 2]]
              (wfg_node [Num 1; Num 2] (Num 1)))
    as (x & Hp & _ & _ & _ & Hc & _).
  - vm_compute. apply elem_of_cons. by left.
  - exists x. split; [exact Hp | exact Hc].
Defined.

Lemma link_weight_allocation_edge key count :
  link_weight (allocation_edge key count) = Some count
  ∧ link_type (allocation_edge key count) = allocation_link
  ∧ link_id (allocation_edge key count) = "alloc_" +:+ key.
Proof. unfold allocation_edge. by destruct (split_key key). Qed.

Lemma link_weight_request_edge key count :
  link_weight (request_edge key count) = Some count
  ∧ link_type (request_edge key count) = request_link
  ∧ link_id (request_edge key count) = "req_" +:+ key.
Proof. unfold request_edge. by destruct (split_key key). Qed.


(** ** Links of the allocation graph *)

Lemma NoDup_omap_keys {V B} (g : string * V → option B) (h : B → string)
    (F : string → string) (E : list (string * V)) :
  (∀ a b, F a = F b → a = b) →
  (∀ kv y, g kv = Some y → h y = F kv.1) →
  NoDup E.*1 → NoDup (h <$> omap g E).
Proof.
  intros HF Hg. induction E as [| kv E IH]; cbn; [intros _; apply NoDup_nil_2 |].
  rewrite NoDup_cons. intros [Hk Hnd].
  destruct (g kv) as [y |] eqn:Hy; [| by apply IH].
  cbn. apply NoDup_cons. split; [| by apply IH].
  intros (y' & Heq & (kv' & Hin & Hy')%list_elem_of_omap)%list_elem_of_fmap.
  rewrite (Hg _ _ Hy), (Hg _ _ Hy') in Heq. apply HF in Heq.
  apply Hk. rewrite Heq. apply list_elem_of_fmap. by exists kv'.
Qed.

(** X3.  When the allocation and request objects have each key once, the
    link ids of the allocation graph are pairwise distinct; the graph holds
    a link with the id [alloc_<key>] exactly when the allocation count of
    the key is positive, and then that link is the allocation link of the
    key with the count as weight; likewise for [req_<key>] and the request
    counts.  A key with a zero or negative count has no link. *)
Theorem X3_rag_link_ids (s : Snapshot) :
  wf_obj (allocation s) → wf_obj (request s) →
  NoDup (link_id <$> links (buildRAGGraph s))
  ∧ (∀ key l,
       l ∈ links (buildRAGGraph s) ∧ link_id l = "alloc_" +:+ key ↔
       ∃ c, obj_get key (allocation s) = Some c ∧ 0 < c
            ∧ l = allocation_edge key c)
  ∧ (∀ key l,
       l ∈ links (buildRAGGraph s) ∧ link_id l = "req_" +:+ key ↔
       ∃ c, obj_get key (request s) = Some c ∧ 0 < c
            ∧ l = request_edge key c).
Proof.
  intros Halloc Hreq. split_and!.
  - rewrite rag_links, fmap_app. apply NoDup_app. split_and!.
    + apply (NoDup_omap_keys _ link_id (λ k, "alloc_" +:+ k)).
      * intros a b Heq. by apply append_inj_l in Heq.
      * intros [key c] y Hy. cbn in Hy. destruct (0 <? c); [| done].
        injection Hy as <-. apply link_weight_allocation_edge.
      * by apply own_entries_wf.
    + intros x (la & -> & ([ka ca] & _ & Ha)%list_elem_of_omap)%list_elem_of_fmap
        (lr & Heq & ([kr cr] & _ & Hr)%list_elem_of_omap)%list_elem_of_fmap.
      cbn [fst snd] in Ha, Hr. destruct (0 <? ca); [| done]. destruct (0 <? cr); [| done].
      injection Ha as <-. injection Hr as <-.
      rewrite (proj2 (proj2 (link_weight_allocation_edge ka ca))) in Heq.
      rewrite (proj2 (proj2 (link_weight_request_edge kr cr))) in Heq.
      discriminate Heq.
    + apply (NoDup_omap_keys _ link_id (λ k, "req_" +:+ k)).
      * intros a b Heq. by apply append_inj_l in Heq.
      * intros [key c] y Hy. cbn in Hy. destruct (0 <? c); [| done].
        injection Hy as <-. apply link_weight_request_edge.
      * by apply own_entries_wf.
  - intros key l. rewrite elem_of_rag_links. split.
    + intros [[(k & c & Hin & Hc & ->) | (k & c & Hin & Hc & ->)] Hid].
      * rewrite (proj2 (proj2 (link_weight_allocation_edge k c))) in Hid.
        apply append_inj_l in Hid as ->. exists c. split_and!; [| done..].
        by apply elem_obj_get.
      * rewrite (proj2 (proj2 (link_weight_request_edge k c))) in Hid.
        discriminate Hid.
    + intros (c & Hget & Hc & ->). split.
      * left. exists key, c. split_and!; [| done..]. by apply obj_get_Some_elem.
      * apply link_weight_allocation_edge.
  - intros key l. rewrite elem_of_rag_links. split.
    + intros [[(k & c & Hin & Hc & ->) | (k & c & Hin & Hc & ->)] Hid].
      * rewrite (proj2 (proj2 (link_weight_allocation_edge k c))) in Hid.
        discriminate Hid.
      * rewrite (proj2 (proj2 (link_weight_request_edge k c))) in Hid.
        apply append_inj_l in Hid as ->. exists c. split_and!; [| done..].
        by apply elem_obj_get.
    + intros (c & Hget & Hc & ->). split.
      * right. exists key, c. split_and!; [| done..]. by apply obj_get_Some_elem.
      * apply link_weight_request_edge.
Qed.

Lemma X3_rag_link_ids_witness :
  NoDup (link_id <$> links chain).
Proof.
  apply (X3_rag_link_ids chain_snapshot).
  - unfold wf_obj. apply (bool_decide_unpack _). vm_compute. exact I.
  - unfold wf_obj. apply (bool_decide_unpack _). vm_compute. exact I.
Defined.

(** Two links of an allocation graph with the same id have the same
    ends. *)
Lemma rag_link_id_ends s l l' :
  l ∈ links (buildRAGGraph s) → l' ∈ links (buildRAGGraph s) →
  link_id l = link_id l' →
  link_source l = link_source l' ∧ link_target l = link_target l'.
Proof.
  intros [(k & c & _ & _ & ->) | (k & c & _ & _ & ->)]%elem_of_rag_links
         [(k' & c' & _ & _ & ->) | (k' & c' & _ & _ & ->)]%elem_of_rag_links Hid.
  - rewrite (proj2 (proj2 (link_weight_allocation_edge k c))),
      (proj2 (proj2 (link_weight_allocation_edge k' c'))) in Hid.
    apply append_inj_l in Hid as ->.
    unfold allocation_edge. by destruct (split_key k').
  - rewrite (proj2 (proj2 (link_weight_allocation_edge k c))),
      (proj2 (proj2 (link_weight_request_edge k' c'))) in Hid.
    discriminate Hid.
  - rewrite (proj2 (proj2 (link_weight_request_edge k c))),
      (proj2 (proj2 (link_weight_allocation_edge k' c'))) in Hid.
    discriminate Hid.
  - rewrite (proj2 (proj2 (link_weight_request_edge k c))),
      (proj2 (proj2 (link_weight_request_edge k' c'))) in Hid.
    apply append_inj_l in Hid as ->.
    unfold request_edge. by destruct (split_key k').
Qed.

(** The node ids that hovering [P<p>] highlights, by the pieces that the
    builder cuts from the keys. *)
Lemma hover_nodes_by_pieces (s : Snapshot) (p : Z) (x : string) :
  x ∈ connectedNodes
        (mouseover (links (buildRAGGraph s)) ("P" +:+ pretty p))
  ↔ ∃ key count rid,
      ((key, count) ∈ allocation s ∨ (key, count) ∈ request s)
      ∧ 0 < count
      ∧ split_key key = (Some (pretty p), rid)
      ∧ (x = "P" +:+ pretty p ∨ x = "R" +:+ str_to_string rid).
Proof.
  revert p x.
  intros p x. destruct (mouseover_nodes (links (buildRAGGraph s))
                          ("P" +:+ pretty p)) as [_ Hin].
  rewrite Hin. setoid_rewrite list_elem_of_filter.
  setoid_rewrite elem_of_rag_links. unfold incident. split.
  + intros (l & [Hinc Hl] & Hx).
    destruct Hl as [(key & c & Hkc & Hc & ->) | (key & c & Hkc & Hc & ->)].
    * unfold allocation_edge in Hinc, Hx.
      destruct (split_key key) as [[ps |] rid] eqn:Hsplit.
      2: { unfold split_key in Hsplit.
           destruct (split_nonempty "_" key) as (a & b & Hab).
           rewrite Hab in Hsplit. done. }
      cbn in Hinc, Hx. destruct Hinc as [Hinc | Hinc]; [| discriminate Hinc].
      apply (prefix_char_inj "P") in Hinc. subst ps.
      exists key, c, rid. split_and!; [by left | done | done |].
      destruct Hx as [-> | ->]; [by left | by right].
    * unfold request_edge in Hinc, Hx.
      destruct (split_key key) as [[ps |] rid] eqn:Hsplit.
      2: { unfold split_key in Hsplit.
           destruct (split_nonempty "_" key) as (a & b & Hab).
           rewrite Hab in Hsplit. done. }
      cbn in Hinc, Hx. destruct Hinc as [Hinc | Hinc]; [discriminate Hinc |].
      apply (prefix_char_inj "P") in Hinc. subst ps.
      exists key, c, rid. split_and!; [by right | done | done |].
      destruct Hx as [-> | ->]; [by right | by left].
  + intros (key & c & rid & [Hkc | Hkc] & Hc & Hsplit & Hx).
    * assert (link_source (allocation_edge key c) = "P" +:+ pretty p
              ∧ link_target (allocation_edge key c)
                = "R" +:+ str_to_string rid) as [Hs Ht].
      { unfold allocation_edge. by rewrite Hsplit. }
      exists (allocation_edge key c). rewrite Hs, Ht. split_and!.
      -- by left.
      -- left. by exists key, c.
      -- destruct Hx as [-> | ->]; [by left | by right].
    * assert (link_source (request_edge key c) = "R" +:+ str_to_string rid
              ∧ link_target (request_edge key c) = "P" +:+ pretty p)
        as [Hs Ht].
      { unfold request_edge. by rewrite Hsplit. }
      exists (request_edge key c). rewrite Hs, Ht. split_and!.
      -- by right.
      -- right. by exists key, c.
      -- destruct Hx as [-> | ->]; [by right | by left].
Qed.

(** X4.  Hovering a node of an allocation graph (of any snapshot): the
    lines set back to full opacity, which are chosen by link id, are
    exactly the links that touch the hovered node.  For a snapshot whose
    keys with a positive count are composite keys [<pid>_<rid>] with
    safe-integer pids and resource ids without underscore, hovering the
    process node [P<p>] highlights the node ids [P<p>] itself and [R<rid>]
    for the resources [rid] of which [p] has a positive allocation or
    request count, and only those when there is such a resource; with none,
    it highlights nothing. *)
Theorem X4_hover_in_rag (s : Snapshot) :
  (∀ d : string,
     full_opacity_links (links (buildRAGGraph s))
       (mouseover (links (buildRAGGraph s)) d)
     = filter (incident d) (links (buildRAGGraph s)))
  ∧ (plainly_keyed s →
     ∀ (p : Z) (x : string),
       x ∈ connectedNodes
             (mouseover (links (buildRAGGraph s)) ("P" +:+ pretty p))
       ↔ ∃ rid count,
           ((composite_key p rid, count) ∈ allocation s
            ∨ (composite_key p rid, count) ∈ request s)
           ∧ 0 < count
           ∧ (x = "P" +:+ pretty p ∨ x = "R" +:+ rid)).
Proof.
  split.
  - intros d. unfold full_opacity_links, highlighted_links.
    rewrite mouseover_links. apply filter_ext_in. intros l Hl.
    rewrite list_elem_of_fmap. split.
    + intros (l' & Hid & [Hinc Hl']%list_elem_of_filter).
      destruct (rag_link_id_ends s l l' Hl Hl' Hid) as [Hs Ht].
      unfold incident in *. by rewrite Hs, Ht.
    + intros Hinc. exists l. split; [done |].
      apply list_elem_of_filter. by split.
  - intros Hkeyed p x. rewrite hover_nodes_by_pieces. split.
    + intros (key & count & rid & Hin & Hpos & Hsplit & Hx).
      destruct (Hkeyed key count Hin Hpos) as (p' & r & [_ ->] & Hplain).
      rewrite composite_key_plain in Hsplit by done.
      injection Hsplit as Hp%(inj pretty) <-. subst p'.
      by exists r, count.
    + intros (rid & count & Hin & Hpos & Hx).
      destruct (Hkeyed _ count Hin Hpos) as (p' & r & [_ Heq] & Hplain).
      apply composite_key_inj in Heq as [<- <-].
      exists (composite_key p rid), count, (Some rid).
      split_and!; [done | done | by apply composite_key_plain | done].
Qed.

Lemma X4_hover_in_rag_witness :
  "R1"%string
    ∈ connectedNodes (mouseover (links (buildRAGGraph chain_snapshot))
                        ("P" +:+ pretty 1))
  ↔ ∃ rid count,
      ((composite_key 1 rid, count) ∈ allocation chain_snapshot
       ∨ (composite_key 1 rid, count) ∈ request chain_snapshot)
      ∧ 0 < count
      ∧ ("R1"%string = "P" +:+ pretty 1 ∨ "R1"%string = "R" +:+ rid).
Proof.
  apply (proj2 (X4_hover_in_rag chain_snapshot)).
  intros key count [Hin | Hin] _; cbn in Hin;
    apply list_elem_of_singleton in Hin as [= -> ->].
  - exists 1, "1"%string. split; [| reflexivity].
    split; [by apply safe_integer_dec_true | reflexivity].
  - exists 2, "1"%string. split; [| reflexivity].
    split; [by apply safe_integer_dec_true | reflexivity].
Defined.

(** ** The two views of one snapshot *)

Lemma split_two_pieces sep s :
  contains sep s = true → ∃ a b rest, split sep s = a :: b :: rest.
Proof.
  induction s as [| c s IH]; cbn [contains split]; [done |].
  destruct (decide (c = sep)) as [-> | Hc].
  - intros _. destruct (split_nonempty sep s) as (b & rest & ->).
    by eexists _, _, _.
  - rewrite (bool_decide_eq_false_2 _ Hc). cbn [orb].
    intros (a & b & rest & ->)%IH. by eexists _, _, _.
Qed.

Lemma split_key_with_sep key :
  contains "_" key = true → ∃ ps r, split_key key = (Some ps, Some r).
Proof.
  intros (a & b & rest & Hsplit)%split_two_pieces.
  unfold split_key. rewrite Hsplit. by eexists _, _.
Qed.

(** X5.  For a snapshot whose keys all hold a separator, the derived
    wait-for graph has an edge from process [p] to process [h] exactly when
    [h] differs from [p] and the allocation graph has a two-link path from
    [h] to [p] through a resource node: an allocation link from a node
    [P<hs>] to some [R<r>] and a request link from the same [R<r>] to a
    node [P<ps>], where [hs] parses to [h] and [ps] parses to [p]. *)
Theorem X5_wait_edge_is_rag_path (s : Snapshot) (p h : Z) :
  (∀ key count,
     (key, count) ∈ allocation s ∨ (key, count) ∈ request s →
     contains "_" key = true) →
  waits_for (buildWFGFromSnapshot s) (Num p) (Num h) ↔
    h ≠ p
    ∧ ∃ lr la r ps hs,
        lr ∈ links (buildRAGGraph s) ∧ la ∈ links (buildRAGGraph s)
        ∧ link_type lr = request_link ∧ link_type la = allocation_link
        ∧ link_source lr = "R" +:+ r ∧ link_target la = "R" +:+ r
        ∧ link_target lr = "P" +:+ ps ∧ link_source la = "P" +:+ hs
        ∧ parseInt ps = Num p ∧ parseInt hs = Num h.
Proof.
  intros Hsep. rewrite derived_edges. unfold found_blocker. split.
  - intros (key & need & rid & allocKey & alloc
            & Hreq & Hneed & Hparse & Halloc & Hpos & Hparse' & Hneq).
    split; [by apply strict_neq_num |].
    destruct (split_key_with_sep key) as (ps & r & Hk); [by eapply Hsep; right |].
    destruct (split_key_with_sep allocKey) as (hs & r' & Hk');
      [by eapply Hsep; left |].
    unfold parse_key in Hparse, Hparse'. rewrite Hk in Hparse.
    rewrite Hk' in Hparse'. cbn in Hparse, Hparse'.
    injection Hparse as Hp Hrid. injection Hparse' as Hh Hrid'.
    subst rid. injection Hrid' as ->.
    exists (request_edge key need), (allocation_edge allocKey alloc), r, ps, hs.
    split_and!.
    + apply elem_of_rag_links. right. by exists key, need.
    + apply elem_of_rag_links. left. by exists allocKey, alloc.
    + apply link_weight_request_edge.
    + apply link_weight_allocation_edge.
    + unfold request_edge. by rewrite Hk.
    + unfold allocation_edge. by rewrite Hk'.
    + unfold request_edge. by rewrite Hk.
    + unfold allocation_edge. by rewrite Hk'.
    + done.
    + done.
  - intros (Hne & lr & la & r & ps & hs & Hlr & Hla & Htr & Hta
            & Hsr & Htla & Htlr & Hsla & Hp & Hh).
    apply elem_of_rag_links in Hlr
      as [(key & need & Hreq & Hneed & ->) | (key & need & Hreq & Hneed & ->)].
    { by rewrite (proj1 (proj2 (link_weight_allocation_edge key need))) in Htr. }
    apply elem_of_rag_links in Hla
      as [(allocKey & alloc & Halloc & Hpos & ->)
         | (allocKey & alloc & Halloc & Hpos & ->)].
    2: { by rewrite (proj1 (proj2 (link_weight_request_edge allocKey alloc)))
           in Hta. }
    destruct (split_key_with_sep key) as (ps' & r1 & Hk); [by eapply Hsep; right |].
    destruct (split_key_with_sep allocKey) as (hs' & r2 & Hk');
      [by eapply Hsep; left |].
    unfold request_edge in Hsr, Htlr. rewrite Hk in Hsr, Htlr.
    unfold allocation_edge in Htla, Hsla. rewrite Hk' in Htla, Hsla.
    cbn in Hsr, Htlr, Htla, Hsla.
    apply (prefix_char_inj "R") in Hsr, Htla.
    apply (prefix_char_inj "P") in Htlr, Hsla. subst r1 r2 ps' hs'.
    exists key, need, (Some r), allocKey, alloc.
    split_and!; try done.
    + unfold parse_key. rewrite Hk. cbn. by rewrite Hp.
    + unfold parse_key. rewrite Hk'. cbn. by rewrite Hh.
    + by apply strict_neq_num.
Qed.

Lemma X5_wait_edge_is_rag_path_witness :
  waits_for (buildWFGFromSnapshot blocking_snapshot) (Num 1) (Num 2) ↔
    2 ≠ 1
    ∧ ∃ lr la r ps hs,
        lr ∈ links (buildRAGGraph blocking_snapshot)
        ∧ la ∈ links (buildRAGGraph blocking_snapshot)
        ∧ link_type lr = request_link ∧ link_type la = allocation_link
        ∧ link_source lr = "R" +:+ r ∧ link_target la = "R" +:+ r
        ∧ link_target lr = "P" +:+ ps ∧ link_source la = "P" +:+ hs
        ∧ parseInt ps = Num 1 ∧ parseInt hs = Num 2.
Proof.
  apply (X5_wait_edge_is_rag_path blocking_snapshot 1 2).
  intros key count [Hin | Hin]; cbn in Hin;
    apply list_elem_of_singleton in Hin as [= -> ->]; reflexivity.
Defined.

(** ** Swapping the sides of a comparison *)

Lemma string_length_append (s t : string) :
  String.length (s +:+ t) = (String.length s + String.length t)%nat.
Proof.
  induction s as [| c s IH]; [done |].
  rewrite append_cons_l. cbn [String.length]. by rewrite IH.
Qed.

Lemma append_inj_r (s1 s2 t : string) : s1 +:+ t = s2 +:+ t → s1 = s2.
Proof.
  revert s2. induction s1 as [| c s1 IH]; intros [| c2 s2] Heq.
  - done.
  - apply (f_equal String.length) in Heq.
    rewrite !string_length_append in Heq. cbn [String.length] in Heq. lia.
  - apply (f_equal String.length) in Heq.
    rewrite !string_length_append in Heq. cbn [String.length] in Heq. lia.
  - rewrite !append_cons_l in Heq. injection Heq as -> Heq.
    f_equal. by apply IH.
Qed.

Lemma added_entry_inj x y : added_entry x = added_entry y → x = y.
Proof.
  intros [= Heq]. apply append_inj_l, append_inj_r in Heq.
  by apply (inj pretty).
Qed.

Lemma removed_entry_inj x y : removed_entry x = removed_entry y → x = y.
Proof.
  intros [= Heq]. apply append_inj_l, append_inj_r in Heq.
  by apply (inj pretty).
Qed.

Lemma added_entry_in_diff a b pid :
  added_entry pid ∈ displayDifferences a b
  ↔ pid ∈ pids_of b ∧ pid ∉ pids_of a.
Proof.
  rewrite displayDifferences_sections, !elem_of_app.
  unfold process_additions, process_removals, cycle_change,
    allocation_change, request_change. split.
  - intros [Hin | [Hin | [Hin | [Hin | Hin]]]].
    + apply list_elem_of_fmap in Hin as (x & ->%added_entry_inj & Hx).
      apply list_elem_of_filter in Hx as [Hna Hb].
      rewrite elem_of_set_of_list in Hb. by split.
    + apply list_elem_of_fmap in Hin as (x & Heq & _). discriminate Heq.
    + case_decide; [by apply elem_of_nil in Hin |].
      apply list_elem_of_singleton in Hin. unfold cycle_entry in Hin.
      injection Hin as _ Hicon _. by destruct (0 <? _).
    + case_decide; [by apply elem_of_nil in Hin |].
      apply list_elem_of_singleton in Hin. discriminate Hin.
    + case_decide; [by apply elem_of_nil in Hin |].
      apply list_elem_of_singleton in Hin. discriminate Hin.
  - intros [Hb Hna]. left. apply list_elem_of_fmap. exists pid.
    split; [done |]. apply list_elem_of_filter.
    split; [done | by apply elem_of_set_of_list].
Qed.

Lemma removed_entry_in_diff a b pid :
  removed_entry pid ∈ displayDifferences a b
  ↔ pid ∈ pids_of a ∧ pid ∉ pids_of b.
Proof.
  rewrite displayDifferences_sections, !elem_of_app.
  unfold process_additions, process_removals, cycle_change,
    allocation_change, request_change. split.
  - intros [Hin | [Hin | [Hin | [Hin | Hin]]]].
    + apply list_elem_of_fmap in Hin as (x & Heq & _). discriminate Heq.
    + apply list_elem_of_fmap in Hin as (x & ->%removed_entry_inj & Hx).
      apply list_elem_of_filter in Hx as [Hnb Ha].
      rewrite elem_of_set_of_list in Ha. by split.
    + case_decide; [by apply elem_of_nil in Hin |].
      apply list_elem_of_singleton in Hin. unfold cycle_entry in Hin.
      injection Hin as _ Hicon _. by destruct (0 <? _).
    + case_decide; [by apply elem_of_nil in Hin |].
      apply list_elem_of_singleton in Hin. discriminate Hin.
    + case_decide; [by apply elem_of_nil in Hin |].
      apply list_elem_of_singleton in Hin. discriminate Hin.
  - intros [Ha Hnb]. right. left. apply list_elem_of_fmap. exists pid.
    split; [done |]. apply list_elem_of_filter.
    split; [done | by apply elem_of_set_of_list].
Qed.

(** X6.  Comparing B with A instead of A with B gives as many entries;
    a process is reported added in one direction exactly when it is
    reported removed in the other, and that is exactly when it is listed in
    the second snapshot and not in the first; and when the cycle counts
    differ, the cycle entries of the two directions have different
    classes. *)
Theorem X6_diff_swapped (a b : SavedView) :
  length (displayDifferences a b) = length (displayDifferences b a)
  ∧ (∀ pid, added_entry pid ∈ displayDifferences a b
            ↔ removed_entry pid ∈ displayDifferences b a)
  ∧ (∀ pid, added_entry pid ∈ displayDifferences a b
            ↔ pid ∈ pids_of b ∧ pid ∉ pids_of a)
  ∧ (length (view_cycles a) ≠ length (view_cycles b) →
     ∃ e e',
       filter is_cycle_entry (displayDifferences a b) = [e]
       ∧ filter is_cycle_entry (displayDifferences b a) = [e']
       ∧ diff_type e ≠ diff_type e').
Proof.
  split_and!.
  - rewrite !displayDifferences_sections, !length_app.
    unfold process_additions, process_removals. rewrite !length_fmap.
    unfold cycle_change, allocation_change, request_change.
    repeat case_decide; cbn [length]; try lia; congruence.
  - intros pid. by rewrite added_entry_in_diff, removed_entry_in_diff.
  - apply added_entry_in_diff.
  - intros Hne. rewrite !cycle_entries_of_sections. unfold cycle_change.
    assert (cycle_count a ≠ cycle_count b) as Hc.
    { unfold cycle_count. lia. }
    rewrite !decide_False by done. eexists _, _.
    split_and!; [reflexivity | reflexivity |].
    unfold cycle_entry. cbn [diff_type].
    destruct (0 <? cycle_count b - cycle_count a) eqn:H1,
             (0 <? cycle_count a - cycle_count b) eqn:H2; try done.
    + apply Z.ltb_lt in H1, H2. lia.
    + apply Z.ltb_ge in H1, H2. lia.
Qed.

Lemma X6_diff_swapped_witness :
  ∃ e e',
    filter is_cycle_entry (displayDifferences deadlocked recovered) = [e]
    ∧ filter is_cycle_entry (displayDifferences recovered deadlocked) = [e']
    ∧ diff_type e ≠ diff_type e'.
Proof.
  apply (X6_diff_swapped deadlocked recovered). vm_compute. discriminate.
Defined.

(** ** Capture and lookup of saved snapshots *)

Section heap_reads.
Implicit Types (h k : list cell) (l : nat).

Lemma read_snapshot_Some l h d :
  read_snapshot l h = Some d ↔ h !! l = Some (CSnapshot d).
Proof.
  unfold read_snapshot. destruct (h !! l) as [[| | | |] |]; split; congruence.
Qed.

Lemma lookup_extend h k l c : h !! l = Some c → (h ++ k) !! l = Some c.
Proof. intros H. by apply lookup_app_l_Some. Qed.

Lemma read_wfg_extend h k l w :
  read_wfg l h = Some w → read_wfg l (h ++ k) = Some w.
Proof.
  unfold read_wfg. destruct (h !! l) as [c |] eqn:Hl; [| done].
  by rewrite (lookup_extend _ k _ _ Hl).
Qed.

(** A parsed adjacency that reads as an adjacency of numbers is the
    parsed form of that adjacency. *)
Lemma wfg_of_json_Some (jw : list (string * list (option Z))) (w : WFG) :
  wfg_of_json jw = Some w → json_wfg w = jw.
Proof.
  unfold wfg_of_json, json_wfg. rewrite mapM_Some.
  induction 1 as [| [key ts] [key' ts'] jw w Hx _ IH]; [done |].
  rewrite fmap_cons, IH. f_equal. cbn [fst snd] in *.
  destruct (mapM (fmap Num) ts) as [ts0 |] eqn:Hts; [| done].
  injection Hx as <- <-. f_equal.
  apply mapM_Some in Hts. clear -Hts.
  induction Hts as [| [z |] x ts ts0 Hx _ IH]; [done | | done].
  injection Hx as <-. by rewrite fmap_cons, IH.
Qed.




Lemma read_cycle_Some l h c : read_cycle h l = Some c ↔ h !! l = Some (CCycle c).
Proof.
  unfold read_cycle. destruct (h !! l) as [[| | | |] |]; split; congruence.
Qed.

Lemma read_cycles_Some l h css :
  read_cycles l h = Some css ↔
    ∃ cs, h !! l = Some (CCycles cs) ∧ mapM (read_cycle h) cs = Some css.
Proof.
  unfold read_cycles. destruct (h !! l) as [[| | | cs |] |].
  1,2,3,5,6: split; [done | by intros (? & ? & _)].
  split; [intros ?; by exists cs | by intros (? & [= <-] & ?)].
Qed.

Lemma read_cycles_extend h k l css :
  read_cycles l h = Some css → read_cycles l (h ++ k) = Some css.
Proof.
  rewrite !read_cycles_Some. intros (cs & Hl & Hm). exists cs.
  split; [by apply lookup_extend |].
  apply mapM_Some. apply mapM_Some in Hm.
  eapply Forall2_impl; [exact Hm |]. intros x y.
  rewrite !read_cycle_Some. apply lookup_extend.
Qed.

Lemma read_saved_Some sv h v :
  read_saved sv h = Some v ↔
    read_snapshot (data sv) h = Some (view_data v)
    ∧ read_cycles (cycles sv) h = Some (view_cycles v)
    ∧ match wfg sv with
      | Some l => ∃ w, read_wfg l h = Some w ∧ view_wfg v = Some w
      | None => view_wfg v = None
      end.
Proof.
  unfold read_saved. destruct v as [d cs w]. cbn [view_data view_cycles view_wfg].
  destruct (read_snapshot (data sv) h) as [d' |]; cbn;
    [| split; [done | by intros [? _]]].
  destruct (read_cycles (cycles sv) h) as [cs' |]; cbn;
    [| split; [done | by intros (_ & ? & _)]].
  destruct (wfg sv) as [l |]; cbn.
  - destruct (read_wfg l h) as [w' |]; cbn.
    + split.
      * intros [= -> -> <-]. split_and!; [done | done |]. by exists w'.
      * intros ([= ->] & [= ->] & w0 & [= ->] & ->). done.
    + split; [done | by intros (_ & _ & ? & ? & _)].
  - split.
    + by intros [= -> -> <-].
    + by intros ([= ->] & [= ->] & ->).
Qed.

Lemma read_saved_extend sv h k v :
  read_saved sv h = Some v → read_saved sv (h ++ k) = Some v.
Proof.
  rewrite !read_saved_Some. intros (Hd & Hc & Hw). split_and!.
  - apply read_snapshot_Some, lookup_extend. by apply read_snapshot_Some.
  - by apply read_cycles_extend.
  - destruct (wfg sv); [| done]. destruct Hw as (w & Hw & ?). exists w.
    split; [| done]. by apply read_wfg_extend.
Qed.

End heap_reads.

(** What a successful capture does to the state. *)
Lemma saveSnapshot_shape now iso app h app' h' :
  saveSnapshot now iso app h = Some (app', h') →
  (∃ k, h' = h ++ k)
  ∧ currentSnapshot app' = currentSnapshot app
  ∧ currentWFG app' = currentWFG app
  ∧ currentCycles app' = currentCycles app
  ∧ ((currentSnapshot app = None ∧ savedSnapshots app' = savedSnapshots app)
     ∨ (is_Some (currentSnapshot app)
        ∧ ∃ sv, savedSnapshots app' = savedSnapshots app ++ [sv]
           ∧ saved_id sv = now ∧ timestamp sv = iso
           ∧ name sv = "Snapshot "
                       +:+ pretty (Z.of_nat (length (savedSnapshots app)) + 1))).
Proof.
  unfold saveSnapshot. intros Hsave.
  destruct (currentSnapshot app) as [sl |] eqn:Hsl.
  2: { injection Hsave as <- <-. split_and!; try done.
       - exists []. by rewrite app_nil_r.
       - by left. }
  destruct (json_clone sl h) as [[dl h1] |] eqn:Hdata; [| done].
  cbn in Hsave. apply json_clone_fresh in Hdata as (-> & c1 & ->).
  assert (∃ cl c2,
            match currentCycles app with
            | Some cycles_loc => spread_array cycles_loc (h ++ [c1])
            | None => Some (alloc (CCycles []) (h ++ [c1]))
            end = Some (cl, (h ++ [c1]) ++ [c2])) as (cl & c2 & Hcyc).
  { destruct (currentCycles app) as [cycles_loc |].
    - destruct (spread_array cycles_loc (h ++ [c1])) as [[cl h2] |] eqn:Hsp;
        [| done].
      apply spread_array_fresh in Hsp as (-> & cs & _ & ->). by eexists _, _.
    - by eexists _, _. }
  rewrite Hcyc in Hsave. cbn in Hsave.
  destruct (currentWFG app) as [wfg_loc |].
  - destruct (json_clone wfg_loc ((h ++ [c1]) ++ [c2])) as [[wl h3] |] eqn:Hw;
      [| done].
    cbn in Hsave. injection Hsave as <- <-.
    apply json_clone_fresh in Hw as (-> & c3 & ->).
    split_and!; try done.
    + exists [c1; c2; c3]. by rewrite <- !app_assoc.
    + right. split; [done |]. by eexists.
  - cbn in Hsave. injection Hsave as <- <-.
    split_and!; try done.
    + exists [c1; c2]. by rewrite <- !app_assoc.
    + right. split; [done |]. by eexists.
Qed.

(** The copy of a live wait-for graph is its round trip. *)
Lemma json_clone_wfg l h w :
  read_wfg l h = Some w →
  json_clone l h = Some (length h, h ++ [CJsonWfg (json_wfg w)]).
Proof.
  intros Hr. unfold read_wfg in Hr. unfold json_clone, alloc.
  destruct (h !! l) as [[d | w0 | jw | cs | c] |] eqn:Hl; try done.
  - by injection Hr as ->.
  - by rewrite (wfg_of_json_Some _ _ Hr).
Qed.

(** A capture of a well-typed live state succeeds; the new entry points
    to the round trip of the live snapshot, to an array with the live
    cycle arrays, and to the round trip of the live wait-for graph. *)
Lemma saveSnapshot_typed now iso app h :
  live_typed app h → is_Some (currentSnapshot app) →
  ∃ app' h' sv d css vw,
    saveSnapshot now iso app h = Some (app', h')
    ∧ savedSnapshots app' = savedSnapshots app ++ [sv]
    ∧ live_view app h
      = Some {| view_data := d; view_cycles := css; view_wfg := vw |}
    ∧ read_snapshot (data sv) h' = Some (json_snapshot d)
    ∧ read_cycles (cycles sv) h' = Some css
    ∧ match vw with
      | Some w => ∃ l, wfg sv = Some l
                       ∧ h' !! l = Some (CJsonWfg (json_wfg w))
      | None => wfg sv = None
      end.
Proof.
  intros (Hts & Htw & Htc) [sl Hsl].
  destruct (Hts sl Hsl) as [d Hrd].
  pose proof (proj1 (read_snapshot_Some sl h d) Hrd) as Hd.
  set (h1 := h ++ [CSnapshot (json_snapshot d)]).
  assert (json_clone sl h = Some (length h, h1)) as Hclone.
  { unfold json_clone. by rewrite Hd. }
  assert (∃ cs css,
            match currentCycles app with
            | Some cycles_loc => spread_array cycles_loc h1
            | None => Some (alloc (CCycles []) h1)
            end = Some (length h1, h1 ++ [CCycles cs])
            ∧ match currentCycles app with
              | Some cl => read_cycles cl h
              | None => Some []
              end = Some css
            ∧ mapM (read_cycle h) cs = Some css) as (cs & css & Hsp & Hrc & Hm).
  { destruct (currentCycles app) as [cl |] eqn:Hcl.
    - destruct (Htc cl eq_refl) as [css Hcss].
      pose proof Hcss as Hcss'.
      apply read_cycles_Some in Hcss as (cs & Hlk & Hm).
      exists cs, css. split_and!; [| done | done].
      unfold spread_array, h1. by rewrite (lookup_extend _ _ _ _ Hlk).
    - by exists [], []. }
  set (h2 := h1 ++ [CCycles cs]) in *.
  assert (∃ ow h3 vw k,
            match currentWFG app with
            | Some wfg_loc => prod_map Some id <$> json_clone wfg_loc h2
            | None => Some (None, h2)
            end = Some (ow, h3)
            ∧ h3 = h2 ++ k
            ∧ match currentWFG app with
              | Some wl => Some <$> read_wfg wl h
              | None => Some None
              end = Some vw
            ∧ match vw with
              | Some w => ∃ l, ow = Some l
                               ∧ h3 !! l = Some (CJsonWfg (json_wfg w))
              | None => ow = None
              end) as (ow & h3 & vw & k & Hwc & Hh3 & Hrw & Hvw).
  { destruct (currentWFG app) as [wl |] eqn:Hwl.
    - destruct (Htw wl eq_refl) as [w Hw]. rewrite Hw.
      assert (read_wfg wl h2 = Some w) as Hw2.
      { unfold h2, h1. by do 2 apply read_wfg_extend. }
      rewrite (json_clone_wfg wl h2 w Hw2). cbn.
      eexists _, _, (Some w), [CJsonWfg (json_wfg w)].
      split_and!; [reflexivity.. |].
      eexists. split; [reflexivity |]. by apply list_lookup_middle.
    - eexists None, h2, None, []. split_and!; try done.
      by rewrite app_nil_r. }
  assert (read_snapshot (length h) h3 = Some (json_snapshot d)) as Hrd3.
  { apply read_snapshot_Some. rewrite Hh3. unfold h2, h1.
    rewrite <- !app_assoc. by apply list_lookup_middle. }
  assert (read_cycles (length h1) h3 = Some css) as Hrcs.
  { rewrite Hh3. apply read_cycles_extend.
    apply read_cycles_Some. exists cs. split.
    - unfold h2. by apply list_lookup_middle.
    - apply mapM_Some. apply mapM_Some in Hm.
      eapply Forall2_impl; [exact Hm |]. intros x y.
      rewrite !read_cycle_Some. intros Hx. unfold h2, h1.
      by do 2 apply lookup_extend. }
  eexists _, h3, _, d, css, vw.
  split_and!.
  - unfold saveSnapshot. rewrite Hsl, Hclone. cbn [mbind option_bind].
    rewrite Hsp. cbn [mbind option_bind]. rewrite Hwc.
    cbn [mbind option_bind]. reflexivity.
  - reflexivity.
  - unfold live_view. rewrite Hsl. cbn [mbind option_bind].
    rewrite Hrd. cbn [mbind option_bind]. rewrite Hrc.
    cbn [mbind option_bind]. rewrite Hrw. reflexivity.
  - exact Hrd3.
  - exact Hrcs.
  - exact Hvw.
Qed.

Lemma live_typed_extend app app' h k :
  currentSnapshot app' = currentSnapshot app →
  currentWFG app' = currentWFG app →
  currentCycles app' = currentCycles app →
  live_typed app h → live_typed app' (h ++ k).
Proof.
  intros Hs Hw Hc (Hts & Htw & Htc). unfold live_typed.
  rewrite Hs, Hw, Hc. split_and!.
  - intros l [d Hd]%Hts. exists d.
    apply read_snapshot_Some, lookup_extend. by apply read_snapshot_Some.
  - intros l [w Hw']%Htw. exists w. by apply read_wfg_extend.
  - intros l [css Hcss]%Htc. exists css. by apply read_cycles_extend.
Qed.

Lemma live_view_extend app app' h k v :
  currentSnapshot app' = currentSnapshot app →
  currentWFG app' = currentWFG app →
  currentCycles app' = currentCycles app →
  live_view app h = Some v → live_view app' (h ++ k) = Some v.
Proof.
  intros Hs Hw Hc. unfold live_view. rewrite Hs, Hw, Hc.
  destruct (currentSnapshot app) as [sl |]; [| done]. cbn [mbind option_bind].
  destruct (read_snapshot sl h) as [d |] eqn:Hd; [| done].
  apply read_snapshot_Some in Hd.
  rewrite (proj2 (read_snapshot_Some sl (h ++ k) d) (lookup_extend _ _ _ _ Hd)).
  cbn [mbind option_bind].
  destruct (currentCycles app) as [cl |].
  - destruct (read_cycles cl h) as [css |] eqn:Hcss; [| done].
    rewrite (read_cycles_extend _ k _ _ Hcss). cbn [mbind option_bind].
    destruct (currentWFG app) as [wl |]; [| done].
    destruct (read_wfg wl h) as [w |] eqn:Hw'; [| done].
    by rewrite (read_wfg_extend _ k _ _ Hw').
  - cbn [mbind option_bind].
    destruct (currentWFG app) as [wl |]; [| done].
    destruct (read_wfg wl h) as [w |] eqn:Hw'; [| done].
    by rewrite (read_wfg_extend _ k _ _ Hw').
Qed.

(** X7.  A capture that succeeds only adds cells to the heap and at most
    one entry at the end of the list of saved snapshots: the fields of the
    live state are the same, the live values read the same, and every
    capture that could be read before reads the same afterwards. *)
Theorem X7_capture_frame now iso app h app' h' :
  saveSnapshot now iso app h = Some (app', h') →
  h `prefix_of` h'
  ∧ currentSnapshot app' = currentSnapshot app
  ∧ currentWFG app' = currentWFG app
  ∧ currentCycles app' = currentCycles app
  ∧ savedSnapshots app `prefix_of` savedSnapshots app'
  ∧ (length (savedSnapshots app') ≤ S (length (savedSnapshots app)))%nat
  ∧ (∀ sv v, read_saved sv h = Some v → read_saved sv h' = Some v)
  ∧ (∀ v, live_view app h = Some v → live_view app' h' = Some v).
Proof.
  intros ([k ->] & Hs & Hw & Hc & Hsaved)%saveSnapshot_shape.
  split_and!; try done.
  - by exists k.
  - destruct Hsaved as [[_ ->] | (_ & sv & -> & _)]; [done | by exists [sv]].
  - destruct Hsaved as [[_ ->] | (_ & sv & -> & _)]; [lia |].
    rewrite length_app. cbn. lia.
  - intros sv v. apply read_saved_extend.
  - intros v. by apply live_view_extend.
Qed.

Lemma X7_capture_frame_witness :
  ∃ app' h', once_saved = Some (app', h') ∧ live_heap `prefix_of` h'.
Proof.
  eexists _, _. split; [vm_compute; reflexivity |].
  eapply (X7_capture_frame 1 "t1" live_app live_heap).
  vm_compute. reflexivity.
Defined.



(** X9.  Captures keep the saved snapshots numbered: if the names are
    [Snapshot 1], [Snapshot 2], ... in order before a capture, they are so
    afterwards, and then no two saved snapshots have the same name. *)
Theorem X9_names_numbered now iso app h app' h' :
  numbered (savedSnapshots app) →
  saveSnapshot now iso app h = Some (app', h') →
  numbered (savedSnapshots app') ∧ NoDup (name <$> savedSnapshots app').
Proof.
  intros Hnum (_ & _ & _ & _ & Hsaved)%saveSnapshot_shape.
  assert (numbered (savedSnapshots app')) as Hnum'.
  { destruct Hsaved as [[_ ->] | (_ & sv & -> & _ & _ & Hname)]; [done |].
    intros i sv' [[_ Hi] | [Hlen Hsv]]%lookup_snoc_Some; [by apply Hnum |].
    subst. exact Hname. }
  split; [done |]. apply NoDup_alt. intros i j x Hi Hj.
  apply list_lookup_fmap_Some in Hi as (svi & -> & Hi).
  apply list_lookup_fmap_Some in Hj as (svj & Heq & Hj).
  rewrite (Hnum' _ _ Hi), (Hnum' _ _ Hj) in Heq.
  apply append_inj_l in Heq. apply (inj pretty) in Heq. lia.
Qed.

Lemma X9_names_numbered_witness :
  ∃ app' h',
    once_saved = Some (app', h')
    ∧ numbered (savedSnapshots app')
    ∧ NoDup (name <$> savedSnapshots app').
Proof.
  eexists _, _. split; [vm_compute; reflexivity |].
  eapply (X9_names_numbered 1 "t1" live_app live_heap);
    [| vm_compute; reflexivity].
  intros i sv Hi. by destruct i.
Defined.

Lemma array_find_first {A} (test : A → bool) (l1 l2 : list A) (x : A) :
  (∀ y, y ∈ l1 → test y = false) → test x = true →
  array_find test (l1 ++ x :: l2) = Some x.
Proof.
  intros Hl1 Hx. induction l1 as [| y l1 IH]; cbn.
  - by rewrite Hx.
  - rewrite Hl1 by (apply elem_of_cons; by left).
    apply IH. intros z Hz. apply Hl1, elem_of_cons. by right.
Qed.

Lemma array_find_Some {A} (test : A → bool) (l : list A) (x : A) :
  array_find test l = Some x → x ∈ l ∧ test x = true.
Proof.
  induction l as [| y l IH]; cbn; [done |].
  destruct (test y) eqn:Hy.
  - intros [= <-]. split; [apply elem_of_cons; by left | done].
  - intros [Hin Ht]%IH. split; [apply elem_of_cons; by right | done].
Qed.

Lemma array_find_None {A} (test : A → bool) (l : list A) :
  array_find test l = None ↔ ∀ y, y ∈ l → test y = false.
Proof.
  induction l as [| y l IH]; cbn.
  - split; [intros _ y ?%elem_of_nil; done | done].
  - destruct (test y) eqn:Hy.
    + split; [done |]. intros Hall.
      rewrite Hall in Hy by (apply elem_of_cons; by left). done.
    + rewrite IH. split.
      * intros Hall z [-> | Hz]%elem_of_cons; [done | by apply Hall].
      * intros Hall z Hz. apply Hall, elem_of_cons. by right.
Qed.

Lemma pretty_Z_nonempty (z : Z) : pretty z ≠ ""%string.
Proof.
  intros Heq. pose proof (parseInt_pretty z) as Hp. rewrite Heq in Hp.
  discriminate Hp.
Qed.

(** X10.  The lookup behind the two comparison selectors, for option
    values that are the decimal forms of snapshot ids (on which [==] is
    equality of the numbers): an empty value finds nothing; the value of an
    id finds the first saved snapshot with that id, and nothing exactly
    when no saved snapshot has it; so with pairwise distinct ids every saved
    snapshot is found by its own id, while of two snapshots with the same
    id only the earlier one can be found.  After a capture at a time that
    is no saved id yet, that time finds the new snapshot and every other id
    finds what it found before. *)
Theorem X10_lookup_by_id (loose_eq : Z → string → bool)
    (saved : list SavedSnapshot) :
  (∀ z z', loose_eq z (pretty z') = bool_decide (z = z')) →
  loadComparisonSnapshot loose_eq saved "" = None
  ∧ (∀ l1 sv l2,
       saved = l1 ++ sv :: l2 → saved_id sv ∉ saved_id <$> l1 →
       loadComparisonSnapshot loose_eq saved (pretty (saved_id sv)) = Some sv)
  ∧ (∀ z sv,
       loadComparisonSnapshot loose_eq saved (pretty z) = Some sv →
       sv ∈ saved ∧ saved_id sv = z)
  ∧ (∀ z, loadComparisonSnapshot loose_eq saved (pretty z) = None
          ↔ z ∉ saved_id <$> saved)
  ∧ (∀ sv, NoDup (saved_id <$> saved) → sv ∈ saved →
           loadComparisonSnapshot loose_eq saved (pretty (saved_id sv))
           = Some sv)
  ∧ (∀ now iso app h app' h',
       savedSnapshots app = saved →
       saveSnapshot now iso app h = Some (app', h') →
       is_Some (currentSnapshot app) → now ∉ saved_id <$> saved →
       loadComparisonSnapshot loose_eq (savedSnapshots app') (pretty now)
       = last (savedSnapshots app')
       ∧ ∀ z, z ≠ now →
           loadComparisonSnapshot loose_eq (savedSnapshots app') (pretty z)
           = loadComparisonSnapshot loose_eq saved (pretty z)).
Proof.
  intros Heq.
  assert (∀ l z, loadComparisonSnapshot loose_eq l (pretty z)
                 = array_find (λ s, bool_decide (saved_id s = z)) l) as Hload.
  { intros l z. unfold loadComparisonSnapshot.
    rewrite bool_decide_eq_false_2 by apply pretty_Z_nonempty.
    induction l as [| s l IH]; cbn; [done |]. by rewrite Heq, IH. }
  assert (∀ l l1 sv l2,
       l = l1 ++ sv :: l2 → saved_id sv ∉ saved_id <$> l1 →
       loadComparisonSnapshot loose_eq l (pretty (saved_id sv)) = Some sv)
    as Hfirst.
  { intros l l1 sv l2 -> Hnotin. rewrite Hload. apply array_find_first.
    - intros y Hy. apply bool_decide_eq_false. intros Hid. apply Hnotin.
      rewrite <- Hid. apply list_elem_of_fmap. by exists y.
    - by apply bool_decide_eq_true. }
  split_and!.
  - done.
  - apply Hfirst.
  - intros z sv. rewrite Hload. intros [Hin Ht]%array_find_Some.
    by apply bool_decide_eq_true in Ht.
  - intros z. rewrite Hload, array_find_None. split.
    + intros Hall (sv & -> & Hin)%list_elem_of_fmap.
      specialize (Hall sv Hin). by apply bool_decide_eq_false in Hall.
    + intros Hnotin y Hy. apply bool_decide_eq_false. intros <-.
      apply Hnotin. apply list_elem_of_fmap. by exists y.
  - intros sv Hnd Hin.
    apply list_elem_of_split in Hin as (l1 & l2 & Hsplit).
    apply (Hfirst _ l1 sv l2 Hsplit).
    rewrite Hsplit, fmap_app, fmap_cons in Hnd.
    apply NoDup_app in Hnd as (_ & Hdisj & _).
    intros Hin1. apply (Hdisj _ Hin1). apply elem_of_cons. by left.
  - intros now iso app h app' h' <- Hsave Hsome Hfresh.
    apply saveSnapshot_shape in Hsave
      as (_ & _ & _ & _ & [[Hn _] | (_ & sv & -> & Hid & _)]).
    { rewrite Hn in Hsome. by destruct Hsome. }
    rewrite last_snoc. split.
    + rewrite <- Hid. apply (Hfirst _ (savedSnapshots app) sv []); [done |].
      by rewrite Hid.
    + intros z Hz. rewrite !Hload.
      induction (savedSnapshots app) as [| s l IH]; cbn.
      * rewrite bool_decide_eq_false_2; [done | congruence].
      * destruct (bool_decide (saved_id s = z)); [done |]. apply IH.
        intros Hin. apply Hfresh. rewrite fmap_cons. apply elem_of_cons.
        by right.
Qed.

Lemma X10_lookup_by_id_witness :
  let first_saved :=
    {| saved_id := 1; name := "Snapshot 1"; timestamp := "t1";
       data := 4%nat; cycles := 5%nat; wfg := Some 6%nat |} in
  let second_saved :=
    {| saved_id := 2; name := "Snapshot 2"; timestamp := "t2";
       data := 7%nat; cycles := 8%nat; wfg := Some 9%nat |} in
  loadComparisonSnapshot (λ z s, bool_decide (parseInt s = Num z))
    [first_saved; second_saved] (pretty (saved_id second_saved))
  = Some second_saved.
Proof.
  intros first_saved second_saved.
  destruct (X10_lookup_by_id (λ z s, bool_decide (parseInt s = Num z))
              [first_saved; second_saved])
    as (_ & _ & _ & _ & Hfind & _).
  - intros z z'. rewrite parseInt_pretty. apply bool_decide_ext.
    split; [by intros [= ->] | by intros ->].
  - apply Hfind.
    + apply (bool_decide_unpack _). vm_compute. exact I.
    + apply elem_of_cons. right. apply elem_of_cons. by left.
Defined.

(** X11.  From a well-typed live state with a snapshot loaded, two
    captures in a row succeed and add two saved snapshots, so the
    comparison dialog opens afterwards whatever was saved before; starting
    from an empty list it opens neither before the first capture nor after
    the first capture alone. *)
Theorem X11_comparison_after_two_captures now1 iso1 now2 iso2 app h :
  live_typed app h → is_Some (currentSnapshot app) →
  ∃ app1 h1 app2 h2,
    saveSnapshot now1 iso1 app h = Some (app1, h1)
    ∧ saveSnapshot now2 iso2 app1 h1 = Some (app2, h2)
    ∧ length (savedSnapshots app2) = S (S (length (savedSnapshots app)))
    ∧ openComparisonMode (savedSnapshots app2) = true
    ∧ (savedSnapshots app = [] →
       openComparisonMode (savedSnapshots app) = false
       ∧ openComparisonMode (savedSnapshots app1) = false).
Proof.
  intros Htyped Hsome.
  destruct (saveSnapshot_typed now1 iso1 app h Htyped Hsome)
    as (app1 & h1 & sv1 & d1 & css1 & vw1 & Hsave1 & Hsaved1 & _).
  destruct (saveSnapshot_shape _ _ _ _ _ _ Hsave1)
    as ([k ->] & Hs & Hw & Hc & _).
  assert (live_typed app1 (h ++ k)) as Htyped1 by by apply (live_typed_extend app).
  assert (is_Some (currentSnapshot app1)) as Hsome1 by by rewrite Hs.
  destruct (saveSnapshot_typed now2 iso2 app1 (h ++ k) Htyped1 Hsome1)
    as (app2 & h2 & sv2 & d2 & css2 & vw2 & Hsave2 & Hsaved2 & _).
  exists app1, (h ++ k), app2, h2. split_and!; [done | done | | |].
  - rewrite Hsaved2, Hsaved1, !length_app. cbn. lia.
  - rewrite Hsaved2, Hsaved1. unfold openComparisonMode.
    rewrite !length_app. cbn [length]. apply negb_true_iff, Nat.ltb_ge. lia.
  - intros Hnil. rewrite Hsaved1, Hnil. done.
Qed.

Lemma X11_comparison_after_two_captures_witness :
  ∃ app1 h1 app2 h2,
    saveSnapshot 1 "t1" live_app live_heap = Some (app1, h1)
    ∧ saveSnapshot 2 "t2" app1 h1 = Some (app2, h2)
    ∧ length (savedSnapshots app2) = S (S (length (savedSnapshots live_app)))
    ∧ openComparisonMode (savedSnapshots app2) = true
    ∧ (savedSnapshots live_app = [] →
       openComparisonMode (savedSnapshots live_app) = false
       ∧ openComparisonMode (savedSnapshots app1) = false).
Proof.
  apply (X11_comparison_after_two_captures 1 "t1" 2 "t2" live_app live_heap).
  - split_and!; intros l [= <-]; eexists; vm_compute; reflexivity.
  - by eexists.
Defined.

(** ** Refreshing the graph view *)

(** The calls of a refresh, case by case. *)
Lemma refreshVisualization_cases (selectedMode : string)
    (currentSnapshot : option Snapshot) (currentWFG : option WFG)
    (currentCycles : list (list Z)) :
  refreshVisualization selectedMode currentSnapshot currentWFG currentCycles
  = if decide (selectedMode = "RAG"%string) then
      match currentSnapshot with
      | Some s =>
          (currentWFG,
           if throws (renderRAG s) then [renderRAG s]
           else [renderRAG s; renderRAG s])
      | None => (currentWFG, [])
      end
    else if decide (selectedMode = "WFG"%string) then
      match currentWFG, currentSnapshot with
      | Some w, _ => (currentWFG, [renderWFG w currentCycles])
      | None, Some s =>
          (Some (buildWFGFromSnapshot s),
           [renderWFG (buildWFGFromSnapshot s) currentCycles])
      | None, None => (None, [])
      end
    else (currentWFG, []).
Proof.
  unfold refreshVisualization.
  destruct (decide (selectedMode = "RAG"%string)) as [-> | Hrag].
  { rewrite !(bool_decide_eq_true_2 ("RAG" = "RAG")%string) by done.
    destruct currentSnapshot as [s |].
    - rewrite bool_decide_eq_true_2 by by eexists.
      cbn [andb existsb orb]. rewrite orb_false_r.
      by destruct (throws (renderRAG s)).
    - rewrite bool_decide_eq_false_2 by by intros [? ?].
      cbn [andb]. rewrite (bool_decide_eq_false_2 ("RAG" = "WFG")%string)
        by done. done. }
  rewrite !(bool_decide_eq_false_2 (selectedMode = "RAG"%string)) by done.
  cbn [andb].
  destruct (decide (selectedMode = "WFG"%string)) as [-> | Hwfg].
  { rewrite !(bool_decide_eq_true_2 ("WFG" = "WFG")%string) by done.
    destruct currentWFG as [w |], currentSnapshot as [s |];
      cbn [existsb orb]; rewrite ?orb_false_r;
      try (by destruct (throws _)); done. }
  rewrite !(bool_decide_eq_false_2 (selectedMode = "WFG"%string)) by done.
  by destruct currentSnapshot.
Qed.

Lemma refresh_RAG s currentWFG currentCycles :
  refreshVisualization "RAG" (Some s) currentWFG currentCycles
  = (currentWFG,
     if throws (renderRAG s) then [renderRAG s]
     else [renderRAG s; renderRAG s]).
Proof. rewrite refreshVisualization_cases. by rewrite decide_True. Qed.

Lemma refresh_WFG_set other w currentCycles :
  refreshVisualization "WFG" other (Some w) currentCycles
  = (Some w, [renderWFG w currentCycles]).
Proof.
  rewrite refreshVisualization_cases.
  rewrite decide_False by done. by rewrite decide_True.
Qed.

Lemma refresh_WFG_derive s currentCycles :
  refreshVisualization "WFG" (Some s) None currentCycles
  = (Some (buildWFGFromSnapshot s),
     [renderWFG (buildWFGFromSnapshot s) currentCycles]).
Proof.
  rewrite refreshVisualization_cases.
  rewrite decide_False by done. by rewrite decide_True.
Qed.

Lemma screen_one before r :
  screen before [r] = if throws r then None else Some (rendered r).
Proof.
  unfold screen, renderGraph, throws. cbn [foldl].
  by destruct (forceLink (rendered r)).
Qed.

Lemma screen_twice before r :
  screen before [r; r] = if throws r then None else Some (rendered r).
Proof.
  unfold screen, renderGraph, throws. cbn [foldl].
  by destruct (forceLink (rendered r)).
Qed.

Lemma throws_resolves r : throws r = false ↔ links_resolve (rendered r).
Proof.
  unfold throws. rewrite negb_false_iff. apply forceLink_resolves.
Qed.

(** X12.  Refreshing the view.  In RAG mode with a snapshot loaded
    whose pids are safe integers, the graph of the snapshot is drawn twice
    when every link end names a node; when one does not, the first call
    throws, the fallback is not reached and the view is left empty; the
    first is the case for a snapshot whose keys refer to listed entries, the
    second for an allocation whose process is not listed.  In WFG mode with
    a wait-for graph in the field there is one call, which does not depend
    on the snapshot, so after the graph was derived from one snapshot a
    refresh with another snapshot loaded still hands the graph of the first
    to the view.  A refresh changes the field only from empty to the graph
    derived from the snapshot, and refreshing again from the state it left
    makes the same calls and leaves the same state. *)
Theorem X12_refresh (selectedMode : string) (currentSnapshot : option Snapshot)
    (currentWFG : option WFG) (currentCycles : list (list Z)) :
  (∀ s before,
     safe_pids s →
     let after :=
       refreshVisualization "RAG" (Some s) currentWFG currentCycles in
     after.1 = currentWFG
     ∧ (links_resolve (buildRAGGraph s) →
        after.2 = [renderRAG s; renderRAG s]
        ∧ screen before after.2 = Some (buildRAGGraph s))
     ∧ (¬ links_resolve (buildRAGGraph s) →
        after.2 = [renderRAG s] ∧ screen before after.2 = None)
     ∧ (no_passthrough "id" s → referentially_closed s →
        after.2 = [renderRAG s; renderRAG s]))
  ∧ (∀ before,
       (refreshVisualization "RAG" (Some dangling_snapshot) currentWFG
          currentCycles).2 = [renderRAG dangling_snapshot]
       ∧ screen before
           (refreshVisualization "RAG" (Some dangling_snapshot) currentWFG
              currentCycles).2 = None)
  ∧ (∀ w other,
       refreshVisualization "WFG" other (Some w) currentCycles
       = (Some w, [renderWFG w currentCycles]))
  ∧ (∀ s other cycles',
       let after := refreshVisualization "WFG" (Some s) None currentCycles in
       after.1 = Some (buildWFGFromSnapshot s)
       ∧ (refreshVisualization "WFG" other after.1 cycles').2
         = [renderWFG (buildWFGFromSnapshot s) cycles']
       ∧ (requests_in_format s →
          ∀ before,
            screen before (refreshVisualization "WFG" other after.1 cycles').2
            = Some (buildWFGGraph (buildWFGFromSnapshot s) cycles')))
  ∧ (let after :=
       refreshVisualization selectedMode currentSnapshot currentWFG
         currentCycles in
     (after.1 = currentWFG
      ∨ currentWFG = None ∧ selectedMode = "WFG"%string
        ∧ after.1 = buildWFGFromSnapshot <$> currentSnapshot)
     ∧ (currentSnapshot = None → currentWFG = None → after = (None, []))
     ∧ refreshVisualization selectedMode currentSnapshot after.1
         currentCycles = after).
Proof.
  split_and!.
  - intros s before _. cbv zeta. rewrite refresh_RAG. cbn [fst snd].
    split_and!.
    + done.
    + intros Hres%(throws_resolves (renderRAG s)). rewrite Hres.
      split; [done |]. by rewrite screen_twice, Hres.
    + intros Hres.
      assert (throws (renderRAG s) = true) as Hthrows.
      { apply not_false_is_true. by intros ?%throws_resolves. }
      rewrite Hthrows. split; [done |]. by rewrite screen_one, Hthrows.
    + intros Hid Hclosed%referentially_closed_pieces.
      by rewrite (proj2 (throws_resolves (renderRAG s))
                    (rag_links_resolve s Hid Hclosed)).
  - intros before. rewrite refresh_RAG. cbn [fst snd].
    assert (throws (renderRAG dangling_snapshot) = true) as Hthrows
      by (vm_compute; reflexivity).
    rewrite Hthrows. split; [done |]. by rewrite screen_one, Hthrows.
  - intros w other. apply refresh_WFG_set.
  - intros s other cycles'. cbv zeta. rewrite refresh_WFG_derive.
    cbn [fst snd]. rewrite refresh_WFG_set. cbn [fst snd].
    split_and!; [done | done |].
    intros Hformat before. rewrite screen_one.
    by rewrite (proj2 (throws_resolves
                         (renderWFG (buildWFGFromSnapshot s) cycles'))
                  (derived_links_resolve s cycles')).
  - cbv zeta.
    destruct (decide (selectedMode = "RAG"%string)) as [-> | Hrag].
    { destruct currentSnapshot as [s |].
      - rewrite refresh_RAG. cbn [fst snd]. rewrite refresh_RAG.
        split_and!; [by left | done | done].
      - rewrite refreshVisualization_cases. rewrite decide_True by done.
        cbn [fst snd]. rewrite refreshVisualization_cases.
        rewrite decide_True by done.
        split_and!; [by left | by intros _ -> | done]. }
    destruct (decide (selectedMode = "WFG"%string)) as [-> | Hwfg].
    { destruct currentWFG as [w |].
      - rewrite refresh_WFG_set. cbn [fst snd]. rewrite refresh_WFG_set.
        split_and!; [by left | done | done].
      - destruct currentSnapshot as [s |].
        + rewrite refresh_WFG_derive. cbn [fst snd]. rewrite refresh_WFG_set.
          split_and!; [by right | done | done].
        + rewrite refreshVisualization_cases.
          rewrite decide_False by done. rewrite decide_True by done.
          cbn [fst snd]. rewrite refreshVisualization_cases.
          rewrite decide_False by done. rewrite decide_True by done.
          split_and!; [by left | done | done]. }
    rewrite refreshVisualization_cases.
    rewrite decide_False by done. rewrite decide_False by done.
    cbn [fst snd]. rewrite refreshVisualization_cases.
    rewrite decide_False by done. rewrite decide_False by done.
    split_and!; [by left | by intros _ -> | done].
Qed.

Lemma X12_refresh_witness :
  (refreshVisualization "RAG" (Some chain_snapshot) None []).2
  = [renderRAG chain_snapshot; renderRAG chain_snapshot]
  ∧ screen None (refreshVisualization "RAG" (Some chain_snapshot) None []).2
    = Some (buildRAGGraph chain_snapshot).
Proof.
  destruct (X12_refresh "RAG" None None []) as (Hrag & _).
  destruct (Hrag chain_snapshot None) as (_ & Hdraws & _).
  - intros p Hp. cbn in Hp.
    repeat (apply elem_of_cons in Hp as [-> | Hp];
            [by apply safe_integer_dec_true |]).
    by apply elem_of_nil in Hp.
  - apply Hdraws. apply forceLink_resolves. vm_compute. reflexivity.
Defined.




Lemma NoDup_fmap_eq {A B} (f : A → B) (l : list A) (x y : A) :
  NoDup (f <$> l) → x ∈ l → y ∈ l → f x = f y → x = y.
Proof.
  induction l as [| z l IH]; [by intros _ ?%elem_of_nil |].
  rewrite fmap_cons, NoDup_cons.
  intros [Hz Hnd] [-> | Hx]%elem_of_cons [-> | Hy]%elem_of_cons Hf.
  - done.
  - exfalso. apply Hz. rewrite Hf. apply list_elem_of_fmap. by exists y.
  - exfalso. apply Hz. rewrite <- Hf. apply list_elem_of_fmap. by exists x.
  - by apply IH.
Qed.

Lemma max_handle_bound (timers : list (Z * Callback)) (t : Z * Callback) :
  t ∈ timers → t.1 ≤ foldr Z.max 0 (fst <$> timers).
Proof.
  induction timers as [| u timers IH]; [by intros ?%elem_of_nil |].
  cbn. intros [-> | Ht]%elem_of_cons; [lia |]. specialize (IH Ht). lia.
Qed.

Lemma setInterval_ok cb timers :
  NoDup (fst <$> timers) → (∀ t, t ∈ timers → 0 < t.1) →
  let '(handle, timers') := setInterval cb timers in
  timers' = timers ++ [(handle, cb)]
  ∧ 0 < handle
  ∧ (handle ∉ fst <$> timers)
  ∧ NoDup (fst <$> timers')
  ∧ (∀ t, t ∈ timers' → 0 < t.1).
Proof.
  intros Hnd Hpos. unfold setInterval.
  set (handle := 1 + foldr Z.max 0 (fst <$> timers)).
  assert (0 < handle) as Hh.
  { unfold handle. clear. induction timers as [| u timers IH]; cbn; lia. }
  assert (handle ∉ fst <$> timers) as Hfresh.
  { intros (t & Heq & Ht)%list_elem_of_fmap.
    pose proof (max_handle_bound _ _ Ht). unfold handle in Heq. lia. }
  split_and!; try done.
  - rewrite fmap_app. apply NoDup_app. split_and!; [done | |].
    + intros x Hx [-> | []%elem_of_nil]%elem_of_cons. done.
    + apply NoDup_singleton.
  - intros t [Ht | [-> | []%elem_of_nil]%elem_of_cons]%elem_of_app;
      [by apply Hpos | done].
Qed.

(** X14.  Switching auto-refresh keeps the timers of the page in order:
    afterwards the field holds a timer exactly when auto-refresh was
    switched on, exactly that timer reloads the snapshot (so switching on
    twice does not leave two of them running), and the timers with other
    callbacks are the ones that were there before. *)
Theorem X14_auto_refresh_timer (enabled : bool)
    (autoRefreshInterval : option Z) (timers : list (Z * Callback)) :
  auto_refresh_ok autoRefreshInterval timers →
  let after := toggleAutoRefresh enabled autoRefreshInterval timers in
  auto_refresh_ok after.1 after.2
  ∧ (is_Some after.1 ↔ enabled = true)
  ∧ running tick_loadSystemSnapshot after.2 = (if enabled then 1 else 0)%nat
  ∧ filter (λ t, t.2 ≠ tick_loadSystemSnapshot) after.2
    = filter (λ t, t.2 ≠ tick_loadSystemSnapshot) timers.
Proof.
  intros (Hnd & Hpos & Hload).
  set (cleared :=
         match autoRefreshInterval with
         | Some handle => clearInterval handle timers
         | None => timers
         end).
  assert (NoDup (fst <$> cleared)
          ∧ (∀ t, t ∈ cleared → 0 < t.1)
          ∧ filter (λ t, t.2 = tick_loadSystemSnapshot) cleared = []
          ∧ filter (λ t, t.2 ≠ tick_loadSystemSnapshot) cleared
            = filter (λ t, t.2 ≠ tick_loadSystemSnapshot) timers)
    as (Hnd' & Hpos' & Hload' & Hother).
  { unfold cleared. destruct autoRefreshInterval as [handle |]; [| done].
    assert ((handle, tick_loadSystemSnapshot) ∈ timers) as Hin.
    { apply (list_elem_of_filter (λ t, t.2 = tick_loadSystemSnapshot)).
      rewrite Hload. apply elem_of_cons. by left. }
    unfold clearInterval. split_and!.
    - clear -Hnd. induction timers as [| t timers IH]; [done |].
      rewrite fmap_cons, NoDup_cons in Hnd. destruct Hnd as [Ht Hnd].
      rewrite filter_cons. destruct (decide (t.1 ≠ handle)); [| by apply IH].
      rewrite fmap_cons, NoDup_cons. split; [| by apply IH].
      intros (u & Heq & Hu%list_elem_of_filter)%list_elem_of_fmap.
      apply Ht, list_elem_of_fmap. exists u. tauto.
    - intros t Ht%list_elem_of_filter. apply Hpos, Ht.
    - apply filter_none.
      intros t [Hne Ht]%list_elem_of_filter Hcb. apply Hne.
      assert (t ∈ filter (λ t, t.2 = tick_loadSystemSnapshot) timers) as Ht'
        by by apply list_elem_of_filter.
      rewrite Hload in Ht'.
      by apply elem_of_cons in Ht' as [-> | []%elem_of_nil].
    - rewrite list_filter_filter. apply filter_ext_in.
      intros t Ht. split; [tauto |]. intros Hcb. split; [done |].
      intros Heq. apply Hcb.
      by rewrite (NoDup_fmap_eq fst timers t (handle, tick_loadSystemSnapshot)
                    Hnd Ht Hin Heq). }
  assert (toggleAutoRefresh enabled autoRefreshInterval timers
          = if enabled
            then ((Some (setInterval tick_loadSystemSnapshot cleared).1),
                  (setInterval tick_loadSystemSnapshot cleared).2)
            else (None, cleared)) as Htoggle.
  { unfold toggleAutoRefresh, cleared.
    destruct autoRefreshInterval as [handle |].
    - assert (0 < handle) as Hh.
      { apply (Hpos (handle, tick_loadSystemSnapshot)).
        apply (list_elem_of_filter (λ t, t.2 = tick_loadSystemSnapshot)).
        rewrite Hload. apply elem_of_cons. by left. }
      replace (handle =? 0) with false by (symmetry; apply Z.eqb_neq; lia).
      cbn [negb]. by destruct enabled.
    - by destruct enabled. }
  cbv zeta. rewrite Htoggle. clear Htoggle.
  destruct enabled.
  - pose proof (setInterval_ok tick_loadSystemSnapshot cleared Hnd' Hpos')
      as Hset.
    destruct (setInterval tick_loadSystemSnapshot cleared)
      as [handle timers'].
    destruct Hset as (-> & Hh & Hfresh & Hnd'' & Hpos'').
    cbn [fst snd].
    assert (filter (λ t, t.2 = tick_loadSystemSnapshot)
              (cleared ++ [(handle, tick_loadSystemSnapshot)])
            = [(handle, tick_loadSystemSnapshot)]) as Hone.
    { by rewrite filter_app, Hload'. }
    split; [by split_and! | split; [| split]].
    + split; [done | by eexists].
    + unfold running. by rewrite Hone.
    + rewrite filter_app, Hother.
      rewrite (filter_none _ [(handle, tick_loadSystemSnapshot)]).
      * by rewrite app_nil_r.
      * intros t [-> | []%elem_of_nil]%elem_of_cons Hne. by apply Hne.
  - cbn [fst snd]. split; [by split_and! | split; [| split]].
    + split; [by intros [? ?] | done].
    + unfold running. by rewrite Hload'.
    + done.
Qed.

Lemma X14_auto_refresh_timer_witness :
  let timers := startRuntimeCounter [] in
  let on_once := toggleAutoRefresh true None timers in
  let on_twice := toggleAutoRefresh true on_once.1 on_once.2 in
  running tick_loadSystemSnapshot on_twice.2 = 1%nat.
Proof.
  intros timers on_once on_twice.
  assert (auto_refresh_ok None timers) as Hok.
  { split_and!.
    - apply (bool_decide_unpack _). vm_compute. exact I.
    - intros t Ht. vm_compute in Ht.
      apply elem_of_cons in Ht as [-> | Ht]; [done |].
      apply elem_of_cons in Ht as [-> | []%elem_of_nil]; done.
    - vm_compute. reflexivity. }
  destruct (X14_auto_refresh_timer true None timers Hok) as (Hok1 & _).
  destruct (X14_auto_refresh_timer true on_once.1 on_once.2 Hok1)
    as (_ & _ & Hrun & _).
  exact Hrun.
Defined.

Lemma sum_values_foldr (o : JsObj Z) :
  sum_values o = foldr Z.add 0 (snd <$> own_entries o).
Proof.
  unfold sum_values. generalize (snd <$> own_entries o). intros l.
  assert (∀ acc, foldl (λ sum val, sum + val) acc l = acc + foldr Z.add 0 l)
    as Hacc.
  { induction l as [| x l IH]; intros acc; cbn; [lia |]. rewrite IH. lia. }
  rewrite Hacc. lia.
Qed.

Lemma weight_of_edges (edge : string → Z → Link) (type : LinkType)
    (es : list (string * Z)) :
  (∀ key count, link_type (edge key count) = type) →
  (∀ key count, link_weight (edge key count) = Some count) →
  (∀ kc, kc ∈ es → 0 ≤ kc.2) →
  total_weight type
    (omap (λ kc, if 0 <? kc.2 then Some (edge kc.1 kc.2) else None) es)
  = foldr Z.add 0 (snd <$> es).
Proof.
  intros Hty Hw. unfold total_weight.
  induction es as [| [key count] es IH]; intros Hpos; [done |].
  specialize (IH ltac:(intros kc Hkc; apply Hpos, elem_of_cons; by right)).
  pose proof (Hpos (key, count) ltac:(apply elem_of_cons; by left)) as Hc.
  cbn [omap list_omap fmap list_fmap foldr fst snd] in *.
  destruct (0 <? count) eqn:Hlt.
  - rewrite filter_cons, decide_True by apply Hty.
    cbn [omap list_omap]. rewrite Hw. cbn [foldr]. by rewrite IH.
  - apply Z.ltb_ge in Hlt. rewrite IH. lia.
Qed.

Lemma weight_of_other_edges (edge : string → Z → Link) (type : LinkType)
    (es : list (string * Z)) :
  (∀ key count, link_type (edge key count) ≠ type) →
  total_weight type
    (omap (λ kc, if 0 <? kc.2 then Some (edge kc.1 kc.2) else None) es) = 0.
Proof.
  intros Hty. unfold total_weight. rewrite filter_none; [done |].
  intros l ([key count] & _ & Hl)%list_elem_of_omap.
  cbn [fst snd] in Hl. destruct (0 <? count); [| done].
  injection Hl as <-. apply Hty.
Qed.

Lemma total_weight_app type l1 l2 :
  total_weight type (l1 ++ l2) = total_weight type l1 + total_weight type l2.
Proof.
  unfold total_weight. rewrite filter_app, omap_app, foldr_app.
  generalize (omap link_weight (filter (λ l, link_type l = type) l1)).
  intros ws. generalize (foldr Z.add 0
    (omap link_weight (filter (λ l, link_type l = type) l2))). intros b.
  induction ws as [| w ws IH]; cbn; [lia |]. rewrite IH. lia.
Qed.

Lemma link_type_allocation_edge key count :
  link_type (allocation_edge key count) = allocation_link.
Proof. unfold allocation_edge. by destruct (split_key key). Qed.

Lemma link_type_request_edge key count :
  link_type (request_edge key count) = request_link.
Proof. unfold request_edge. by destruct (split_key key). Qed.

(** X15.  The figures of the comparison panel against the
    resource-allocation graph of the same snapshot: processes and resources
    together are as many as the nodes of the graph; when no count is
    negative, the allocations shown are the total weight of the allocation
    edges and the requests shown the total weight of the request edges; the
    snapshot is reported as deadlocked exactly when it holds a cycle. *)
Theorem X15_stats_match_graph (snapshot : SavedView) :
  let stats := displayComparisonStats snapshot in
  let graph := buildRAGGraph (view_data snapshot) in
  numProcesses stats + numResources stats = Z.of_nat (length (nodes graph))
  ∧ ((∀ kc, kc ∈ own_entries (allocation (view_data snapshot)) → 0 ≤ kc.2) →
     numAllocations stats = total_weight allocation_link (links graph))
  ∧ ((∀ kc, kc ∈ own_entries (request (view_data snapshot)) → 0 ≤ kc.2) →
     numRequests stats = total_weight request_link (links graph))
  ∧ (hasCycles stats = true ↔ view_cycles snapshot ≠ [])
  ∧ (deadlock_text stats = "No"%string ↔ view_cycles snapshot = []).
Proof.
  cbv zeta. split_and!.
  - rewrite rag_nodes, length_app, !length_fmap.
    unfold displayComparisonStats. cbn [numProcesses numResources].
    unfold own_keys. rewrite length_fmap. lia.
  - intros Hpos. rewrite rag_links, total_weight_app.
    rewrite (weight_of_edges allocation_edge allocation_link);
      [| apply link_type_allocation_edge
       | intros key count; apply link_weight_allocation_edge | done].
    rewrite (weight_of_other_edges request_edge allocation_link).
    + unfold displayComparisonStats. cbn [numAllocations].
      rewrite sum_values_foldr. lia.
    + intros key count. by rewrite link_type_request_edge.
  - intros Hpos. rewrite rag_links, total_weight_app.
    rewrite (weight_of_edges request_edge request_link);
      [| apply link_type_request_edge
       | intros key count; apply link_weight_request_edge | done].
    rewrite (weight_of_other_edges allocation_edge request_link).
    + unfold displayComparisonStats. cbn [numRequests].
      rewrite sum_values_foldr. lia.
    + intros key count. by rewrite link_type_allocation_edge.
  - unfold displayComparisonStats. cbn [hasCycles].
    destruct (view_cycles snapshot); cbn; [split; done | split; done].
  - unfold displayComparisonStats. cbn [deadlock_text].
    destruct (view_cycles snapshot); cbn; [split; done | split; done].
Qed.

(** X16.  The styling of a resource-allocation graph whose entries carry
    no [type] and no [inCycle] property of their own: every node has a
    white stroke; a process node is blue with radius 30 and a resource node
    green with radius 25, so no node is drawn in the red of a cycle; an
    allocation edge is dark and a request edge red, and there is no other
    edge. *)
Theorem X16_rag_styling (s : Snapshot) :
  (no_passthrough "type" s → no_passthrough "inCycle" s →
   ∀ n, n ∈ nodes (buildRAGGraph s) →
     getNodeStrokeColor n = "white"%string
     ∧ (node_type n = Some (VStr "process")
        ∧ getNodeColor n = "#2563eb"%string ∧ getNodeRadius n = 30
        ∨ node_type n = Some (VStr "resource")
          ∧ getNodeColor n = "#10b981"%string ∧ getNodeRadius n = 25))
  ∧ (∀ l, l ∈ links (buildRAGGraph s) →
       link_type l = allocation_link
       ∧ getEdgeColor (link_type l) = "#1f2937"%string
       ∨ link_type l = request_link
         ∧ getEdgeColor (link_type l) = "#ef4444"%string).
Proof.
  split.
  - intros [Hptype Hrtype] [Hpcyc Hrcyc] n
      [(p & Hp & ->) | (rid & r & Hr & ->)]%elem_of_rag_nodes.
    + unfold getNodeStrokeColor, getNodeColor, getNodeRadius, node_type.
      rewrite !(process_node_field p "inCycle") by (done || by apply Hpcyc).
      rewrite !(process_node_field p "type") by (done || by apply Hptype).
      split; [done |]. by left.
    + unfold getNodeStrokeColor, getNodeColor, getNodeRadius, node_type.
      rewrite !(resource_node_field rid r "inCycle")
        by (done || by apply (Hrcyc rid)).
      rewrite !(resource_node_field rid r "type")
        by (done || by apply (Hrtype rid)).
      split; [done |]. by right.
  - intros l [(key & c & _ & _ & ->) | (key & c & _ & _ & ->)]%elem_of_rag_links.
    + left. by rewrite link_type_allocation_edge.
    + right. by rewrite link_type_request_edge.
Qed.

Lemma X16_rag_styling_witness :
  getNodeStrokeColor (resource_node ("1"%string, res 1)) = "white"%string
  ∧ (node_type (resource_node ("1"%string, res 1)) = Some (VStr "process")
     ∧ getNodeColor (resource_node ("1"%string, res 1)) = "#2563eb"%string
     ∧ getNodeRadius (resource_node ("1"%string, res 1)) = 30
     ∨ node_type (resource_node ("1"%string, res 1)) = Some (VStr "resource")
       ∧ getNodeColor (resource_node ("1"%string, res 1)) = "#10b981"%string
       ∧ getNodeRadius (resource_node ("1"%string, res 1)) = 25).
Proof.
  apply (proj1 (X16_rag_styling chain_snapshot)).
  - split.
    + intros p Hp. vm_compute in Hp.
      repeat (apply elem_of_cons in Hp as [-> | Hp]; [reflexivity |]).
      by apply elem_of_nil in Hp.
    + intros rid r Hr. vm_compute in Hr.
      repeat (apply elem_of_cons in Hr as [[= -> ->] | Hr]; [reflexivity |]).
      by apply elem_of_nil in Hr.
  - split.
    + intros p Hp. vm_compute in Hp.
      repeat (apply elem_of_cons in Hp as [-> | Hp]; [reflexivity |]).
      by apply elem_of_nil in Hp.
    + intros rid r Hr. vm_compute in Hr.
      repeat (apply elem_of_cons in Hr as [[= -> ->] | Hr]; [reflexivity |]).
      by apply elem_of_nil in Hr.
  - apply elem_of_rag_nodes. right. exists "1"%string, (res 1).
    split; [| done]. apply elem_of_cons. by left.
Defined.

Lemma load_by_decimal (loose_eq : Z → string → bool)
    (saved : list SavedSnapshot) (z : Z) :
  (∀ z z', loose_eq z (pretty z') = bool_decide (z = z')) →
  loadComparisonSnapshot loose_eq saved (pretty z)
  = array_find (λ s, bool_decide (saved_id s = z)) saved.
Proof.
  intros Heq. unfold loadComparisonSnapshot.
  rewrite bool_decide_eq_false_2 by apply pretty_Z_nonempty.
  induction saved as [| s l IH]; cbn; [done |]. by rewrite Heq, IH.
Qed.

(** X17.  The options of the comparison selectors: the placeholder with
    the empty value first, then one option per saved snapshot, in order,
    whose value is the decimal form of the id.  Choosing the placeholder
    loads nothing; choosing any other option loads a saved snapshot whose
    own option has the chosen value, so when both selectors hold an option
    of a snapshot both lookups of the difference view succeed. *)
Theorem X17_selector_options (loose_eq : Z → string → bool)
    (saved : list SavedSnapshot) :
  (∀ z z', loose_eq z (pretty z') = bool_decide (z = z')) →
  updateComparisonDropdowns saved
  = ""%string :: ((λ s, pretty (saved_id s)) <$> saved)
  ∧ ∀ value, value ∈ updateComparisonDropdowns saved →
      (value = ""%string
       ∧ loadComparisonSnapshot loose_eq saved value = None)
      ∨ (value ≠ ""%string
         ∧ ∃ sv, loadComparisonSnapshot loose_eq saved value = Some sv
                 ∧ sv ∈ saved ∧ pretty (saved_id sv) = value).
Proof.
  intros Heq.
  assert (updateComparisonDropdowns saved
          = ""%string :: ((λ s, pretty (saved_id s)) <$> saved)) as Hopts.
  { unfold updateComparisonDropdowns. by rewrite forEach_push_fmap. }
  split; [done |]. rewrite Hopts.
  intros value [-> | (s & -> & Hs)%list_elem_of_fmap]%elem_of_cons.
  - left. done.
  - right. split; [apply pretty_Z_nonempty |].
    rewrite (load_by_decimal _ _ _ Heq).
    destruct (array_find (λ s0, bool_decide (saved_id s0 = saved_id s)) saved)
      as [sv |] eqn:Hfind.
    + apply array_find_Some in Hfind as [Hin Hid%bool_decide_eq_true].
      exists sv. by rewrite Hid.
    + rewrite array_find_None in Hfind. specialize (Hfind s Hs).
      by apply bool_decide_eq_false in Hfind.
Qed.

Lemma X17_selector_options_witness :
  updateComparisonDropdowns
    [ {| saved_id := 1; name := "Snapshot 1"; timestamp := "t1";
         data := 4%nat; cycles := 5%nat; wfg := Some 6%nat |} ]
  = [""; "1"]%string.
Proof.
  destruct (X17_selector_options (λ z s, bool_decide (parseInt s = Num z))
              [ {| saved_id := 1; name := "Snapshot 1"; timestamp := "t1";
                   data := 4%nat; cycles := 5%nat; wfg := Some 6%nat |} ])
    as [Hopts _].
  - intros z z'. rewrite parseInt_pretty. apply bool_decide_ext.
    split; [by intros [= ->] | by intros ->].
  - exact Hopts.
Defined.

Lemma refresh_keeps_wfg (p : Page) (w : WFG) :
  page_wfg p = Some w →
  page_wfg (refresh p).1 = Some w
  ∧ Forall (λ w', w' = w) (drawn_wfgs (refresh p).2).
Proof.
  destruct p as [m s w0 c]. cbn [page_wfg viewMode]. intros ->.
  unfold refresh. cbn [viewMode page_snapshot page_wfg page_cycles].
  rewrite refreshVisualization_cases.
  destruct (decide (m = "RAG"%string)) as [-> | Hrag].
  { destruct s as [s |]; [destruct (throws (renderRAG s)) |];
      cbn; split; try done; repeat constructor. }
  destruct (decide (m = "WFG"%string)) as [-> | Hwfg];
    cbn; split; try done; repeat constructor.
Qed.

(** X18.  Once the wait-for graph field is set, only a reply of the
    detection replaces it: after any sequence of loads, simulations,
    predictions, recoveries, real-time updates and changes of the view mode
    the field is the same, and every wait-for graph handed to the view on
    the way is that one, whatever snapshots arrived.  A reply of the
    detection that arrives while the wait-for view is selected stores its
    graph and cycles and makes no call, so the view keeps what it showed;
    one that arrives in another view switches to the wait-for view and
    makes one call with the new graph, which draws it when the reply has
    each key once and its keys are decimal forms of safe integers, and
    throws and leaves the view empty for the reply [{"01": [2]}]. *)
Theorem X18_wait_for_graph_kept (events : list Event) (p : Page) (w : WFG) :
  (no_detection events → page_wfg p = Some w →
   page_wfg (run events p).1 = Some w
   ∧ Forall (λ w', w' = w) (drawn_wfgs (run events p).2))
  ∧ (∀ w' cycles before,
       is_Some (page_snapshot p) → viewMode p = "WFG"%string →
       (step (on_detected (Some w') cycles) p).2 = []
       ∧ page_wfg (step (on_detected (Some w') cycles) p).1 = Some w'
       ∧ page_cycles (step (on_detected (Some w') cycles) p).1 = cycles
       ∧ screen before (step (on_detected (Some w') cycles) p).2 = before)
  ∧ (∀ w' cycles before,
       is_Some (page_snapshot p) → viewMode p ≠ "WFG"%string →
       viewMode (step (on_detected (Some w') cycles) p).1 = "WFG"%string
       ∧ (step (on_detected (Some w') cycles) p).2 = [renderWFG w' cycles]
       ∧ (wf_obj w' → (∀ k, k ∈ w'.*1 → decimal_key k) →
          screen before (step (on_detected (Some w') cycles) p).2
          = Some (buildWFGGraph w' cycles)))
  ∧ (∀ before,
       is_Some (page_snapshot p) → viewMode p ≠ "WFG"%string →
       screen before (step (on_detected (Some padded_wfg) []) p).2 = None).
Proof.
  assert (∀ w' cycles,
            is_Some (page_snapshot p) → viewMode p ≠ "WFG"%string →
            step (on_detected (Some w') cycles) p
            = ({| viewMode := "WFG"; page_snapshot := page_snapshot p;
                  page_wfg := Some w'; page_cycles := cycles |},
               [renderWFG w' cycles])) as Hswitch.
  { intros w' cycles [s Hs] Hmode. cbn [step]. rewrite Hs.
    cbn [viewMode]. rewrite (bool_decide_eq_false_2 _ Hmode). cbn [negb].
    unfold switchViewMode, refresh.
    cbn [viewMode page_snapshot page_wfg page_cycles].
    by rewrite refresh_WFG_set. }
  split_and!.
  - clear Hswitch. revert p.
    induction events as [| e events IH]; intros p Hno Hw.
    { cbn. split; [done | constructor]. }
    assert (no_detection events) as Hno'.
    { intros w' c Hin. apply (Hno w' c), elem_of_cons. by right. }
    assert (page_wfg (step e p).1 = Some w
            ∧ Forall (λ w', w' = w) (drawn_wfgs (step e p).2)) as [Hw1 Hd1].
    { destruct e as [data | s | | w' c | s | s c | value];
        cbn [step]; unfold switchViewMode.
      - apply refresh_keeps_wfg; done.
      - apply refresh_keeps_wfg; done.
      - destruct (page_snapshot p); [apply refresh_keeps_wfg; done |].
        split; [done | constructor].
      - exfalso. apply (Hno w' c), elem_of_cons. by left.
      - destruct (page_snapshot p); [apply refresh_keeps_wfg; done |].
        split; [done | constructor].
      - apply refresh_keeps_wfg; done.
      - apply refresh_keeps_wfg; done. }
    cbn [run]. destruct (step e p) as [p1 calls1]. cbn [fst snd] in Hw1, Hd1.
    destruct (IH p1 Hno' Hw1) as [Hw2 Hd2].
    destruct (run events p1) as [p2 calls2]. cbn [fst snd] in Hw2, Hd2 |- *.
    split; [done |]. unfold drawn_wfgs. rewrite omap_app.
    by apply Forall_app.
  - intros w' cycles before [s Hs] Hmode. cbn [step]. rewrite Hs.
    cbn [viewMode]. rewrite (bool_decide_eq_true_2 _ Hmode). done.
  - intros w' cycles before Hs Hmode. rewrite (Hswitch w' cycles Hs Hmode).
    cbn [fst snd viewMode]. split_and!; [done | done |].
    intros Hwf Hkeys. rewrite screen_one.
    rewrite (proj2 (throws_resolves (renderWFG w' cycles))); [done |].
    apply wfg_links_resolve; [done |].
    intros k Hk. by apply decimal_key_canonical, Hkeys.
  - intros before Hs Hmode. rewrite (Hswitch padded_wfg [] Hs Hmode).
    cbn [fst snd]. rewrite screen_one.
    by assert (throws (renderWFG padded_wfg []) = true) as ->
      by (vm_compute; reflexivity).
Qed.

Lemma X18_wait_for_graph_kept_witness :
  page_wfg
    (run [on_loaded chain_snapshot; on_mode_changed "WFG";
          on_system_update (Some blocking_snapshot) []]
       {| viewMode := "RAG"; page_snapshot := None;
          page_wfg := Some cyclic_wfg; page_cycles := [] |}).1
  = Some cyclic_wfg.
Proof.
  apply (X18_wait_for_graph_kept
           [on_loaded chain_snapshot; on_mode_changed "WFG";
            on_system_update (Some blocking_snapshot) []]
           {| viewMode := "RAG"; page_snapshot := None;
              page_wfg := Some cyclic_wfg; page_cycles := [] |} cyclic_wfg).
  - intros w c Hin.
    repeat (apply elem_of_cons in Hin as [Hin | Hin]; [discriminate Hin |]).
    by apply elem_of_nil in Hin.
  - reflexivity.
Defined.
